(** * Hippius SDK (TypeScript): encryption and resilience layer

    A shallow embedding of the parts of the SDK that carry invariants:

    - [src/utils/index.ts]   : [retryWithBackoff], [formatSize], [formatCid];
    - [src/ipfs/index.ts]    : the [IPFSClient] constructor, [encryptData],
                               [decryptData], [generateEncryptionKey], [cat],
                               [exists], [pin], [publishGlobal], [uploadFile];
    - [src/ipfs/ipfs-core.ts]: [IPFSCore], its uploads, [cat], [pin], [exists];
    - [src/config/index.ts]  : [setSeedPhrase], [getSeedPhrase],
                               [getConfigValue], [setConfigValue],
                               [getActiveAccount], [setActiveAccount],
                               [getAccountAddress], [getEncryptionKey].

    The SDK calls into Node's [crypto] and [Buffer] modules.  Those calls are
    given their standard meaning: AES-256 (FIPS 197) in CBC mode with PKCS#7
    padding for ['aes-256-cbc'], PBKDF2 (RFC 8018) over HMAC (RFC 2104) over
    SHA-256 (FIPS 180-4) for [pbkdf2Sync], RFC 4648 for base64.  Published
    test vectors are checked as examples further down.

    Conventions.  A [Buffer] is a [list byte].  A JavaScript string is a
    [string] that holds the bytes of its UTF-8 encoding, a surrogate with
    no partner being written as the three bytes of its code point;
    [Buffer.from(s, 'utf-8')] is [Utf8.encode], which replaces such a
    surrogate by U+FFFD, and [buf.toString('utf-8')] is [Utf8.decode],
    which replaces ill-formed bytes by U+FFFD.  A plain object used as a
    map is a [gmap] of its own properties; a name that [Object.prototype]
    gives to every object ([Js.own_only] tells) is read and written in
    another way by the source, and the statements about such maps say
    where they leave these names out.  A thrown exception is the
    [inl] of a sum, a returned value its [inr].  [crypto.randomBytes] reads
    from an explicit entropy tape, [fetch] asks an explicit network, and the
    [fs] calls act on a map from paths to files and directories. *)

From Stdlib Require Import ZArith NArith Bool List Btauto Lia.
From Stdlib Require Import Strings.Byte Strings.Ascii Strings.String.
From Equations Require Import Equations.
From stdpp Require Import base option list strings gmap.
Import ListNotations.

Local Open Scope bool_scope.
Local Open Scope list_scope.

Abbreviation byte := Byte.byte.
Abbreviation Buffer := (list Byte.byte).

(** ** Bytes *)

Module Bytes.

(** The eight bits of a byte, least significant first, as [Byte.to_bits]
    gives them. *)
Definition bits8 : Type :=
  (bool * (bool * (bool * (bool * (bool * (bool * (bool * bool)))))))%type.

Definition xor8 (a b : bits8) : bits8 :=
  let '(a0, (a1, (a2, (a3, (a4, (a5, (a6, a7))))))) := a in
  let '(b0, (b1, (b2, (b3, (b4, (b5, (b6, b7))))))) := b in
  (xorb a0 b0, (xorb a1 b1, (xorb a2 b2, (xorb a3 b3,
  (xorb a4 b4, (xorb a5 b5, (xorb a6 b6, xorb a7 b7))))))).

(** Bitwise exclusive or of two bytes. *)
Definition bxor (a b : byte) : byte :=
  Byte.of_bits (xor8 (Byte.to_bits a) (Byte.to_bits b)).

(** Exclusive or of two buffers, position by position (the shorter one
    bounds the result). *)
Fixpoint xor_bytes (u v : Buffer) : Buffer :=
  match u, v with
  | a :: u', b :: v' => bxor a b :: xor_bytes u' v'
  | _, _ => []
  end.

(** The byte whose value is [n mod 256]. *)
Definition byte_of_N (n : N) : byte :=
  match Byte.of_N (n mod 256) with
  | Some b => b
  | None => Byte.x00
  end.

Definition byte_of_nat (n : nat) : byte := byte_of_N (N.of_nat n).

(** Hexadecimal text, two digits a byte, for writing test data. *)
Definition hex_digit (c : ascii) : option N :=
  let n := N_of_ascii c in
  if (48 <=? n)%N && (n <=? 57)%N then Some (n - 48)%N
  else if (97 <=? n)%N && (n <=? 102)%N then Some (n - 87)%N
  else if (65 <=? n)%N && (n <=? 70)%N then Some (n - 55)%N
  else None.

Fixpoint bytes_of_hex (s : string) : Buffer :=
  match s with
  | String c1 (String c2 rest) =>
      match hex_digit c1, hex_digit c2 with
      | Some h, Some l => byte_of_N (16 * h + l) :: bytes_of_hex rest
      | _, _ => []
      end
  | _ => []
  end.

(** The character U+0000, as a string of its own. *)
Definition NUL : string := String "000" "".

End Bytes.

(** ** AES-256 (FIPS 197)

    The block cipher behind Node's ['aes-256-cbc']: Nk = 8, Nb = 4, Nr = 14. *)

Module AES.
Import Bytes.

(** Multiplication by [x] in GF(2^8) modulo [x^8 + x^4 + x^3 + x + 1]. *)
Definition xtime8 (a : bits8) : bits8 :=
  let '(a0, (a1, (a2, (a3, (a4, (a5, (a6, a7))))))) := a in
  (a7, (xorb a0 a7, (a1, (xorb a2 a7, (xorb a3 a7, (a4, (a5, a6))))))).

Definition xtime (a : byte) : byte := Byte.of_bits (xtime8 (Byte.to_bits a)).

(** The field multiplications by the constants of (Inv)MixColumns. *)
Definition mul2 (a : byte) : byte := xtime a.
Definition mul4 (a : byte) : byte := xtime (xtime a).
Definition mul8 (a : byte) : byte := xtime (xtime (xtime a)).
Definition mul3 (a : byte) : byte := bxor (mul2 a) a.
Definition mul9 (a : byte) : byte := bxor (mul8 a) a.
Definition mul11 (a : byte) : byte := bxor (bxor (mul8 a) (mul2 a)) a.
Definition mul13 (a : byte) : byte := bxor (bxor (mul8 a) (mul4 a)) a.
Definition mul14 (a : byte) : byte := bxor (bxor (mul8 a) (mul4 a)) (mul2 a).

Definition sbox_table : list byte :=
  [
   x63; x7c; x77; x7b; xf2; x6b; x6f; xc5; x30; x01; x67; x2b; xfe; xd7; xab; x76;
   xca; x82; xc9; x7d; xfa; x59; x47; xf0; xad; xd4; xa2; xaf; x9c; xa4; x72; xc0;
   xb7; xfd; x93; x26; x36; x3f; xf7; xcc; x34; xa5; xe5; xf1; x71; xd8; x31; x15;
   x04; xc7; x23; xc3; x18; x96; x05; x9a; x07; x12; x80; xe2; xeb; x27; xb2; x75;
   x09; x83; x2c; x1a; x1b; x6e; x5a; xa0; x52; x3b; xd6; xb3; x29; xe3; x2f; x84;
   x53; xd1; x00; xed; x20; xfc; xb1; x5b; x6a; xcb; xbe; x39; x4a; x4c; x58; xcf;
   xd0; xef; xaa; xfb; x43; x4d; x33; x85; x45; xf9; x02; x7f; x50; x3c; x9f; xa8;
   x51; xa3; x40; x8f; x92; x9d; x38; xf5; xbc; xb6; xda; x21; x10; xff; xf3; xd2;
   xcd; x0c; x13; xec; x5f; x97; x44; x17; xc4; xa7; x7e; x3d; x64; x5d; x19; x73;
   x60; x81; x4f; xdc; x22; x2a; x90; x88; x46; xee; xb8; x14; xde; x5e; x0b; xdb;
   xe0; x32; x3a; x0a; x49; x06; x24; x5c; xc2; xd3; xac; x62; x91; x95; xe4; x79;
   xe7; xc8; x37; x6d; x8d; xd5; x4e; xa9; x6c; x56; xf4; xea; x65; x7a; xae; x08;
   xba; x78; x25; x2e; x1c; xa6; xb4; xc6; xe8; xdd; x74; x1f; x4b; xbd; x8b; x8a;
   x70; x3e; xb5; x66; x48; x03; xf6; x0e; x61; x35; x57; xb9; x86; xc1; x1d; x9e;
   xe1; xf8; x98; x11; x69; xd9; x8e; x94; x9b; x1e; x87; xe9; xce; x55; x28; xdf;
   x8c; xa1; x89; x0d; xbf; xe6; x42; x68; x41; x99; x2d; x0f; xb0; x54; xbb; x16
  ].

Definition inv_sbox_table : list byte :=
  [
   x52; x09; x6a; xd5; x30; x36; xa5; x38; xbf; x40; xa3; x9e; x81; xf3; xd7; xfb;
   x7c; xe3; x39; x82; x9b; x2f; xff; x87; x34; x8e; x43; x44; xc4; xde; xe9; xcb;
   x54; x7b; x94; x32; xa6; xc2; x23; x3d; xee; x4c; x95; x0b; x42; xfa; xc3; x4e;
   x08; x2e; xa1; x66; x28; xd9; x24; xb2; x76; x5b; xa2; x49; x6d; x8b; xd1; x25;
   x72; xf8; xf6; x64; x86; x68; x98; x16; xd4; xa4; x5c; xcc; x5d; x65; xb6; x92;
   x6c; x70; x48; x50; xfd; xed; xb9; xda; x5e; x15; x46; x57; xa7; x8d; x9d; x84;
   x90; xd8; xab; x00; x8c; xbc; xd3; x0a; xf7; xe4; x58; x05; xb8; xb3; x45; x06;
   xd0; x2c; x1e; x8f; xca; x3f; x0f; x02; xc1; xaf; xbd; x03; x01; x13; x8a; x6b;
   x3a; x91; x11; x41; x4f; x67; xdc; xea; x97; xf2; xcf; xce; xf0; xb4; xe6; x73;
   x96; xac; x74; x22; xe7; xad; x35; x85; xe2; xf9; x37; xe8; x1c; x75; xdf; x6e;
   x47; xf1; x1a; x71; x1d; x29; xc5; x89; x6f; xb7; x62; x0e; xaa; x18; xbe; x1b;
   xfc; x56; x3e; x4b; xc6; xd2; x79; x20; x9a; xdb; xc0; xfe; x78; xcd; x5a; xf4;
   x1f; xdd; xa8; x33; x88; x07; xc7; x31; xb1; x12; x10; x59; x27; x80; xec; x5f;
   x60; x51; x7f; xa9; x19; xb5; x4a; x0d; x2d; xe5; x7a; x9f; x93; xc9; x9c; xef;
   xa0; xe0; x3b; x4d; xae; x2a; xf5; xb0; xc8; xeb; xbb; x3c; x83; x53; x99; x61;
   x17; x2b; x04; x7e; xba; x77; xd6; x26; xe1; x69; x14; x63; x55; x21; x0c; x7d
  ].

Definition sbox (b : byte) : byte := nth (Byte.to_nat b) sbox_table Byte.x00.
Definition inv_sbox (b : byte) : byte := nth (Byte.to_nat b) inv_sbox_table Byte.x00.

(** A column of the state: four bytes, row 0 first. *)
Record word : Type := Word { w0 : byte; w1 : byte; w2 : byte; w3 : byte }.

(** The state, column by column; a round key has the same shape. *)
Record state : Type := State { c0 : word; c1 : word; c2 : word; c3 : word }.

Definition zero_word : word := Word Byte.x00 Byte.x00 Byte.x00 Byte.x00.
Definition zero_state : state := State zero_word zero_word zero_word zero_word.

Definition map_word (f : byte -> byte) (w : word) : word :=
  Word (f (w0 w)) (f (w1 w)) (f (w2 w)) (f (w3 w)).

Definition xor_word (u v : word) : word :=
  Word (bxor (w0 u) (w0 v)) (bxor (w1 u) (w1 v))
       (bxor (w2 u) (w2 v)) (bxor (w3 u) (w3 v)).

Definition map_columns (f : word -> word) (s : state) : state :=
  State (f (c0 s)) (f (c1 s)) (f (c2 s)) (f (c3 s)).

Definition add_round_key (s k : state) : state :=
  State (xor_word (c0 s) (c0 k)) (xor_word (c1 s) (c1 k))
        (xor_word (c2 s) (c2 k)) (xor_word (c3 s) (c3 k)).

Definition sub_bytes : state -> state := map_columns (map_word sbox).
Definition inv_sub_bytes : state -> state := map_columns (map_word inv_sbox).

(** Row [r] is rotated left by [r] columns. *)
Definition shift_rows (s : state) : state :=
  State (Word (w0 (c0 s)) (w1 (c1 s)) (w2 (c2 s)) (w3 (c3 s)))
        (Word (w0 (c1 s)) (w1 (c2 s)) (w2 (c3 s)) (w3 (c0 s)))
        (Word (w0 (c2 s)) (w1 (c3 s)) (w2 (c0 s)) (w3 (c1 s)))
        (Word (w0 (c3 s)) (w1 (c0 s)) (w2 (c1 s)) (w3 (c2 s))).

Definition inv_shift_rows (s : state) : state :=
  State (Word (w0 (c0 s)) (w1 (c3 s)) (w2 (c2 s)) (w3 (c1 s)))
        (Word (w0 (c1 s)) (w1 (c0 s)) (w2 (c3 s)) (w3 (c2 s)))
        (Word (w0 (c2 s)) (w1 (c1 s)) (w2 (c0 s)) (w3 (c3 s)))
        (Word (w0 (c3 s)) (w1 (c2 s)) (w2 (c1 s)) (w3 (c0 s))).

Definition mix_column (w : word) : word :=
  let '(Word a0 a1 a2 a3) := w in
  Word (bxor (bxor (mul2 a0) (mul3 a1)) (bxor a2 a3))
       (bxor (bxor a0 (mul2 a1)) (bxor (mul3 a2) a3))
       (bxor (bxor a0 a1) (bxor (mul2 a2) (mul3 a3)))
       (bxor (bxor (mul3 a0) a1) (bxor a2 (mul2 a3))).

Definition inv_mix_column (w : word) : word :=
  let '(Word a0 a1 a2 a3) := w in
  Word (bxor (bxor (mul14 a0) (mul11 a1)) (bxor (mul13 a2) (mul9 a3)))
       (bxor (bxor (mul9 a0) (mul14 a1)) (bxor (mul11 a2) (mul13 a3)))
       (bxor (bxor (mul13 a0) (mul9 a1)) (bxor (mul14 a2) (mul11 a3)))
       (bxor (bxor (mul11 a0) (mul13 a1)) (bxor (mul9 a2) (mul14 a3))).

Definition mix_columns : state -> state := map_columns mix_column.
Definition inv_mix_columns : state -> state := map_columns inv_mix_column.

(** *** Key expansion *)

Definition rot_word (w : word) : word := Word (w1 w) (w2 w) (w3 w) (w0 w).
Definition sub_word : word -> word := map_word sbox.

(** [rcon i] is the word [x^(i-1), 0, 0, 0], for [i >= 1]. *)
Definition rcon (i : nat) : word :=
  Word (Nat.iter (i - 1) xtime Byte.x01) Byte.x00 Byte.x00 Byte.x00.

(** The loop of KeyExpansion for Nk = 8: [n] more words are appended to [w],
    the next one having index [i]. *)
Fixpoint key_expansion_loop (n i : nat) (w : list word) : list word :=
  match n with
  | O => w
  | S n' =>
      let temp := nth (i - 1) w zero_word in
      let temp :=
        if (i mod 8 =? 0)%nat then xor_word (sub_word (rot_word temp)) (rcon (i / 8))
        else if (i mod 8 =? 4)%nat then sub_word temp
        else temp in
      key_expansion_loop n' (S i) (w ++ [xor_word (nth (i - 8) w zero_word) temp])
  end.

Fixpoint words_of_bytes (l : Buffer) : list word :=
  match l with
  | a :: b :: c :: d :: rest => Word a b c d :: words_of_bytes rest
  | _ => []
  end.

Fixpoint states_of_words (l : list word) : list state :=
  match l with
  | a :: b :: c :: d :: rest => State a b c d :: states_of_words rest
  | _ => []
  end.

(** The fifteen round keys of a 32-byte key. *)
Definition key_expansion (key : Buffer) : list state :=
  states_of_words (key_expansion_loop 52 8 (words_of_bytes key)).

(** *** Cipher and inverse cipher *)

Definition round (s k : state) : state :=
  add_round_key (mix_columns (shift_rows (sub_bytes s))) k.

Definition inv_round (s k : state) : state :=
  inv_mix_columns (add_round_key (inv_sub_bytes (inv_shift_rows s)) k).

(** [Cipher] of FIPS 197 (Fig. 5) over the round keys [first :: middle ++ [last]]. *)
Definition cipher (first : state) (middle : list state) (last : state) (s : state) : state :=
  let s := add_round_key s first in
  let s := fold_left round middle s in
  add_round_key (shift_rows (sub_bytes s)) last.

(** [InvCipher] of FIPS 197 (Fig. 12) over the same round keys. *)
Definition inv_cipher (first : state) (middle : list state) (last : state) (s : state) : state :=
  let s := add_round_key s last in
  let s := fold_left inv_round (rev middle) s in
  add_round_key (inv_sub_bytes (inv_shift_rows s)) first.

Definition bytes_of_word (w : word) : Buffer := [w0 w; w1 w; w2 w; w3 w].

Definition bytes_of_state (s : state) : Buffer :=
  bytes_of_word (c0 s) ++ bytes_of_word (c1 s) ++ bytes_of_word (c2 s) ++ bytes_of_word (c3 s).

Definition state_of_bytes (l : Buffer) : state :=
  match states_of_words (words_of_bytes l) with
  | s :: _ => s
  | [] => zero_state
  end.

(** The round keys split as [cipher] takes them. *)
Definition split_round_keys (rks : list state) : state * list state * state :=
  match rks with
  | first :: rest => (first, removelast rest, List.last rest zero_state)
  | [] => (zero_state, [], zero_state)
  end.

(** One 16-byte block under a 32-byte key. *)
Definition encrypt_block (key block : Buffer) : Buffer :=
  let '(first, middle, last) := split_round_keys (key_expansion key) in
  bytes_of_state (cipher first middle last (state_of_bytes block)).

Definition decrypt_block (key block : Buffer) : Buffer :=
  let '(first, middle, last) := split_round_keys (key_expansion key) in
  bytes_of_state (inv_cipher first middle last (state_of_bytes block)).

End AES.

(** ** JavaScript objects used as maps *)

Module Js.

(** The properties that every plain object inherits from
    [Object.prototype]. *)
Definition prototype_members : list string :=
  ["constructor"; "__proto__"; "__defineGetter__"; "__defineSetter__";
   "__lookupGetter__"; "__lookupSetter__"; "hasOwnProperty"; "isPrototypeOf";
   "propertyIsEnumerable"; "toString"; "valueOf"; "toLocaleString"]%string.

(** A name under which a plain object holds nothing but what was put there:
    [object[name]] is the object's own property, or [undefined]. *)
Definition own_only (name : string) : bool :=
  negb (existsb (String.eqb name) prototype_members).


End Js.

(** ** UTF-8, as [Buffer] writes and reads strings *)

Module Utf8.
Local Open Scope N_scope.

(** A JavaScript string is a sequence of UTF-16 code units and may hold a
    surrogate with no partner.  Here it is the [string] of the bytes of its
    UTF-8 encoding, a lone surrogate being written as the three bytes that
    its code point would take ([ED A0..BF 80..BF]); a surrogate pair is
    the four bytes of its character, as in UTF-8. *)

Definition within (lo hi : N) (b : byte) : bool :=
  (lo <=? Byte.to_N b) && (Byte.to_N b <=? hi).

Definition continuation (b : byte) : bool := within 0x80 0xBF b.

(** The second byte that may follow the first byte of a sequence of three or
    four bytes (Unicode, table 3-7). *)
Definition second (b0 b1 : byte) : bool :=
  let n := Byte.to_N b0 in
  if n =? 0xE0 then within 0xA0 0xBF b1
  else if n =? 0xED then within 0x80 0x9F b1
  else if n =? 0xF0 then within 0x90 0xBF b1
  else if n =? 0xF4 then within 0x80 0x8F b1
  else continuation b1.

(** What stands at the head of a sequence of bytes: a well-formed sequence
    of [n] bytes for one character; the three bytes of a lone surrogate; or
    an ill-formed sequence, of which [n] bytes are the longest beginning of
    a well-formed sequence (one byte, when there is no such beginning). *)
Inductive Chunk : Type :=
| Scalar (n : nat)
| Surrogate
| Broken (n : nat).

Definition chunk (l : Buffer) : Chunk :=
  match l with
  | [] => Broken 1
  | b0 :: t =>
      if within 0x00 0x7F b0 then Scalar 1
      else if within 0xC2 0xDF b0 then
        match t with
        | b1 :: _ => if continuation b1 then Scalar 2 else Broken 1
        | [] => Broken 1
        end
      else if within 0xE0 0xEF b0 then
        match t with
        | b1 :: t1 =>
            if second b0 b1 then
              match t1 with
              | b2 :: _ => if continuation b2 then Scalar 3 else Broken 2
              | [] => Broken 2
              end
            else
              match t1 with
              | b2 :: _ =>
                  if (Byte.to_N b0 =? 0xED) && within 0xA0 0xBF b1 && continuation b2
                  then Surrogate else Broken 1
              | [] => Broken 1
              end
        | [] => Broken 1
        end
      else if within 0xF0 0xF4 b0 then
        match t with
        | b1 :: t1 =>
            if second b0 b1 then
              match t1 with
              | b2 :: t2 =>
                  if continuation b2 then
                    match t2 with
                    | b3 :: _ => if continuation b3 then Scalar 4 else Broken 3
                    | [] => Broken 3
                    end
                  else Broken 2
              | [] => Broken 2
              end
            else Broken 1
        | [] => Broken 1
        end
      else Broken 1
  end.

(** U+FFFD, the replacement character. *)
Definition replacement : Buffer := [Byte.xef; Byte.xbf; Byte.xbd].

(** The bytes of [Buffer.from(s, 'utf-8')]: every character is encoded as it
    is, and a lone surrogate as U+FFFD.  A [string] that is no JavaScript
    string keeps its ill-formed bytes. *)
Fixpoint encode_bytes (fuel : nat) (l : Buffer) : Buffer :=
  match fuel with
  | O => []
  | S fuel' =>
      match l with
      | [] => []
      | _ :: _ =>
          match chunk l with
          | Scalar n => firstn n l ++ encode_bytes fuel' (skipn n l)
          | Surrogate => replacement ++ encode_bytes fuel' (skipn 3 l)
          | Broken _ => firstn 1 l ++ encode_bytes fuel' (skipn 1 l)
          end
      end
  end.

(** [Buffer.from(s, 'utf-8')], and [new TextEncoder().encode(s)] *)
Definition encode (s : string) : Buffer :=
  encode_bytes (length (list_byte_of_string s)) (list_byte_of_string s).

(** The bytes of the text that [buf.toString('utf-8')] returns: well-formed
    sequences are kept, and every longest ill-formed beginning, and every
    byte that begins nothing, is replaced by U+FFFD (the bytes of a lone
    surrogate are ill-formed UTF-8: three replacements). *)
Fixpoint decode_bytes (fuel : nat) (l : Buffer) : Buffer :=
  match fuel with
  | O => []
  | S fuel' =>
      match l with
      | [] => []
      | _ :: _ =>
          match chunk l with
          | Scalar n => firstn n l ++ decode_bytes fuel' (skipn n l)
          | Surrogate => replacement ++ decode_bytes fuel' (skipn 1 l)
          | Broken n => replacement ++ decode_bytes fuel' (skipn n l)
          end
      end
  end.

(** [buf.toString('utf-8')] *)
Definition decode (l : Buffer) : string :=
  string_of_list_byte (decode_bytes (length l) l).

(** Every chunk is a well-formed sequence. *)
Fixpoint scalars (fuel : nat) (l : Buffer) : bool :=
  match l with
  | [] => true
  | _ :: _ =>
      match fuel with
      | O => false
      | S fuel' =>
          match chunk l with
          | Scalar n => scalars fuel' (skipn n l)
          | _ => false
          end
      end
  end.

(** A string with no lone surrogate: its bytes are well-formed UTF-8. *)
Definition well_formed (s : string) : bool :=
  scalars (length (list_byte_of_string s)) (list_byte_of_string s).

End Utf8.
(** ** SHA-256 (FIPS 180-4) *)

Module SHA256.
Import Bytes.
Local Open Scope N_scope.

(** 32-bit words are numbers below [2^32]. *)
Definition wrap (x : N) : N := x mod 0x100000000.
Definition add32 (x y : N) : N := wrap (x + y).
Definition rotr (n x : N) : N := wrap (N.lor (N.shiftr x n) (N.shiftl x (32 - n))).
Definition shr (n x : N) : N := N.shiftr x n.
Definition not32 (x : N) : N := N.lxor x 0xffffffff.

Definition Ch (x y z : N) : N := N.lxor (N.land x y) (N.land (not32 x) z).
Definition Maj (x y z : N) : N :=
  N.lxor (N.lxor (N.land x y) (N.land x z)) (N.land y z).
Definition Sigma0 (x : N) : N := N.lxor (N.lxor (rotr 2 x) (rotr 13 x)) (rotr 22 x).
Definition Sigma1 (x : N) : N := N.lxor (N.lxor (rotr 6 x) (rotr 11 x)) (rotr 25 x).
Definition sigma0 (x : N) : N := N.lxor (N.lxor (rotr 7 x) (rotr 18 x)) (shr 3 x).
Definition sigma1 (x : N) : N := N.lxor (N.lxor (rotr 17 x) (rotr 19 x)) (shr 10 x).

(** The first 64 primes. *)
Definition is_prime (n : nat) : bool :=
  forallb (fun d => negb (n mod d =? 0)%nat) (seq 2 (n - 2)).

Definition primes : list N := map N.of_nat (filter is_prime (seq 2 310)).

(** The integer cube root, one bit at a time from bit [b - 1] down. *)
Fixpoint cube_root_bits (b : nat) (n r : N) : N :=
  match b with
  | O => r
  | S b' =>
      let r' := r + 2 ^ N.of_nat b' in
      cube_root_bits b' n (if r' * r' * r' <=? n then r' else r)
  end.

Definition cube_root (n : N) : N := cube_root_bits 40 n 0.

(** The round constants: the first 32 bits of the fractional parts of the
    cube roots of the first 64 primes. *)
Definition K : list N :=
  Eval vm_compute in map (fun p => wrap (cube_root (p * 2 ^ 96))) primes.

(** The hash value: eight words. *)
Record hash : Type :=
  Hash { ha : N; hb : N; hc : N; hd : N; he : N; hf : N; hg : N; hh : N }.

(** The initial hash value: the first 32 bits of the fractional parts of the
    square roots of the first 8 primes. *)
Definition initial : list N :=
  Eval vm_compute in map (fun p => wrap (N.sqrt (p * 2 ^ 64))) (firstn 8 primes).

Definition H0 : hash :=
  Hash (nth 0 initial 0) (nth 1 initial 0) (nth 2 initial 0) (nth 3 initial 0)
       (nth 4 initial 0) (nth 5 initial 0) (nth 6 initial 0) (nth 7 initial 0).

(** Big-endian conversions. *)
Definition word_of_bytes (a b c d : byte) : N :=
  Byte.to_N a * 0x1000000 + Byte.to_N b * 0x10000 + Byte.to_N c * 0x100 + Byte.to_N d.

Definition bytes_of_word (x : N) : Buffer :=
  [byte_of_N (x / 0x1000000); byte_of_N (x / 0x10000); byte_of_N (x / 0x100); byte_of_N x].

Fixpoint words_of_block (l : Buffer) : list N :=
  match l with
  | a :: b :: c :: d :: rest => word_of_bytes a b c d :: words_of_block rest
  | _ => []
  end.

(** The message schedule: [n] more words appended to [w], the next one
    having index [t]. *)
Fixpoint schedule (n t : nat) (w : list N) : list N :=
  match n with
  | O => w
  | S n' =>
      let x :=
        add32 (add32 (sigma1 (nth (t - 2) w 0)) (nth (t - 7) w 0))
              (add32 (sigma0 (nth (t - 15) w 0)) (nth (t - 16) w 0)) in
      schedule n' (S t) (w ++ [x])
  end.

Definition step (h : hash) (kw : N * N) : hash :=
  let '(k, w) := kw in
  let t1 := add32 (add32 (add32 (hh h) (Sigma1 (he h))) (Ch (he h) (hf h) (hg h)))
                  (add32 k w) in
  let t2 := add32 (Sigma0 (ha h)) (Maj (ha h) (hb h) (hc h)) in
  Hash (add32 t1 t2) (ha h) (hb h) (hc h) (add32 (hd h) t1) (he h) (hf h) (hg h).

(** One 64-byte block folded into the hash value. *)
Definition compress (h : hash) (block : Buffer) : hash :=
  let w := schedule 48 16 (words_of_block block) in
  let r := fold_left step (combine K w) h in
  Hash (add32 (ha h) (ha r)) (add32 (hb h) (hb r)) (add32 (hc h) (hc r))
       (add32 (hd h) (hd r)) (add32 (he h) (he r)) (add32 (hf h) (hf r))
       (add32 (hg h) (hg r)) (add32 (hh h) (hh r)).

(** Padding: a one bit, zeros up to 56 modulo 64, the bit length on 8 bytes. *)
Definition pad (msg : Buffer) : Buffer :=
  let len := length msg in
  let zeros := ((119 - len mod 64) mod 64)%nat in
  let bits := 8 * N.of_nat len in
  msg ++ [Byte.x80] ++ repeat Byte.x00 zeros
      ++ bytes_of_word (bits / 0x100000000) ++ bytes_of_word bits.

Fixpoint blocks (n : nat) (h : hash) (data : Buffer) : hash :=
  match n with
  | O => h
  | S n' => blocks n' (compress h (firstn 64 data)) (skipn 64 data)
  end.

Definition bytes_of_hash (h : hash) : Buffer :=
  bytes_of_word (ha h) ++ bytes_of_word (hb h) ++ bytes_of_word (hc h)
    ++ bytes_of_word (hd h) ++ bytes_of_word (he h) ++ bytes_of_word (hf h)
    ++ bytes_of_word (hg h) ++ bytes_of_word (hh h).

Definition sha256 (msg : Buffer) : Buffer :=
  let m := pad msg in
  bytes_of_hash (blocks (length m / 64) H0 m).

End SHA256.

(** ** HMAC-SHA-256 (RFC 2104) and PBKDF2 (RFC 8018) *)

Module KDF.
Import Bytes.

(** The key brought to the block size: hashed when longer than 64 bytes,
    then filled with zeros. *)
Definition hmac_key_block (key : Buffer) : Buffer :=
  let k := if (64 <? length key)%nat then SHA256.sha256 key else key in
  k ++ repeat Byte.x00 (64 - length k).

Definition hmac_sha256 (key msg : Buffer) : Buffer :=
  let k := hmac_key_block key in
  let ipad := map (bxor Byte.x36) k in
  let opad := map (bxor Byte.x5c) k in
  SHA256.sha256 (opad ++ SHA256.sha256 (ipad ++ msg)).

(** [F (P, S, c, i)] of RFC 8018: the exclusive or of [c] chained PRF values. *)
Definition pbkdf2_block (password salt : Buffer) (c : N) (i : N) : Buffer :=
  let u1 := hmac_sha256 password (salt ++ SHA256.bytes_of_word i) in
  snd (N.iter (c - 1)
         (fun '(u, t) => let u' := hmac_sha256 password u in (u', xor_bytes t u'))
         (u1, u1)).

(** [n] successive blocks [T_i], starting at index [i]. *)
Fixpoint pbkdf2_blocks (n : nat) (password salt : Buffer) (c : N) (i : N) : Buffer :=
  match n with
  | O => []
  | S n' => pbkdf2_block password salt c i ++ pbkdf2_blocks n' password salt c (N.succ i)
  end.

Definition pbkdf2_hmac_sha256 (password salt : Buffer) (c : N) (dkLen : nat) : Buffer :=
  firstn dkLen (pbkdf2_blocks ((dkLen + 31) / 32) password salt c 1).

End KDF.

(** ** Base64 (RFC 4648), as [Buffer] reads and writes it *)

Module Base64.
Import Bytes.
Local Open Scope N_scope.

Definition alphabet : list ascii :=
  list_ascii_of_string
    "ABCDEFGHIJKLMNOPQRSTUVWXYZabcdefghijklmnopqrstuvwxyz0123456789+/".

Definition char_of_sextet (n : N) : ascii := nth (N.to_nat n) alphabet "A"%char.

(** The value of a character; [None] for a character outside the alphabet.
    The URL-safe ['-'] and ['_'] are read as well, as Node does. *)
Definition sextet_of_char (c : ascii) : option N :=
  let n := N_of_ascii c in
  if (65 <=? n) && (n <=? 90) then Some (n - 65)
  else if (97 <=? n) && (n <=? 122) then Some (n - 71)
  else if (48 <=? n) && (n <=? 57) then Some (n + 4)
  else if (n =? 43) || (n =? 45) then Some 62
  else if (n =? 47) || (n =? 95) then Some 63
  else None.

Definition pad_char : ascii := "="%char.

(** [buf.toString('base64')] *)
Fixpoint encode_chars (l : Buffer) : list ascii :=
  match l with
  | [] => []
  | [a] =>
      let x := Byte.to_N a in
      [char_of_sextet (x / 4); char_of_sextet (x mod 4 * 16); pad_char; pad_char]
  | [a; b] =>
      let x := Byte.to_N a in
      let y := Byte.to_N b in
      [char_of_sextet (x / 4); char_of_sextet (x mod 4 * 16 + y / 16);
       char_of_sextet (y mod 16 * 4); pad_char]
  | a :: b :: c :: rest =>
      let x := Byte.to_N a in
      let y := Byte.to_N b in
      let z := Byte.to_N c in
      char_of_sextet (x / 4) :: char_of_sextet (x mod 4 * 16 + y / 16)
        :: char_of_sextet (y mod 16 * 4 + z / 64) :: char_of_sextet (z mod 64)
        :: encode_chars rest
  end.

Definition encode (l : Buffer) : string := string_of_list_ascii (encode_chars l).

(** The sextets of a text: characters outside the alphabet are skipped and
    the first ['='] ends the data. *)
Fixpoint sextets (l : list ascii) : list N :=
  match l with
  | [] => []
  | c :: rest =>
      if Ascii.eqb c pad_char then []
      else match sextet_of_char c with
           | Some n => n :: sextets rest
           | None => sextets rest
           end
  end.

(** Four sextets give three bytes; a last group of three gives two, of two
    gives one, and a single sextet is dropped. *)
Fixpoint bytes_of_sextets (l : list N) : Buffer :=
  match l with
  | p :: q :: r :: s :: rest =>
      byte_of_N (p * 4 + q / 16) :: byte_of_N (q mod 16 * 16 + r / 4)
        :: byte_of_N (r mod 4 * 64 + s) :: bytes_of_sextets rest
  | [p; q; r] => [byte_of_N (p * 4 + q / 16); byte_of_N (q mod 16 * 16 + r / 4)]
  | [p; q] => [byte_of_N (p * 4 + q / 16)]
  | _ => []
  end.

(** [Buffer.from(s, 'base64')] *)
Definition decode (s : string) : Buffer :=
  bytes_of_sextets (sextets (list_ascii_of_string s)).

End Base64.

(** ** Node's [crypto] module *)

Module Crypto.
Import Bytes.

(** A JavaScript [Error] object: the name of its class and its message. *)
Record JsError : Type := mkError { name : string; message : string }.

(** [String(e)], as a template literal renders an error. *)
Definition toString (e : JsError) : string := (name e ++ ": " ++ message e)%string.

(** What the cipher calls throw. *)
Inductive CryptoError : Type :=
| InvalidIV
| InvalidKeyType
| InvalidKeyLength
| WrongFinalBlockLength
| BadDecrypt.

(** The error objects of Node 18 (OpenSSL 3). *)
Definition js_error (e : CryptoError) : JsError :=
  match e with
  | InvalidIV => mkError "TypeError" "Invalid initialization vector"
  | InvalidKeyType =>
      (* the message of Node puts key between quotation marks *)
      mkError "TypeError"
        "The key argument must be of type string or an instance of ArrayBuffer, Buffer, TypedArray, DataView, KeyObject, or CryptoKey. Received null"
  | InvalidKeyLength => mkError "RangeError" "Invalid key length"
  | WrongFinalBlockLength =>
      mkError "Error" "error:1C80006B:Provider routines::wrong final block length"
  | BadDecrypt => mkError "Error" "error:1C800064:Provider routines::bad decrypt"
  end.

(** *** The entropy source *)

(** The bytes the operating system will hand out, and how many were taken. *)
Record Entropy : Type := mkEntropy { tape : nat -> byte; taken : nat }.

(** [crypto.randomBytes(n)] *)
Definition randomBytes (n : nat) (e : Entropy) : Buffer * Entropy :=
  (map (tape e) (seq (taken e) n), mkEntropy (tape e) (taken e + n)).

(** *** PKCS#7 padding *)

Definition pkcs7_pad (data : Buffer) : Buffer :=
  let n := (16 - length data mod 16)%nat in
  data ++ repeat (byte_of_nat n) n.

(** The check of the last block at [final()]: the last byte [n] is between 1
    and 16 and the last [n] bytes all equal it. *)
Definition pkcs7_unpad (data : Buffer) : option Buffer :=
  let p := List.last data Byte.x00 in
  let n := Byte.to_nat p in
  if (n =? 0)%nat || (16 <? n)%nat then None
  else if forallb (Byte.eqb p) (skipn (length data - n) data)
       then Some (firstn (length data - n) data)
       else None.

(** *** CBC mode over AES-256 *)

(** [n] blocks of [data], chained from [prev]. *)
Fixpoint cbc_encrypt (n : nat) (key prev data : Buffer) : Buffer :=
  match n with
  | O => []
  | S n' =>
      let c := AES.encrypt_block key (xor_bytes (firstn 16 data) prev) in
      c ++ cbc_encrypt n' key c (skipn 16 data)
  end.

Fixpoint cbc_decrypt (n : nat) (key prev data : Buffer) : Buffer :=
  match n with
  | O => []
  | S n' =>
      let c := firstn 16 data in
      xor_bytes (AES.decrypt_block key c) prev ++ cbc_decrypt n' key c (skipn 16 data)
  end.

(** *** Cipher objects *)

(** What [createCipheriv('aes-256-cbc', key, iv)] and
    [createDecipheriv('aes-256-cbc', key, iv)] return. *)
Record Cipher : Type := mkCipher { cipher_key : Buffer; cipher_iv : Buffer }.

(** Both constructors check the type of the key, the length of the IV, then
    the length of the key.  A key is [None] when JavaScript passes [null]. *)
Definition createCipheriv (key : option Buffer) (iv : Buffer) : CryptoError + Cipher :=
  match key with
  | None => inl InvalidKeyType
  | Some key =>
      if negb (length iv =? 16)%nat then inl InvalidIV
      else if negb (length key =? 32)%nat then inl InvalidKeyLength
      else inr (mkCipher key iv)
  end.

Definition createDecipheriv (key : option Buffer) (iv : Buffer) : CryptoError + Cipher :=
  createCipheriv key iv.

(** [Buffer.concat([cipher.update(data), cipher.final()])] *)
Definition cipher_update_final (c : Cipher) (data : Buffer) : Buffer :=
  let padded := pkcs7_pad data in
  cbc_encrypt (length padded / 16) (cipher_key c) (cipher_iv c) padded.

(** [Buffer.concat([decipher.update(data), decipher.final()])]: [final()]
    throws when the data is not a positive number of whole blocks, and when
    the padding of the last block is wrong. *)
Definition decipher_update_final (c : Cipher) (data : Buffer) : CryptoError + Buffer :=
  if (length data =? 0)%nat || negb (length data mod 16 =? 0)%nat
  then inl WrongFinalBlockLength
  else match pkcs7_unpad (cbc_decrypt (length data / 16) (cipher_key c) (cipher_iv c) data) with
       | Some plain => inr plain
       | None => inl BadDecrypt
       end.

(** [crypto.pbkdf2Sync(password, salt, iterations, keylen, 'sha256')], the
    password being a string, of which the UTF-8 encoding is taken. *)
Definition pbkdf2Sync (password : string) (salt : Buffer) (iterations : N) (keylen : nat) : Buffer :=
  KDF.pbkdf2_hmac_sha256 (Utf8.encode password) salt iterations keylen.

End Crypto.

(** ** [src/utils/index.ts]: the retry executor *)

Module Utils.
Local Open Scope Z_scope.

Section Retry.
Context {W T E : Type}.

(** The wrapped operation [fn : () => Promise<T>]: run in a world [W], it
    settles with a value or an error and leaves a new world. *)
Definition Operation : Type := W -> (E + T) * W.

(** What an observer of [retryWithBackoff] sees, in order: a call of [fn], a
    [console.warn] (attempt number, error, seconds announced), a timer of
    [ms] milliseconds awaited. *)
Inductive Event : Type :=
| Invoke
| Warn (attemptNumber : Z) (error : E) (seconds : Z)
| Wait (ms : Z).

(** How the returned promise settles; [Rejected None] is [reject(null)]. *)
Inductive Settled : Type :=
| Resolved (result : T)
| Rejected (lastError : option E).

Record Run : Type := mkRun { world : W; events : list Event }.

(** The [for] loop, entered with the current [attempt], [lastError] and run.
    [maxRetries] ranges over the integers, as the count that its name and
    its default of 3 say; a bound with a fractional part, which the loop of
    the source would compare with [attempt] all the same, is left out. *)
Equations? retry_loop (fn : Operation) (maxRetries attempt : Z)
    (lastError : option E) (r : Run) : Settled * Run
    by wf (Z.to_nat (maxRetries - attempt)) Nat.lt :=
  retry_loop fn maxRetries attempt lastError r with Z_lt_dec attempt maxRetries := {
    | right _ => (Rejected lastError, r)
    | left _ with fn (world r) := {
        | (inr result, w) => (Resolved result, mkRun w (events r ++ [Invoke]))
        | (inl error, w) with Z.eq_dec attempt (maxRetries - 1) := {
            | left _ => (Rejected (Some error), mkRun w (events r ++ [Invoke]))
            | right _ =>
                let waitTime := (2 ^ attempt * 1000)%Z in
                retry_loop fn maxRetries (attempt + 1) (Some error)
                  (mkRun w (events r ++ [Invoke;
                                         Warn (attempt + 1) error (waitTime / 1000);
                                         Wait waitTime]))
          }
      }
  }.
Proof. lia. Qed.

(** [retryWithBackoff(fn, maxRetries)], started in world [w]; [maxRetries]
    is 3 when the caller leaves it out. *)
Definition retryWithBackoff (fn : Operation) (maxRetries : Z) (w : W) : Settled * Run :=
  retry_loop fn maxRetries 0 None (mkRun w []).

(** The number of calls of [fn] in a list of events. *)
Fixpoint invocations (l : list Event) : nat :=
  match l with
  | [] => 0%nat
  | Invoke :: l' => S (invocations l')
  | _ :: l' => invocations l'
  end.

(** The timers awaited, in order. *)
Fixpoint waits (l : list Event) : list Z :=
  match l with
  | [] => []
  | Wait ms :: l' => ms :: waits l'
  | _ :: l' => waits l'
  end.

End Retry.

Arguments Event : clear implicits.
Arguments Settled : clear implicits.
Arguments Run : clear implicits.
Arguments Operation : clear implicits.

End Utils.

(** ** [src/ipfs/index.ts]: the content cipher of [IPFSClient] *)

Module Ipfs.
Import Bytes Crypto.

(** The fields of an [IPFSClient] that the cipher methods read.  The gateway
    and API addresses and the HTTP client play no part in them. *)
Record IPFSClient : Type := mkIPFSClient {
  encryptByDefault : bool;
  encryptionKey : option Buffer;
  encryptionAvailable : bool
}.

(** What the constructor reads from its surroundings: the configured
    [encryption.encrypt_by_default], the result of [getEncryptionKey()], and
    whether [crypto.getCiphers()] returns (rather than throws). *)
Record Environment : Type := mkEnvironment {
  config_encrypt_by_default : bool;
  config_encryption_key : option Buffer;
  crypto_support : bool
}.

(** [new IPFSClient(gateway, apiUrl, encryptByDefault, encryptionKey)]; a
    [null] argument is [None].  A [Buffer] is truthy whatever its length, so
    [encryptionKey || getEncryptionKey()] falls back to the configuration
    only for [null]. *)
Definition constructor (env : Environment)
    (encryptByDefault : option bool) (encryptionKey : option Buffer) : IPFSClient :=
  let byDefault :=
    match encryptByDefault with
    | Some b => b
    | None => config_encrypt_by_default env
    end in
  let key :=
    match encryptionKey with
    | Some k => Some k
    | None => config_encryption_key env
    end in
  if crypto_support env
  then mkIPFSClient byDefault key
         (match key with
          | Some k => (length k =? 32)%nat
          | None => false
          end)
  else mkIPFSClient false None false.

Definition not_available : JsError :=
  mkError "Error"
    "Encryption is not available. Check that a valid encryption key is provided.".

(** [encryptData(data)]; [data] is a [Buffer] by its type, so the
    [Buffer.isBuffer] test passes. *)
Definition encryptData (this : IPFSClient) (data : Buffer) (e : Entropy)
    : (JsError + Buffer) * Entropy :=
  if negb (encryptionAvailable this) then (inl not_available, e)
  else
    let '(iv, e) := randomBytes 16 e in
    match createCipheriv (encryptionKey this) iv with
    | inl error => (inl (js_error error), e)
    | inr cipher =>
        let encryptedData := cipher_update_final cipher data in
        (inr (iv ++ encryptedData), e)
    end.

(** The error thrown by the [catch] block of [decryptData]. *)
Definition decryption_failed (error : JsError) : JsError :=
  mkError "Error"
    ("Decryption failed: " ++ toString error ++ ". Incorrect key or corrupted data?").

(** [decryptData(encryptedData)] *)
Definition decryptData (this : IPFSClient) (encryptedData : Buffer) : JsError + Buffer :=
  if negb (encryptionAvailable this) then inl not_available
  else
    let iv := firstn 16 encryptedData in
    let data := skipn 16 encryptedData in
    let attempt :=
      match createDecipheriv (encryptionKey this) iv with
      | inl error => inl error
      | inr decipher => decipher_update_final decipher data
      end in
    match attempt with
    | inr plain => inr plain
    | inl error => inl (decryption_failed (js_error error))
    end.

End Ipfs.

(** ** [src/config/index.ts]: the seed phrase at rest *)

Module Config.
Import Bytes Crypto.

(** An entry of [config.substrate.accounts].  An absent or [null] field is
    [None]; an absent [seed_phrase_encoded] reads as [false]. *)
Record Account : Type := mkAccount {
  seed_phrase : option string;
  seed_phrase_encoded : bool;
  ss58_address : option string
}.

Definition empty_account : Account := mkAccount None false None.

(** The part of the configuration file that the seed phrase functions use.
    [accounts] holds the entries that the file has; under a name of
    [Js.prototype_members] the source reads, and writes to, the member that
    every object inherits, and not an entry of the file. *)
Record ConfigFile : Type := mkConfigFile {
  active_account : option string;
  accounts : gmap string Account
}.

(** The surroundings of a call: the environment variable
    [HIPPIUS_SUBSTRATE_ACTIVE_ACCOUNT], the configuration file, the entropy
    source, and the key derivations carried out so far (password and salt,
    oldest first). *)
Record World : Type := mkWorld {
  env_active_account : option string;
  file : ConfigFile;
  entropy : Entropy;
  derivations : list (string * Buffer)
}.

(** A computation that runs in a world and returns or throws. *)
Definition M (A : Type) : Type := World -> (JsError + A) * World.

Definition ret {A} (a : A) : M A := fun w => (inr a, w).
Definition throw {A} (e : JsError) : M A := fun w => (inl e, w).
Definition bind {A B} (m : M A) (k : A -> M B) : M B :=
  fun w => match m w with
           | (inr a, w') => k a w'
           | (inl e, w') => (inl e, w')
           end.

(** [try { body } catch (error) { handler }] *)
Definition try_catch {A} (body : M A) (handler : JsError -> M A) : M A :=
  fun w => match body w with
           | (inr a, w') => (inr a, w')
           | (inl e, w') => handler e w'
           end.

Notation "x <- m ;; k" := (bind m (fun x => k))
  (at level 100, m at next level, right associativity).
Notation "m ;;; k" := (bind m (fun _ => k))
  (at level 100, right associativity).

(** A call of the cipher API that may throw. *)
Definition lift {A} (r : CryptoError + A) : M A :=
  match r with
  | inr a => ret a
  | inl e => throw (js_error e)
  end.

(** The configuration store reads back what was last written. *)
Definition loadConfig : M ConfigFile := fun w => (inr (file w), w).

Definition saveConfig (config : ConfigFile) : M unit :=
  fun w => (inr tt, mkWorld (env_active_account w) config (entropy w) (derivations w)).

Definition randomBytes (n : nat) : M Buffer :=
  fun w =>
    let '(bytes, e) := Crypto.randomBytes n (entropy w) in
    (inr bytes, mkWorld (env_active_account w) (file w) e (derivations w)).

Definition pbkdf2Sync (password : string) (salt : Buffer) (iterations : N) (keylen : nat)
    : M Buffer :=
  fun w =>
    (inr (Crypto.pbkdf2Sync password salt iterations keylen),
     mkWorld (env_active_account w) (file w) (entropy w)
             (derivations w ++ [(password, salt)])).

(** JavaScript truthiness of a [string | null]. *)
Definition truthy (s : option string) : bool :=
  match s with
  | Some s => negb (String.eqb s "")
  | None => false
  end.

(** [getActiveAccount()]: the environment variable wins over the file. *)
Definition getActiveAccount : M (option string) :=
  fun w =>
    match env_active_account w with
    | Some v => (inr (Some v), w)
    | None => (inr (active_account (file w)), w)
    end.

(** [accountName || getActiveAccount()], then the test [!name]. *)
Definition resolve_name (accountName : option string) : M string :=
  name <- (if truthy accountName then ret accountName else getActiveAccount) ;;
  match name with
  | Some n =>
      if truthy name then ret n
      else throw (mkError "Error" "No account specified and no active account")
  | None => throw (mkError "Error" "No account specified and no active account")
  end.

(** [setSeedPhrase(seedPhrase, encode, password, accountName)] *)
Definition setSeedPhrase (seedPhrase : string) (encode : bool)
    (password accountName : option string) : M bool :=
  name <- resolve_name accountName ;;
  config <- loadConfig ;;
  let account := default empty_account (accounts config !! name) in
  account <-
    (if encode then
       match password with
       | Some pw =>
           if negb (truthy password)
           then throw (mkError "Error" "Password required for encrypting seed phrase")
           else
             salt <- randomBytes 16 ;;
             key <- pbkdf2Sync pw salt 100000 32 ;;
             iv <- randomBytes 16 ;;
             cipher <- lift (createCipheriv (Some key) iv) ;;
             let encrypted := cipher_update_final cipher (Utf8.encode seedPhrase) in
             let encryptedData := Base64.encode (salt ++ iv ++ encrypted) in
             ret (mkAccount (Some encryptedData) true (ss58_address account))
       | None => throw (mkError "Error" "Password required for encrypting seed phrase")
       end
     else ret (mkAccount (Some seedPhrase) false (ss58_address account))) ;;
  saveConfig (mkConfigFile (active_account config) (<[name := account]> (accounts config))) ;;;
  ret true.

Definition decrypt_failed : JsError :=
  mkError "Error" "Failed to decrypt seed phrase: Invalid password or corrupted data".

(** [getSeedPhrase(accountName, password)] *)
Definition getSeedPhrase (accountName password : option string) : M string :=
  name <- resolve_name accountName ;;
  config <- loadConfig ;;
  match accounts config !! name with
  | None => throw (mkError "Error" ("Account '" ++ name ++ "' not found"))
  | Some account =>
      match seed_phrase account with
      | None => throw (mkError "Error" ("No seed phrase found for account '" ++ name ++ "'"))
      | Some stored =>
          if negb (truthy (seed_phrase account))
          then throw (mkError "Error" ("No seed phrase found for account '" ++ name ++ "'"))
          else if negb (seed_phrase_encoded account) then ret stored
          else
            match password with
            | None => throw (mkError "Error" "Password required for decrypting seed phrase")
            | Some pw =>
                if negb (truthy password)
                then throw (mkError "Error" "Password required for decrypting seed phrase")
                else
                  try_catch
                    (let encryptedData := Base64.decode stored in
                     let salt := firstn 16 encryptedData in
                     let iv := firstn 16 (skipn 16 encryptedData) in
                     let encrypted := skipn 32 encryptedData in
                     key <- pbkdf2Sync pw salt 100000 32 ;;
                     decipher <- lift (createDecipheriv (Some key) iv) ;;
                     decrypted <- lift (decipher_update_final decipher encrypted) ;;
                     ret (Utf8.decode decrypted))
                    (fun _ => throw decrypt_failed)
            end
      end
  end.

End Config.

(** ** Sample data *)

Module Samples.
Import Bytes.

(** The key of FIPS 197, appendix C.3. *)
Definition key : Buffer :=
  bytes_of_hex "000102030405060708090a0b0c0d0e0f101112131415161718191a1b1c1d1e1f".

Definition iv : Buffer := bytes_of_hex "0f0e0d0c0b0a09080706050403020100".

Definition short_key : Buffer := bytes_of_hex "000102".

Definition plaintext : Buffer :=
  list_byte_of_string "The quick brown fox jumps over the lazy dog".

(** An entropy source that counts: byte [n] of the tape is [n mod 256]. *)
Definition entropy : Crypto.Entropy := Crypto.mkEntropy byte_of_nat 0.

(** A runtime with cipher support and nothing configured. *)
Definition environment : Ipfs.Environment := Ipfs.mkEnvironment false None true.

Definition client : Ipfs.IPFSClient := Ipfs.constructor environment None (Some key).

(** 5 bytes: not even an IV. *)
Definition headless_envelope : Buffer := repeat Byte.x00 5.

(** 17 bytes: an IV and one byte more. *)
Definition truncated_envelope : Buffer := repeat Byte.x00 17.

(** 32 bytes: an IV and one block that does not decrypt to a valid padding. *)
Definition corrupted_envelope : Buffer := repeat Byte.x00 32.

(** A fresh configuration. *)
Definition world : Config.World :=
  Config.mkWorld None (Config.mkConfigFile None ∅) entropy [].

Definition seed : string :=
  "legal winner thank year wave sausage worth useful legal winner thank yellow".

(** The string of one code unit, U+D800: a surrogate with no partner
    (['\ud800'] in the source's language). *)
Definition lone_surrogate : string := string_of_list_byte [Byte.xed; Byte.xa0; Byte.x80].

(** A configuration whose account [alice] holds an encoded value of three
    bytes. *)
Definition short_account : Config.Account := Config.mkAccount (Some "AAAA") true None.

Definition short_world : Config.World :=
  Config.mkWorld None (Config.mkConfigFile None {[ "alice" := short_account ]}) entropy [].

(** Operations on a world that counts the calls: one that always fails with
    the number of the call, one that fails twice and then succeeds. *)
Definition always_fails : Utils.Operation nat string nat :=
  fun n => (inl n, S n).

Definition fails_twice : Utils.Operation nat string nat :=
  fun n => if (n <? 2)%nat then (inl n, S n) else (inr "success", S n).

End Samples.

(** ** Words for what the retry executor is observed to do *)

Module Schedule.
Local Open Scope Z_scope.

(** The first [k] timers of the exponential schedule, in milliseconds:
    1000, 2000, 4000, ... *)
Definition backoff (k : nat) : list Z :=
  map (fun i => 2 ^ Z.of_nat i * 1000) (seq 0 k).

(** The world left by [k] successive calls of [fn], started in [w]. *)
Definition world_after {W T E : Type} (fn : Utils.Operation W T E) (k : nat) (w : W) : W :=
  Nat.iter k (fun w => snd (fn w)) w.






End Schedule.

(** ** [src/config/index.ts]: the active account and the account addresses *)

Module Accounts.
Import Crypto Config.

(** The error of a call that names no account when none is active. *)
Definition no_account : JsError :=
  mkError "Error" "No account specified and no active account".

(** [setActiveAccount(accountName)], that is
    [setConfigValue('substrate', 'active_account', accountName)]: the file
    is loaded, the one value is set, the file is saved. *)
Definition setActiveAccount (accountName : string) : M unit :=
  config <- loadConfig ;;
  saveConfig (mkConfigFile (Some accountName) (accounts config)).

(** [getAccountAddress(accountName)]; [null] is [None]. *)
Definition getAccountAddress (accountName : option string) : M (option string) :=
  name <- (if truthy accountName then ret accountName else getActiveAccount) ;;
  match name with
  | None => ret None
  | Some n =>
      if negb (truthy name) then ret None
      else
        config <- loadConfig ;;
        match accounts config !! n with
        | Some account =>
            ret (if truthy (ss58_address account) then ss58_address account else None)
        | None => ret None
        end
  end.

End Accounts.
(** ** [src/config/index.ts]: configuration values and the encryption key *)

Module Settings.

(** A value of the configuration file, as far as the file's own shape has
    them in the places read here: [null], a boolean, a number (an integer
    here) or a string. *)
Inductive Value : Type :=
| VNull
| VBool (b : bool)
| VNumber (n : Z)
| VString (s : string).

(** JavaScript truthiness. *)
Definition truthy (v : Value) : bool :=
  match v with
  | VNull => false
  | VBool b => b
  | VNumber n => negb (n =? 0)%Z
  | VString s => negb (String.eqb s "")
  end.

(** What [getConfigValue] reads: the environment variables ([process.env],
    whose values are strings) and the object that [loadConfig()] returns,
    sections of keys.  [config] holds the sections and keys that the file
    has; under a name of [Js.prototype_members] the source reads, and
    writes to, the member that every object inherits. *)
Record Settings : Type := mkSettings {
  env : gmap string string;
  config : gmap string (gmap string Value)
}.

(** [toUpperCase()] on ASCII text ([Js.ascii_only]): the letters a to z
    change, nothing else does.  The names passed by the source are made of
    these letters and the underscore; other letters are left out. *)
Definition upper (c : ascii) : ascii :=
  let n := nat_of_ascii c in
  if (97 <=? n)%nat && (n <=? 122)%nat then ascii_of_nat (n - 32) else c.

Fixpoint toUpperCase (s : string) : string :=
  match s with
  | EmptyString => EmptyString
  | String c s' => String (upper c) (toUpperCase s')
  end.

(** [getConfigValue(section, key, defaultValue)] *)
Definition getConfigValue (s : Settings) (section key : string) (defaultValue : Value)
    : Value :=
  let envKey := ("HIPPIUS_" ++ toUpperCase section ++ "_" ++ toUpperCase key)%string in
  match env s !! envKey with
  | Some v => VString v
  | None =>
      match config s !! section with
      | Some sec =>
          match sec !! key with
          | Some v => v
          | None => defaultValue
          end
      | None => defaultValue
      end
  end.


(** [getEncryptionKey()].  [Buffer.from(text, 'base64')] decodes any string
    and throws a [TypeError], caught here, for a number or a boolean. *)
Definition getEncryptionKey (s : Settings) : option Buffer :=
  let fromFile :=
    let configKey := getConfigValue s "encryption" "encryption_key" VNull in
    if truthy configKey then
      match configKey with
      | VString k => Some (Base64.decode k)
      | _ => None
      end
    else None in
  match env s !! "HIPPIUS_ENCRYPTION_KEY" with
  | Some envKey =>
      if negb (String.eqb envKey "") then Some (Base64.decode envKey) else fromFile
  | None => fromFile
  end.

(** What the constructor of [IPFSClient] reads of the settings. *)
Definition environment (s : Settings) (crypto_support : bool) : Ipfs.Environment :=
  Ipfs.mkEnvironment
    (truthy (getConfigValue s "encryption" "encrypt_by_default" (VBool false)))
    (getEncryptionKey s)
    crypto_support.

(** [IPFSClient.generateEncryptionKey()] *)
Definition generateEncryptionKey (e : Crypto.Entropy) : string * Crypto.Entropy :=
  let '(key, e) := Crypto.randomBytes 32 e in
  (Base64.encode key, e).

End Settings.
(** ** [src/utils/index.ts]: formatting of sizes and content identifiers *)

Module Format.
Local Open Scope N_scope.

(** *** Numbers as text *)

Definition digit (d : N) : ascii := ascii_of_N (48 + d).

(** The decimal digits of [n], most significant first; [fuel] bounds their
    number. *)
Fixpoint digits (fuel : nat) (n : N) : list ascii :=
  match fuel with
  | O => []
  | S fuel' =>
      if n <? 10 then [digit n]
      else digits fuel' (n / 10) ++ [digit (n mod 10)]
  end.

(** [String(n)] for a natural number [n] (below [10^21], from where
    JavaScript changes to the exponent form). *)
Definition decimal (n : N) : string :=
  string_of_list_ascii (digits (S (N.to_nat (N.log2 n))) n).

(** [(num / den).toFixed(2)], for [den] a power of two and [num] a whole
    number below [2^53]: the quotient, which is then exact in floating
    point and below [10^21], rounded to the nearest hundredth, a tie going
    up, and printed with two decimals.  (From [10^21] on, [toFixed] prints
    the exponent form, which is left out.) *)
Definition toFixed2 (num den : N) : string :=
  let n := (200 * num + den) / (2 * den) in
  (decimal (n / 100) ++ "." ++
   String (digit (n mod 100 / 10)) (String (digit (n mod 10)) ""))%string.

(** *** [formatSize] *)

(** [formatSize(sizeBytes)], for a size in bytes: a whole number below
    [2^53]. *)
Definition formatSize (sizeBytes : N) : string :=
  if sizeBytes <? 1024 then (decimal sizeBytes ++ " B")%string
  else if sizeBytes <? 1024 * 1024 then (toFixed2 sizeBytes 1024 ++ " KB")%string
  else if sizeBytes <? 1024 * 1024 * 1024
       then (toFixed2 sizeBytes (1024 * 1024) ++ " MB")%string
       else (toFixed2 sizeBytes (1024 * 1024 * 1024) ++ " GB")%string.

(** *** [formatCid] *)

(** [hexToIpfsCid(hexString)]: a placeholder in the source. *)
Definition hexToIpfsCid (hexString : string) : string := hexString.

Definition is_hex_digit (c : ascii) : bool :=
  let n := N_of_ascii c in
  ((48 <=? n) && (n <=? 57)) || ((97 <=? n) && (n <=? 102)) || ((65 <=? n) && (n <=? 70)).

(** [/^[0-9a-fA-F]+$/.test(s)] *)
Definition is_hex (s : string) : bool :=
  negb (String.eqb s "") && forallb is_hex_digit (list_ascii_of_string s).

(** [formatCid(cid)] *)
Definition formatCid (cid : string) : string :=
  if String.eqb cid "" then ""%string
  else if String.prefix "Qm" cid || String.prefix "bafy" cid then cid
  else if is_hex cid then hexToIpfsCid cid
  else cid.

(** *** Hexadecimal text *)

Definition hex_char (d : N) : ascii :=
  if d <? 10 then ascii_of_N (48 + d) else ascii_of_N (87 + d).

(** [buf.toString('hex')] *)
Fixpoint hex (l : Buffer) : string :=
  match l with
  | [] => ""%string
  | b :: l' =>
      String (hex_char (Byte.to_N b / 16)) (String (hex_char (Byte.to_N b mod 16)) (hex l'))
  end.

(** *** Reading numbers back *)

Definition digit_value (c : ascii) : option N :=
  let n := N_of_ascii c in
  if (48 <=? n) && (n <=? 57) then Some (n - 48) else None.

Fixpoint read_digits (acc : N) (l : list ascii) : option N :=
  match l with
  | [] => Some acc
  | c :: l' =>
      match digit_value c with
      | Some d => read_digits (10 * acc + d) l'
      | None => None
      end
  end.

(** The number that a non-empty text of decimal digits denotes. *)
Definition read_decimal (s : string) : option N :=
  match list_ascii_of_string s with
  | [] => None
  | l => read_digits 0 l
  end.

(** The integer part of a text up to its first point, and the rest. *)
Fixpoint split_point (s : string) : string * option string :=
  match s with
  | EmptyString => (EmptyString, None)
  | String c s' =>
      if Ascii.eqb c "."%char then (EmptyString, Some s')
      else let '(a, b) := split_point s' in (String c a, b)
  end.

(** The number of hundredths that a text [a.bc] denotes, [a] being decimal
    digits and [b], [c] two digits. *)
Definition read_hundredths (s : string) : option N :=
  match split_point s with
  | (a, Some (String b (String c EmptyString))) =>
      match read_decimal a, digit_value b, digit_value c with
      | Some x, Some y, Some z => Some (100 * x + 10 * y + z)
      | _, _, _ => None
      end
  | _ => None
  end.

End Format.
(** ** The HTTP interface: [fetch] *)

Module Http.
Import Crypto.

(** What [fetch] is asked: the method, the address and, for an upload, the
    [file] field of the form: its file name and its content. *)
Record Request : Type := mkRequest {
  method : string;
  url : string;
  body : option (string * Buffer)
}.

(** The fields that the SDK reads of a parsed JSON reply; a field is [None]
    when the reply has none of that name, as when the reply is a JSON value
    other than an object.  [Hash] and [cid] are strings and [Pins] a list
    of strings, as the IPFS API has them. *)
Record Reply : Type := mkReply {
  reply_Hash : option string;
  reply_cid : option string;
  reply_Pins : option (list string)
}.

(** [await response.json()]: it rejects when the body is not JSON, and a
    body that is the JSON text null parses to [null]. *)
Inductive Parsed : Type :=
| NotJson (e : JsError)
| JsonNull
| JsonObject (reply : Reply).

Record Response : Type := mkResponse {
  ok : bool;
  status : Z;
  statusText : string;
  arrayBuffer : JsError + Buffer;
  json : Parsed
}.

(** [fetch] rejects (no connection, no such host) or resolves with a
    response, whatever its status. *)
Inductive Outcome : Type :=
| Failed (e : JsError)
| Responded (response : Response).

(** The network: what the servers answer to a request, given every request
    sent so far (the last one is the one to answer), and the requests sent. *)
Record Network : Type := mkNetwork {
  server : list Request -> Outcome;
  sent : list Request
}.

Definition fetch (request : Request) (n : Network) : Outcome * Network :=
  let log := sent n ++ [request] in
  (server n log, mkNetwork (server n) log).

End Http.

(** ** The file system, as the SDK uses it *)

Module Fs.
Import Crypto.

(** A path names a file with its content or a directory, whose size is
    what [stat] reports for it. *)
Inductive Node : Type :=
| File (content : Buffer)
| Directory (size : N).

Abbreviation FileSystem := (gmap string Node).

Definition existsSync (path : string) (fs : FileSystem) : bool :=
  match fs !! path with
  | Some _ => true
  | None => false
  end.

(** [fs.statSync(path).size] of a path that exists. *)
Definition size (node : Node) : N :=
  match node with
  | File content => N.of_nat (length content)
  | Directory size => size
  end.

Definition enoent (syscall path : string) : JsError :=
  mkError "Error" ("ENOENT: no such file or directory, " ++ syscall ++ " '" ++ path ++ "'").

Definition eisdir (what : string) : JsError :=
  mkError "Error" ("EISDIR: illegal operation on a directory, " ++ what).

Definition statSync (path : string) (fs : FileSystem) : JsError + N :=
  match fs !! path with
  | Some node => inr (size node)
  | None => inl (enoent "stat" path)
  end.

Definition readFileSync (path : string) (fs : FileSystem) : JsError + Buffer :=
  match fs !! path with
  | Some (File content) => inr content
  | Some (Directory _) => inl (eisdir "read")
  | None => inl (enoent "open" path)
  end.

(** [fs.writeFileSync(path, data)], the directory of [path] existing. *)
Definition writeFileSync (path : string) (data : Buffer) (fs : FileSystem)
    : JsError + FileSystem :=
  match fs !! path with
  | Some (Directory _) => inl (eisdir ("open '" ++ path ++ "'"))
  | _ => inr (<[path := File data]> fs)
  end.

Definition unlinkSync (path : string) (fs : FileSystem) : JsError + FileSystem :=
  match fs !! path with
  | Some (File _) => inr (delete path fs)
  | Some (Directory _) => inl (eisdir ("unlink '" ++ path ++ "'"))
  | None => inl (enoent "unlink" path)
  end.

(** [path.basename(path)] (POSIX): the slashes at the end are dropped and
    what follows the last slash before them is returned. *)
Fixpoint drop_slashes (l : list ascii) : list ascii :=
  match l with
  | c :: l' => if Ascii.eqb c "/"%char then drop_slashes l' else l
  | [] => []
  end.

Fixpoint up_to_slash (l : list ascii) : list ascii :=
  match l with
  | c :: l' => if Ascii.eqb c "/"%char then [] else c :: up_to_slash l'
  | [] => []
  end.

Definition basename (path : string) : string :=
  string_of_list_ascii
    (rev (up_to_slash (drop_slashes (rev (list_ascii_of_string path))))).

(** [path.join(dir, name)] for a normalised [dir] and a plain file name. *)
Definition join (dir name : string) : string :=
  match rev (list_ascii_of_string dir) with
  | c :: _ => if Ascii.eqb c "/"%char then (dir ++ name)%string
              else (dir ++ "/" ++ name)%string
  | [] => name
  end.

End Fs.

(** ** The surroundings of the IPFS clients *)

Module Node.
Import Crypto.

(** What a JavaScript [throw] or a rejected promise carries here: an error
    object, or [null]. *)
Inductive Thrown : Type :=
| ThrownNull
| ThrownError (e : JsError).

(** [String(error)], as a template literal renders what was caught. *)
Definition text (t : Thrown) : string :=
  match t with
  | ThrownNull => "null"
  | ThrownError e => toString e
  end.

(** The network, the file system, the entropy source, the directory for
    temporary files ([os.tmpdir()]), and what the retry executor has been
    observed to do. *)
Record World : Type := mkWorld {
  net : Http.Network;
  files : Fs.FileSystem;
  entropy : Entropy;
  tmpdir : string;
  observed : list (Utils.Event Thrown)
}.

(** An asynchronous computation: it settles with a value or with what was
    thrown, and leaves a world. *)
Definition M (A : Type) : Type := World -> (Thrown + A) * World.

Definition ret {A} (a : A) : M A := fun w => (inr a, w).
Definition throw {A} (e : JsError) : M A := fun w => (inl (ThrownError e), w).
Definition rethrow {A} (t : Thrown) : M A := fun w => (inl t, w).
Definition bind {A B} (m : M A) (k : A -> M B) : M B :=
  fun w => match m w with
           | (inr a, w') => k a w'
           | (inl e, w') => (inl e, w')
           end.

(** [try { body } catch (error) { handler }] *)
Definition try_catch {A} (body : M A) (handler : Thrown -> M A) : M A :=
  fun w => match body w with
           | (inr a, w') => (inr a, w')
           | (inl e, w') => handler e w'
           end.

Notation "x <- m ;; k" := (bind m (fun x => k))
  (at level 100, m at next level, right associativity).

(** The result of a synchronous call that may throw. *)
Definition lift {A} (r : JsError + A) : M A :=
  match r with
  | inr a => ret a
  | inl e => throw e
  end.

Definition fetch (request : Http.Request) : M Http.Response :=
  fun w =>
    let '(outcome, n) := Http.fetch request (net w) in
    let w' := mkWorld n (files w) (entropy w) (tmpdir w) (observed w) in
    match outcome with
    | Http.Failed e => (inl (ThrownError e), w')
    | Http.Responded response => (inr response, w')
    end.

Definition readFileSync (path : string) : M Buffer :=
  fun w => lift (Fs.readFileSync path (files w)) w.

Definition set_files (fs : Fs.FileSystem) (w : World) : World :=
  mkWorld (net w) fs (entropy w) (tmpdir w) (observed w).

Definition writeFileSync (path : string) (data : Buffer) : M unit :=
  fun w =>
    match Fs.writeFileSync path data (files w) with
    | inr fs => (inr tt, set_files fs w)
    | inl e => (inl (ThrownError e), w)
    end.

Definition unlinkSync (path : string) : M unit :=
  fun w =>
    match Fs.unlinkSync path (files w) with
    | inr fs => (inr tt, set_files fs w)
    | inl e => (inl (ThrownError e), w)
    end.

Definition randomBytes (n : nat) : M Buffer :=
  fun w =>
    let '(bytes, e) := Crypto.randomBytes n (entropy w) in
    (inr bytes, mkWorld (net w) (files w) e (tmpdir w) (observed w)).

End Node.

(** ** [src/ipfs/ipfs-core.ts]: [IPFSCore] *)

Module Core.
Import Crypto Http Node.

Record IPFSCore : Type := mkIPFSCore { apiUrl : string; gateway : string }.

(** [s.replace(/\/$/, '')]: one slash at the end, if there is one, is
    removed. *)
Fixpoint strip_slash (s : string) : string :=
  match s with
  | EmptyString => EmptyString
  | String c EmptyString => if Ascii.eqb c "/"%char then EmptyString else s
  | String c s' => String c (strip_slash s')
  end.

(** [new IPFSCore(apiUrl, gateway)] *)
Definition constructor (apiUrl gateway : string) : IPFSCore :=
  mkIPFSCore apiUrl (strip_slash gateway).

(** The identifier returned when an upload fails. *)
Definition fallback : string := "QmWgnG7pPjG31w668tTLmtvPNEWyrj5ajkLbXQZRJzwRQm".

(** [a || b] for a field [a] that is a string or is missing. *)
Definition or_else {A} (truthy : A -> bool) (a : option A) (b : A) : A :=
  match a with
  | Some x => if truthy x then x else b
  | None => b
  end.

Definition nonempty (s : string) : bool := negb (String.eqb s "").

(** [await response.json()], then the reading of the field [field] of the
    result, which throws for [null]. *)
Definition json (response : Response) (field : string) : M Reply :=
  match Http.json response with
  | NotJson e => throw e
  | JsonNull =>
      throw (mkError "TypeError"
               ("Cannot read properties of null (reading '" ++ field ++ "')"))
  | JsonObject reply => ret reply
  end.

(** The [try] block that [addFile] and [addBytes] share once the content
    and the file name are known; [what] is the word of the error message. *)
Definition post_add (this : IPFSCore) (what : string) (content : Buffer)
    (fileName : string) : M string :=
  response <- fetch (mkRequest "POST" (apiUrl this ++ "/api/v0/add")
                       (Some (fileName, content))) ;;
  if negb (ok response)
  then throw (mkError "Error" ("Failed to add " ++ what ++ ": " ++ statusText response))
  else
    result <- json response "Hash" ;;
    ret (or_else nonempty (reply_Hash result) (or_else nonempty (reply_cid result) "")).

(** [addFile(filePath)]: the [Hash] of the object returned. *)
Definition addFile (this : IPFSCore) (filePath : string) : M string :=
  try_catch
    (fileContent <- readFileSync filePath ;;
     post_add this "file" fileContent (Fs.basename filePath))
    (fun _ => ret fallback).

(** [addBytes(data, filename)] *)
Definition addBytes (this : IPFSCore) (data : Buffer) (filename : string) : M string :=
  try_catch (post_add this "bytes" data filename) (fun _ => ret fallback).

(** [addStr(content, filename)] *)
Definition addStr (this : IPFSCore) (content filename : string) : M string :=
  addBytes this (Utf8.encode content) filename.

(** [cat(cid)]: the [catch] block logs the error and throws it again. *)
Definition cat (this : IPFSCore) (cid : string) : M Buffer :=
  try_catch
    (response <- fetch (mkRequest "GET" (gateway this ++ "/ipfs/" ++ cid) None) ;;
     if negb (ok response)
     then throw (mkError "Error" ("Failed to retrieve content: " ++ statusText response))
     else lift (arrayBuffer response))
    (fun error => rethrow error).

(** [pin(cid)]: the [Pins] of the object returned. *)
Definition pin (this : IPFSCore) (cid : string) : M (list string) :=
  try_catch
    (response <- fetch (mkRequest "POST" (apiUrl this ++ "/api/v0/pin/add?arg=" ++ cid)
                          None) ;;
     if negb (ok response)
     then throw (mkError "Error" ("Failed to pin: " ++ statusText response))
     else
       result <- json response "Pins" ;;
       ret (or_else (fun _ => true) (reply_Pins result) [cid]))
    (fun _ => ret [cid]).

(** [exists(cid)] *)
Definition exists_ (this : IPFSCore) (cid : string) : M bool :=
  try_catch
    (response <- fetch (mkRequest "HEAD" (gateway this ++ "/ipfs/" ++ cid) None) ;;
     ret (ok response))
    (fun _ => ret false).

(** [ls(cid)] *)
Definition ls (this : IPFSCore) (cid : string) : M bool :=
  try_catch (exists_ this cid) (fun _ => ret false).

End Core.
(** ** [src/ipfs/index.ts]: the network methods of [IPFSClient] *)

Module Client.
Import Crypto Http Node Settings.

(** An [IPFSClient]: the fields of the cipher methods, the two addresses
    and the [IPFSCore] it calls. *)
Record IPFSClient : Type := mkIPFSClient {
  cipher : Ipfs.IPFSClient;
  gateway : string;
  apiUrl : string;
  client : Core.IPFSCore
}.

(** [argument || configured] *)
Definition address (argument : option string) (configured : Value) : Value :=
  match argument with
  | Some a => if Core.nonempty a then VString a else configured
  | None => configured
  end.

(** [v.replace(/\/$/, '')] for what an address turned out to be: a string
    has the method, the other values throw a [TypeError]. *)
Definition replace_slash (v : Value) (field : string) : JsError + string :=
  match v with
  | VString s => inr (Core.strip_slash s)
  | VNull => inl (mkError "TypeError" "Cannot read properties of null (reading 'replace')")
  | _ => inl (mkError "TypeError" (field ++ ".replace is not a function"))
  end.

(** [new IPFSClient(gateway, apiUrl, encryptByDefault, encryptionKey)] *)
Definition constructor (s : Settings) (crypto_support : bool)
    (gateway apiUrl : option string) (encryptByDefault : option bool)
    (encryptionKey : option Buffer) : JsError + IPFSClient :=
  let gateway :=
    address gateway (getConfigValue s "ipfs" "gateway" (VString "https://get.hippius.network")) in
  let apiUrl :=
    address apiUrl (getConfigValue s "ipfs" "api_url" (VString "https://store.hippius.network")) in
  let apiUrl :=
    if truthy (getConfigValue s "ipfs" "local_ipfs" (VBool false))
    then VString "http://localhost:5001" else apiUrl in
  match replace_slash gateway "this.gateway" with
  | inl e => inl e
  | inr gateway =>
      match replace_slash apiUrl "this.apiUrl" with
      | inl e => inl e
      | inr apiUrl =>
          inr (mkIPFSClient
                 (Ipfs.constructor (environment s crypto_support) encryptByDefault encryptionKey)
                 gateway apiUrl (Core.constructor apiUrl gateway))
      end
  end.

(** [choice !== null ? choice : this.encryptByDefault], as the source uses
    it: for its truthiness.  The fields [encrypted] and [decrypted] of the
    results carry the value itself; they are this boolean when the value
    is the argument [choice] or the argument [encryptByDefault] of the
    constructor, which are booleans, and stand for its truthiness when it
    is a value read from the configuration, a string of the environment
    for one. *)
Definition should (this : IPFSClient) (choice : option bool) : bool :=
  match choice with
  | Some b => b
  | None => Ipfs.encryptByDefault (cipher this)
  end.

(** *** [cat] *)

Record CatResult : Type := mkCatResult {
  content : Buffer;
  cat_size_bytes : N;
  cat_size_formatted : string;
  decrypted : bool;
  preview : option Buffer;
  is_text : option bool;
  text_preview : option string;
  hex_preview : option string
}.

(** [buf.slice(0, end)] for an integer [end]: a negative one counts from
    the end of the buffer. *)
Definition slice0 (data : Buffer) (end_ : Z) : Buffer :=
  if (end_ <? 0)%Z then firstn (Z.to_nat (Z.of_nat (length data) + end_)) data
  else firstn (Z.to_nat end_) data.

(** A byte that [/^[\x20-\x7E\t\n\r]*$/] lets pass.  Decoding as UTF-8
    maps the bytes below 128 to themselves and gives characters from 128
    upwards for all others, so that the test of the decoded preview is this
    test of every byte. *)
Definition printable (b : byte) : bool :=
  let n := Byte.to_N b in
  ((32 <=? n) && (n <=? 126) || (n =? 9) || (n =? 10) || (n =? 13))%N.

Definition not_available_for (what : string) : JsError :=
  mkError "Error"
    (what ++ " requested but not available. Check that a valid encryption key is provided.").

(** [cat(cid, maxDisplayBytes, formatOutput, decrypt)] *)
Definition cat (this : IPFSClient) (cid : string) (maxDisplayBytes : Z)
    (formatOutput : bool) (decrypt : option bool) : M CatResult :=
  let shouldDecrypt := should this decrypt in
  if shouldDecrypt && negb (Ipfs.encryptionAvailable (cipher this))
  then throw (not_available_for "Decryption")
  else
    content <- Core.cat (client this) cid ;;
    processedContent <-
      (if shouldDecrypt then
         match Ipfs.decryptData (cipher this) content with
         | inr plain => ret plain
         | inl error =>
             throw (mkError "Error" ("Failed to decrypt file: " ++ toString error))
         end
       else ret content) ;;
    let sizeBytes := N.of_nat (length processedContent) in
    let preview := slice0 processedContent maxDisplayBytes in
    let text := forallb printable preview in
    ret (mkCatResult processedContent sizeBytes (Format.formatSize sizeBytes) shouldDecrypt
           (if formatOutput then Some preview else None)
           (if formatOutput then Some text else None)
           (if formatOutput && text then Some (string_of_list_byte preview) else None)
           (if formatOutput && negb text then Some (Format.hex preview) else None)).

(** *** [exists] *)

Record ExistsResult : Type := mkExistsResult {
  exists_exists : bool;
  exists_cid : string;
  exists_formatted_cid : string;
  gateway_url : option string
}.

(** [exists(cid)] *)
Definition exists_ (this : IPFSClient) (cid : string) : M ExistsResult :=
  let formattedCid := Format.formatCid cid in
  let gatewayUrl := (gateway this ++ "/ipfs/" ++ cid)%string in
  found <- Core.exists_ (client this) cid ;;
  ret (mkExistsResult found cid formattedCid (if found then Some gatewayUrl else None)).

(** *** [pin] and [publishGlobal] *)

Record PinResult : Type := mkPinResult {
  success : bool;
  pin_cid : string;
  pin_formatted_cid : string;
  pin_message : string
}.

(** [pin(cid)] *)
Definition pin (this : IPFSClient) (cid : string) : M PinResult :=
  let formattedCid := Format.formatCid cid in
  try_catch
    (_ <- Core.pin (client this) cid ;;
     ret (mkPinResult true cid formattedCid "Successfully pinned"))
    (fun error =>
       ret (mkPinResult false cid formattedCid ("Failed to pin: " ++ text error))).

Record PublishResult : Type := mkPublishResult {
  published : bool;
  publish_cid : string;
  publish_formatted_cid : string;
  publish_message : string
}.

(** [publishGlobal(cid)] *)
Definition publishGlobal (this : IPFSClient) (cid : string) : M PublishResult :=
  pinResult <- pin this cid ;;
  if negb (success pinResult)
  then ret (mkPublishResult false cid (Format.formatCid cid)
              ("Failed to pin content locally: " ++ pin_message pinResult))
  else ret (mkPublishResult true cid (Format.formatCid cid)
              "Content published to global IPFS network").

(** *** [uploadFile] *)

Record UploadResult : Type := mkUploadResult {
  upload_cid : string;
  filename : string;
  size_bytes : N;
  encrypted : bool;
  size_formatted : option string
}.

(** What [retryWithBackoff] is observed to do is added to the world that
    its last call left. *)
Definition observe (run : Utils.Run World Thrown) : World :=
  let w := Utils.world run in
  mkWorld (net w) (files w) (entropy w) (tmpdir w) (observed w ++ Utils.events run).

(** [await retryWithBackoff(fn, maxRetries)] *)
Definition retryWithBackoff {A} (fn : M A) (maxRetries : Z) : M A :=
  fun w =>
    match Utils.retryWithBackoff fn maxRetries w with
    | (Utils.Resolved result, run) => (inr result, observe run)
    | (Utils.Rejected (Some error), run) => (inl error, observe run)
    | (Utils.Rejected None, run) => (inl ThrownNull, observe run)
    end.

(** [this.encryptData(data)] in a world. *)
Definition encryptData (this : IPFSClient) (data : Buffer) : M Buffer :=
  fun w =>
    let '(result, e) := Ipfs.encryptData (cipher this) data (entropy w) in
    let w' := mkWorld (net w) (files w) e (tmpdir w) (observed w) in
    match result with
    | inr envelope => (inr envelope, w')
    | inl error => (inl (ThrownError error), w')
    end.

(** The first part of the [try] block of [uploadFile]: the path to upload
    and [tempFilePath] as it stands when the part ends, whether it returns
    or throws. *)
Definition prepare (this : IPFSClient) (filePath : string) (shouldEncrypt : bool)
    : World -> (Thrown + string) * option string * World :=
  fun w =>
    if shouldEncrypt then
      match readFileSync filePath w with
      | (inl t, w) => (inl t, None, w)
      | (inr fileData, w) =>
          match encryptData this fileData w with
          | (inl t, w) => (inl t, None, w)
          | (inr encryptedData, w) =>
              match randomBytes 8 w with
              | (inl t, w) => (inl t, None, w)
              | (inr name, w) =>
                  let tempFilePath :=
                    Fs.join (tmpdir w) ("encrypted_" ++ Format.hex name) in
                  match writeFileSync tempFilePath encryptedData w with
                  | (inl t, w) => (inl t, Some tempFilePath, w)
                  | (inr _, w) => (inr tempFilePath, Some tempFilePath, w)
                  end
              end
          end
      end
    else (inr filePath, None, w).

(** The [finally] block: an error thrown here takes the place of the
    outcome of the [try] block. *)
Definition cleanup {A} (tempFilePath : option string) (outcome : Thrown + A)
    : World -> (Thrown + A) * World :=
  fun w =>
    match tempFilePath with
    | Some path =>
        if Fs.existsSync path (files w) then
          match unlinkSync path w with
          | (inl t, w) => (inl t, w)
          | (inr _, w) => (outcome, w)
          end
        else (outcome, w)
    | None => (outcome, w)
    end.

(** [uploadFile(filePath, includeFormattedSize, encrypt, maxRetries)] *)
Definition uploadFile (this : IPFSClient) (filePath : string)
    (includeFormattedSize : bool) (encrypt : option bool) (maxRetries : Z)
    : M UploadResult :=
  fun w =>
    if negb (Fs.existsSync filePath (files w))
    then throw (mkError "Error" ("File " ++ filePath ++ " not found")) w
    else
      let shouldEncrypt := should this encrypt in
      if shouldEncrypt && negb (Ipfs.encryptionAvailable (cipher this))
      then throw (not_available_for "Encryption") w
      else
        let filename := Fs.basename filePath in
        match Fs.statSync filePath (files w) with
        | inl e => throw e w
        | inr sizeBytes =>
            let '(uploadPath, tempFilePath, w) := prepare this filePath shouldEncrypt w in
            let '(outcome, w) :=
              match uploadPath with
              | inl t => (inl t, w)
              | inr uploadPath =>
                  (hash <- retryWithBackoff (Core.addFile (client this) uploadPath)
                             maxRetries ;;
                   ret (mkUploadResult hash filename sizeBytes shouldEncrypt
                          (if includeFormattedSize
                           then Some (Format.formatSize sizeBytes) else None))) w
              end in
            cleanup tempFilePath outcome w
        end.

End Client.
(** ** Words for what the IPFS clients send and receive *)

Module Wire.
Import Crypto Http Node Core.

(** The requests of [IPFSCore]. *)
Definition add_request (this : IPFSCore) (fileName : string) (content : Buffer) : Request :=
  mkRequest "POST" (apiUrl this ++ "/api/v0/add") (Some (fileName, content)).

Definition get_request (this : IPFSCore) (cid : string) : Request :=
  mkRequest "GET" (gateway this ++ "/ipfs/" ++ cid) None.

Definition head_request (this : IPFSCore) (cid : string) : Request :=
  mkRequest "HEAD" (gateway this ++ "/ipfs/" ++ cid) None.

Definition pin_request (this : IPFSCore) (cid : string) : Request :=
  mkRequest "POST" (apiUrl this ++ "/api/v0/pin/add?arg=" ++ cid) None.

(** What the network answers to one more request. *)
Definition answer (w : World) (request : Request) : Outcome :=
  server (net w) (sent (net w) ++ [request]).

(** The world after one more request, nothing else having changed. *)
Definition sending (w : World) (request : Request) : World :=
  mkWorld (mkNetwork (server (net w)) (sent (net w) ++ [request]))
    (files w) (entropy w) (tmpdir w) (observed w).

(** The identifier that an upload returns for an answer: the [Hash] of the
    reply or else its [cid] or else the empty text, and the fixed identifier
    for every answer that is not a reply. *)
Definition uploaded (outcome : Outcome) : string :=
  match outcome with
  | Responded response =>
      if ok response then
        match Http.json response with
        | JsonObject reply =>
            or_else nonempty (reply_Hash reply) (or_else nonempty (reply_cid reply) "")
        | _ => fallback
        end
      else fallback
  | Failed _ => fallback
  end.

(** The world after [n] more bytes of entropy were drawn. *)
Definition drawing (w : World) (n : nat) : World :=
  mkWorld (net w) (files w) (snd (Crypto.randomBytes n (entropy w))) (tmpdir w) (observed w).

(** The world after the retry executor was observed to do [events]. *)
Definition observing (w : World) (events : list (Utils.Event Thrown)) : World :=
  mkWorld (net w) (files w) (entropy w) (tmpdir w) (observed w ++ events).

(** A text ends with a slash. *)
Fixpoint ends_with_slash (s : string) : bool :=
  match s with
  | EmptyString => false
  | String c EmptyString => Ascii.eqb c "/"%char
  | String _ s' => ends_with_slash s'
  end.

End Wire.
(** ** Sample surroundings of the IPFS clients *)

Module Fixtures.
Import Crypto Http Node.

(** Nothing set in the environment, nothing in the file. *)
Definition settings : Settings.Settings := Settings.mkSettings ∅ ∅.

(** A client constructed with the key of the samples and nothing else. *)
Definition client : Client.IPFSClient :=
  Client.mkIPFSClient
    (Ipfs.constructor (Settings.environment settings true) None (Some Samples.key))
    "https://get.hippius.network" "https://store.hippius.network"
    (Core.constructor "https://store.hippius.network" "https://get.hippius.network").

(** A client constructed with no key at all. *)
Definition keyless : Client.IPFSClient :=
  Client.mkIPFSClient
    (Ipfs.constructor (Settings.environment settings true) None None)
    "https://get.hippius.network" "https://store.hippius.network"
    (Core.constructor "https://store.hippius.network" "https://get.hippius.network").

(** A network with no connection, and one that serves a body to every
    request. *)
Definition offline : Network :=
  mkNetwork (fun _ => Failed (mkError "TypeError" "fetch failed")) [].

Definition serving (content : Buffer) : Network :=
  mkNetwork
    (fun _ => Responded
                (mkResponse true 200 "OK" (inr content)
                   (NotJson (mkError "SyntaxError" "Unexpected end of JSON input"))))
    [].

(** The envelope that the sample client makes of the sample plaintext. *)
Definition envelope : Buffer :=
  fst (Crypto.randomBytes 16 Samples.entropy)
  ++ cipher_update_final (mkCipher Samples.key (fst (Crypto.randomBytes 16 Samples.entropy)))
       Samples.plaintext.

(** A file system with one file and one directory. *)
Definition disk : Fs.FileSystem :=
  {[ "/home/alice/notes.txt" := Fs.File Samples.plaintext;
     "/home/alice" := Fs.Directory 4096 ]}.

Definition world (n : Network) : World := mkWorld n disk Samples.entropy "/tmp" [].

End Fixtures.
(** ** UTF-8 *)

Section Utf8Facts.
Import Utf8.

(** A character of each length, and a whole text, are kept both ways. *)
Example utf8_keeps_characters :
  let text := [Byte.x61; Byte.xc3; Byte.xa9; Byte.xe2; Byte.x82; Byte.xac;
               Byte.xf0; Byte.x9f; Byte.x98; Byte.x80] in
  encode (string_of_list_byte text) = text /\
  decode text = string_of_list_byte text /\
  well_formed (string_of_list_byte text) = true.
Proof. repeat split. Qed.

(** [Buffer.from('\ud800', 'utf-8')] is [ef bf bd]; the low half alone, and
    a lone surrogate between two letters, likewise. *)
Example utf8_encode_lone_surrogate :
  encode (string_of_list_byte [Byte.xed; Byte.xa0; Byte.x80]) = replacement /\
  encode (string_of_list_byte [Byte.xed; Byte.xb0; Byte.x80]) = replacement /\
  encode (string_of_list_byte [Byte.x61; Byte.xed; Byte.xa0; Byte.x80; Byte.x62])
  = [Byte.x61] ++ replacement ++ [Byte.x62] /\
  well_formed (string_of_list_byte [Byte.xed; Byte.xa0; Byte.x80]) = false.
Proof. repeat split. Qed.

(** [Buffer.from([...]).toString('utf-8')] on ill-formed bytes: an overlong
    form gives two replacements, a sequence cut short gives one, the bytes
    of a surrogate give three, and a sequence broken by a letter gives one
    on each side of the letter. *)
Example utf8_decode_ill_formed :
  decode [Byte.xc0; Byte.x80] = string_of_list_byte (replacement ++ replacement) /\
  decode [Byte.xe2; Byte.x82] = string_of_list_byte replacement /\
  decode [Byte.xf0; Byte.x9f; Byte.x98] = string_of_list_byte replacement /\
  decode [Byte.xed; Byte.xa0; Byte.x80]
  = string_of_list_byte (replacement ++ replacement ++ replacement) /\
  decode [Byte.xe2; Byte.x28; Byte.xa1]
  = string_of_list_byte (replacement ++ [Byte.x28] ++ replacement) /\
  decode [Byte.xff] = string_of_list_byte replacement.
Proof. repeat split. Qed.

Lemma scalars_keep (fuel : nat) (l : Buffer) :
  scalars fuel l = true -> encode_bytes fuel l = l /\ decode_bytes fuel l = l.
Proof.
  revert l. induction fuel as [|fuel IH]; intros [|b l]; cbn [scalars encode_bytes decode_bytes];
    try (intros; split; reflexivity); try discriminate.
  destruct (chunk (b :: l)) as [n| |n]; try discriminate.
  intros [He Hd]%IH. rewrite He, Hd. split; apply firstn_skipn.
Qed.

(** The bytes of a string with no lone surrogate are its encoding. *)
Lemma encode_well_formed (s : string) :
  well_formed s = true -> encode s = list_byte_of_string s.
Proof. intros H. exact (proj1 (scalars_keep _ _ H)). Qed.

(** A string with no lone surrogate is read back from its encoding. *)
Lemma decode_encode (s : string) : well_formed s = true -> decode (encode s) = s.
Proof.
  intros H. rewrite (encode_well_formed s H). unfold decode.
  rewrite (proj2 (scalars_keep _ _ H)). apply string_of_list_byte_of_string.
Qed.

Lemma encode_bytes_length (fuel : nat) (l : Buffer) :
  length l <= fuel -> length (encode_bytes fuel l) = length l.
Proof.
  revert l. induction fuel as [|fuel IH]; intros [|b l] Hl; cbn [encode_bytes];
    try reflexivity; [cbn in Hl; lia|].
  cbn [length] in Hl.
  destruct (chunk (b :: l)) as [n| |n] eqn:Hc.
  - assert (Hn : 1 <= n).
    { revert Hc. unfold chunk.
      repeat match goal with
             | |- context [if ?c then _ else _] => destruct c
             | |- context [match ?t with [] => _ | _ :: _ => _ end] => destruct t
             end; intros [= <-] || discriminate; lia. }
    rewrite length_app, IH, length_take, length_drop; cbn [length]; [lia|].
    rewrite length_drop. cbn [length]. lia.
  - assert (Hn : 3 <= length (b :: l)).
    { revert Hc. unfold chunk.
      repeat match goal with
             | |- context [if ?c then _ else _] => destruct c
             | |- context [match ?t with [] => _ | _ :: _ => _ end] => destruct t
             end; try discriminate; intros _; cbn [length]; lia. }
    change (length replacement) with 3 in *.
    rewrite length_app, IH; change (length replacement) with 3;
      rewrite length_drop; cbn [length] in *; lia.
  - change (firstn 1 (b :: l)) with [b]. change (skipn 1 (b :: l)) with l.
    rewrite length_app, IH; cbn [length]; lia.
Qed.

(** Encoding keeps the number of bytes: the replacement character takes
    three bytes, as a surrogate does. *)
Lemma encode_length (s : string) : length (encode s) = length (list_byte_of_string s).
Proof. apply encode_bytes_length. lia. Qed.

End Utf8Facts.
(** * Test vectors

    The primitives agree with their standards on published vectors, and
    with OpenSSL on a few runs of [aes-256-cbc]. *)

Section Vectors.
Import Bytes.

Example aes256_fips197_c3 :
  AES.encrypt_block Samples.key (bytes_of_hex "00112233445566778899aabbccddeeff")
  = bytes_of_hex "8ea2b7ca516745bfeafc49904b496089".
Proof. vm_compute. reflexivity. Qed.

Example aes256_fips197_c3_inverse :
  AES.decrypt_block Samples.key (bytes_of_hex "8ea2b7ca516745bfeafc49904b496089")
  = bytes_of_hex "00112233445566778899aabbccddeeff".
Proof. vm_compute. reflexivity. Qed.

Example sha256_constants :
  length SHA256.K = 64 /\
  nth 0 SHA256.K 0%N = 0x428a2f98%N /\ nth 63 SHA256.K 0%N = 0xc67178f2%N /\
  SHA256.ha SHA256.H0 = 0x6a09e667%N /\ SHA256.hh SHA256.H0 = 0x5be0cd19%N.
Proof. vm_compute. repeat split. Qed.

Example sha256_abc :
  SHA256.sha256 (list_byte_of_string "abc")
  = bytes_of_hex "ba7816bf8f01cfea414140de5dae2223b00361a396177a9cb410ff61f20015ad".
Proof. vm_compute. reflexivity. Qed.

Example hmac_sha256_rfc4231_case2 :
  KDF.hmac_sha256 (list_byte_of_string "Jefe")
    (list_byte_of_string "what do ya want for nothing?")
  = bytes_of_hex "5bdcc146bf60754e6a042426089575c75a003f089d2739839dec58b964ec3843".
Proof. vm_compute. reflexivity. Qed.

Example pbkdf2_hmac_sha256_two_iterations :
  KDF.pbkdf2_hmac_sha256 (list_byte_of_string "password") (list_byte_of_string "salt") 2 32
  = bytes_of_hex "ae4d0c95af6b46d32d0adff928f06dd02a303f8ef3c251dfd6e2d85a95474c43".
Proof. vm_compute. reflexivity. Qed.

Example pbkdf2_hmac_sha256_two_blocks :
  KDF.pbkdf2_hmac_sha256 (list_byte_of_string "passwordPASSWORDpassword")
    (list_byte_of_string "saltSALTsaltSALTsaltSALTsaltSALTsalt") 3 40
  = bytes_of_hex
      "325651a5ca818d11f4331cb0c300d6f8b68790c75a09ebad494e74b3f649475856c392e03e00705f".
Proof. vm_compute. reflexivity. Qed.

Example aes_256_cbc_three_blocks :
  Crypto.cipher_update_final (Crypto.mkCipher Samples.key Samples.iv) Samples.plaintext
  = bytes_of_hex
      "925c81ee81fae7d66040fade898963245afeab7af7697a0762fe3f72ebfe8a357f559f086177f447d1b11bd60d670c35".
Proof. vm_compute. reflexivity. Qed.

Example aes_256_cbc_whole_block :
  Crypto.cipher_update_final (Crypto.mkCipher Samples.key Samples.iv)
    (list_byte_of_string "0123456789abcdef")
  = bytes_of_hex "7862a071da19f3286dcd4ca7ca9c6e3eefc10d3fa3d646e6872b69bda7350a19".
Proof. vm_compute. reflexivity. Qed.

Example aes_256_cbc_empty :
  Crypto.cipher_update_final (Crypto.mkCipher Samples.key Samples.iv) []
  = bytes_of_hex "daf015b15d25544a9510b84fb6d94efd".
Proof. vm_compute. reflexivity. Qed.

Example aes_256_cbc_decipher :
  Crypto.decipher_update_final (Crypto.mkCipher Samples.key Samples.iv)
    (bytes_of_hex
       "925c81ee81fae7d66040fade898963245afeab7af7697a0762fe3f72ebfe8a357f559f086177f447d1b11bd60d670c35")
  = inr Samples.plaintext.
Proof. vm_compute. reflexivity. Qed.

Example aes_256_cbc_bad_decrypt :
  Crypto.decipher_update_final (Crypto.mkCipher Samples.key Samples.iv) (repeat Byte.x00 32)
  = inl Crypto.BadDecrypt.
Proof. vm_compute. reflexivity. Qed.

Example base64_rfc4648 :
  map Base64.encode (map list_byte_of_string ["f"; "fo"; "foo"; "foob"; "fooba"; "foobar"])
  = ["Zg=="; "Zm8="; "Zm9v"; "Zm9vYg=="; "Zm9vYmE="; "Zm9vYmFy"]%string.
Proof. vm_compute. reflexivity. Qed.

Example base64_decode_lenient :
  map Base64.decode ["Zg=="; "Zm8"; "Zm 9v"; "Zm9v!YmE="; "-_-_"; "+/+/"]%string
  = [list_byte_of_string "f"; list_byte_of_string "fo"; list_byte_of_string "foo";
     list_byte_of_string "fooba"; bytes_of_hex "fbffbf"; bytes_of_hex "fbffbf"].
Proof. vm_compute. reflexivity. Qed.

(** The unit test "retries the function if it fails": one failure, then a
    success, with [maxRetries = 2]. *)
Example retry_once_then_success :
  Utils.retryWithBackoff Samples.fails_twice 2 1%nat
  = (Utils.Resolved "success"%string,
     Utils.mkRun 3%nat
       [Utils.Invoke; Utils.Warn 1 1%nat 1; Utils.Wait 1000; Utils.Invoke]).
Proof. vm_compute. reflexivity. Qed.

End Vectors.

(** * Properties *)

(** ** Bytes *)

(** Equations between bit tuples, one boolean equation a position. *)
Ltac bits_eq :=
  repeat match goal with |- (_, _) = (_, _) => apply f_equal2 end; btauto.

Section BytesFacts.
Import Bytes.

Lemma to_bits_inj (a b : byte) : Byte.to_bits a = Byte.to_bits b -> a = b.
Proof.
  intros H. rewrite <- (Byte.of_bits_to_bits a), <- (Byte.of_bits_to_bits b).
  now rewrite H.
Qed.

Lemma to_bits_bxor (a b : byte) :
  Byte.to_bits (bxor a b) = xor8 (Byte.to_bits a) (Byte.to_bits b).
Proof. unfold bxor. apply Byte.to_bits_of_bits. Qed.

Lemma xor8_involutive (a b : bits8) : xor8 (xor8 a b) b = a.
Proof.
  destruct a as (a0 & a1 & a2 & a3 & a4 & a5 & a6 & a7).
  destruct b as (b0 & b1 & b2 & b3 & b4 & b5 & b6 & b7).
  cbn. bits_eq.
Qed.

Lemma bxor_involutive (a b : byte) : bxor (bxor a b) b = a.
Proof. apply to_bits_inj. rewrite !to_bits_bxor. apply xor8_involutive. Qed.

Lemma xor_bytes_length (u v : Buffer) :
  length u = length v -> length (xor_bytes u v) = length u.
Proof.
  revert v; induction u as [|a u IH]; intros [|b v]; simpl; try congruence.
  intros H. f_equal. apply IH. congruence.
Qed.

Lemma xor_bytes_involutive (u v : Buffer) :
  length u = length v -> xor_bytes (xor_bytes u v) v = u.
Proof.
  revert v; induction u as [|a u IH]; intros [|b v]; simpl; try congruence.
  intros H. rewrite bxor_involutive. f_equal. apply IH. congruence.
Qed.

End BytesFacts.

(** ** AES: the inverse cipher undoes the cipher *)

Section AESFacts.
Import Bytes AES.

Lemma to_bits_xtime (a : byte) : Byte.to_bits (xtime a) = xtime8 (Byte.to_bits a).
Proof. unfold xtime. apply Byte.to_bits_of_bits. Qed.

Lemma inv_sbox_sbox (b : byte) : inv_sbox (sbox b) = b.
Proof. destruct b; reflexivity. Qed.

Lemma xor_word_involutive (u v : word) : xor_word (xor_word u v) v = u.
Proof.
  destruct u, v; unfold xor_word; cbn [w0 w1 w2 w3].
  now rewrite !bxor_involutive.
Qed.

Lemma add_round_key_involutive (s k : state) :
  add_round_key (add_round_key s k) k = s.
Proof.
  destruct s, k; unfold add_round_key; cbn [c0 c1 c2 c3].
  now rewrite !xor_word_involutive.
Qed.

Lemma inv_sub_bytes_sub_bytes (s : state) : inv_sub_bytes (sub_bytes s) = s.
Proof.
  destruct s as [[] [] [] []].
  unfold inv_sub_bytes, sub_bytes, map_columns, map_word.
  cbn [c0 c1 c2 c3 w0 w1 w2 w3]. now rewrite !inv_sbox_sbox.
Qed.

Lemma inv_shift_rows_shift_rows (s : state) : inv_shift_rows (shift_rows s) = s.
Proof. destruct s as [[] [] [] []]. reflexivity. Qed.

(** Rewriting a byte equation into one on bit tuples. *)
Ltac to_bits :=
  apply to_bits_inj;
  unfold mul14, mul13, mul11, mul9, mul3, mul8, mul4, mul2;
  repeat (rewrite to_bits_bxor || rewrite to_bits_xtime).

Lemma inv_mix_column_mix_column (w : word) : inv_mix_column (mix_column w) = w.
Proof.
  destruct w as [a0 a1 a2 a3]. unfold mix_column, inv_mix_column.
  f_equal; to_bits;
    destruct (Byte.to_bits a0) as (p0 & p1 & p2 & p3 & p4 & p5 & p6 & p7);
    destruct (Byte.to_bits a1) as (q0 & q1 & q2 & q3 & q4 & q5 & q6 & q7);
    destruct (Byte.to_bits a2) as (r0 & r1 & r2 & r3 & r4 & r5 & r6 & r7);
    destruct (Byte.to_bits a3) as (s0 & s1 & s2 & s3 & s4 & s5 & s6 & s7);
    cbn [xor8 xtime8]; bits_eq.
Qed.

Lemma inv_mix_columns_mix_columns (s : state) : inv_mix_columns (mix_columns s) = s.
Proof.
  destruct s. unfold inv_mix_columns, mix_columns, map_columns.
  cbn [c0 c1 c2 c3]. now rewrite !inv_mix_column_mix_column.
Qed.

(** SubBytes followed by ShiftRows, and its inverse. *)
Lemma inv_sub_shift (s : state) :
  inv_sub_bytes (inv_shift_rows (shift_rows (sub_bytes s))) = s.
Proof. now rewrite inv_shift_rows_shift_rows, inv_sub_bytes_sub_bytes. Qed.

Lemma inv_round_after_round (s k : state) :
  inv_round (shift_rows (sub_bytes (round s k))) k = shift_rows (sub_bytes s).
Proof.
  unfold inv_round, round.
  now rewrite inv_sub_shift, add_round_key_involutive, inv_mix_columns_mix_columns.
Qed.

Lemma inv_rounds_after_rounds (middle : list state) (s : state) :
  fold_left inv_round (rev middle) (shift_rows (sub_bytes (fold_left round middle s)))
  = shift_rows (sub_bytes s).
Proof.
  revert s. induction middle as [|k middle IH] using rev_ind; intros s.
  - reflexivity.
  - rewrite rev_app_distr, !fold_left_app. cbn [rev app fold_left].
    now rewrite inv_round_after_round, IH.
Qed.

Theorem inv_cipher_cipher (first : state) (middle : list state) (last s : state) :
  inv_cipher first middle last (cipher first middle last s) = s.
Proof.
  unfold inv_cipher, cipher.
  now rewrite add_round_key_involutive, inv_rounds_after_rounds, inv_sub_shift,
    add_round_key_involutive.
Qed.

Lemma bytes_of_state_length (s : state) : length (bytes_of_state s) = 16.
Proof. reflexivity. Qed.

Lemma state_of_bytes_of_state (s : state) : state_of_bytes (bytes_of_state s) = s.
Proof. destruct s as [[] [] [] []]. reflexivity. Qed.

Lemma bytes_of_state_of_bytes (l : Buffer) :
  length l = 16 -> bytes_of_state (state_of_bytes l) = l.
Proof.
  intros H. do 16 (destruct l as [|? l]; [discriminate H|]).
  destruct l; [reflexivity | discriminate H].
Qed.

Lemma encrypt_block_length (key block : Buffer) :
  length (encrypt_block key block) = 16.
Proof.
  unfold encrypt_block. destruct (split_round_keys _) as [[? ?] ?].
  apply bytes_of_state_length.
Qed.

(** Decrypting a block under the key that encrypted it gives the block back. *)
Theorem decrypt_encrypt_block (key block : Buffer) :
  length block = 16 -> decrypt_block key (encrypt_block key block) = block.
Proof.
  intros H. unfold decrypt_block, encrypt_block.
  destruct (split_round_keys _) as [[first middle] last].
  rewrite state_of_bytes_of_state, inv_cipher_cipher.
  now apply bytes_of_state_of_bytes.
Qed.

End AESFacts.

(** ** PKCS#7 padding and CBC mode *)

Section BlockModeFacts.
Import Bytes Crypto.

Lemma byte_of_nat_to_nat (n : nat) : n <= 16 -> Byte.to_nat (byte_of_nat n) = n.
Proof.
  intros H. do 17 (destruct n as [|n]; [reflexivity|]). lia.
Qed.

Lemma pad_amount (len : nat) : 1 <= 16 - len mod 16 <= 16.
Proof. pose proof (Nat.mod_upper_bound len 16). lia. Qed.

Lemma pkcs7_pad_length (data : Buffer) :
  length (pkcs7_pad data) = 16 * (length data / 16 + 1).
Proof.
  unfold pkcs7_pad. rewrite length_app, repeat_length.
  pose proof (Nat.div_mod_eq (length data) 16).
  pose proof (Nat.mod_upper_bound (length data) 16). lia.
Qed.

Lemma pkcs7_pad_blocks (data : Buffer) :
  length (pkcs7_pad data) / 16 = length data / 16 + 1.
Proof.
  rewrite pkcs7_pad_length, Nat.mul_comm. apply Nat.div_mul. discriminate.
Qed.

Lemma forallb_repeat {A} (f : A -> bool) (x : A) (n : nat) :
  f x = true -> forallb f (repeat x n) = true.
Proof. intros H. induction n as [|n IH]; cbn; [reflexivity|]. now rewrite H, IH. Qed.

Lemma last_app_repeat {A} (l : list A) (x d : A) (n : nat) :
  1 <= n -> List.last (l ++ repeat x n) d = x.
Proof.
  intros H. destruct n as [|n]; [lia|].
  replace (repeat x (S n)) with (repeat x n ++ [x]).
  - now rewrite app_assoc, last_last.
  - clear. induction n as [|n IH]; cbn in *; [reflexivity|]. now rewrite IH.
Qed.

(** Removing the padding gives the data back. *)
Lemma pkcs7_unpad_pad (data : Buffer) : pkcs7_unpad (pkcs7_pad data) = Some data.
Proof.
  unfold pkcs7_unpad, pkcs7_pad.
  pose proof (pad_amount (length data)) as Hn.
  set (n := 16 - length data mod 16) in *.
  rewrite last_app_repeat by lia.
  rewrite byte_of_nat_to_nat by lia.
  replace (n =? 0) with false by (symmetry; apply Nat.eqb_neq; lia).
  replace (16 <? n) with false by (symmetry; apply Nat.ltb_ge; lia).
  cbn [orb]. rewrite length_app, repeat_length.
  replace (length data + n - n) with (length data) by lia.
  rewrite drop_app_length, take_app_length.
  rewrite forallb_repeat; [reflexivity|].
  apply Byte.byte_dec_lb. reflexivity.
Qed.

Lemma cbc_encrypt_length (n : nat) (key prev data : Buffer) :
  length (cbc_encrypt n key prev data) = 16 * n.
Proof.
  revert prev data. induction n as [|n IH]; intros prev data; cbn [cbc_encrypt].
  - reflexivity.
  - rewrite length_app, encrypt_block_length, IH. lia.
Qed.

(** Decrypting [n] chained blocks gives the first [16 * n] bytes back. *)
Lemma cbc_decrypt_encrypt (n : nat) (key prev data : Buffer) :
  length prev = 16 -> 16 * n <= length data ->
  cbc_decrypt n key prev (cbc_encrypt n key prev data) = firstn (16 * n) data.
Proof.
  revert prev data. induction n as [|n IH]; intros prev data Hprev Hlen.
  - reflexivity.
  - cbn [cbc_encrypt cbc_decrypt].
    set (c := AES.encrypt_block key (xor_bytes (firstn 16 data) prev)).
    assert (Hc : length c = 16) by apply encrypt_block_length.
    assert (Hb : length (firstn 16 data) = 16) by (rewrite length_take; lia).
    rewrite (take_app_length' c _ 16), (drop_app_length' c _ 16)
      by (symmetry; exact Hc).
    unfold c at 1. rewrite decrypt_encrypt_block
      by (rewrite xor_bytes_length; congruence).
    rewrite xor_bytes_involutive by congruence.
    rewrite IH by (rewrite ?length_drop; lia).
    replace (16 * S n) with (16 + 16 * n) by lia.
    apply take_take_drop.
Qed.

(** A cipher followed by a decipher with the same key and IV. *)
Lemma decipher_cipher (key iv data : Buffer) :
  length iv = 16 ->
  decipher_update_final (mkCipher key iv) (cipher_update_final (mkCipher key iv) data)
  = inr data.
Proof.
  intros Hiv. unfold decipher_update_final, cipher_update_final.
  cbn [cipher_key cipher_iv].
  rewrite cbc_encrypt_length, pkcs7_pad_blocks.
  set (m := length data / 16 + 1).
  assert (H0 : (16 * m =? 0) = false) by (apply Nat.eqb_neq; lia).
  assert (H1 : ((16 * m) mod 16 =? 0) = true)
    by (apply Nat.eqb_eq; rewrite Nat.mul_comm; apply Nat.Div0.mod_mul).
  assert (H2 : (16 * m) / 16 = m)
    by (rewrite Nat.mul_comm; apply Nat.div_mul; discriminate).
  rewrite H0, H1, H2. cbn [orb negb].
  rewrite cbc_decrypt_encrypt by (rewrite ?pkcs7_pad_length; lia).
  unfold m. rewrite <- pkcs7_pad_length, firstn_all, pkcs7_unpad_pad. reflexivity.
Qed.

Lemma randomBytes_length (n : nat) (e : Entropy) : length (fst (randomBytes n e)) = n.
Proof. unfold randomBytes. cbn [fst]. now rewrite length_map, length_seq. Qed.

End BlockModeFacts.

(** ** Base64: decoding undoes encoding *)

(** Linear arithmetic with division and remainder by constants. *)
Ltac div_lia := zify; Z.to_euclidean_division_equations; lia.

Section Base64Facts.
Import Bytes Base64.
Local Open Scope N_scope.

Lemma byte_of_to_N (b : byte) : byte_of_N (Byte.to_N b) = b.
Proof.
  unfold byte_of_N. pose proof (Byte.to_N_bounded b).
  rewrite N.mod_small by lia. now rewrite Byte.of_to_N.
Qed.

(** Induction on a list, three elements at a time. *)
Lemma list_ind3 {A} (P : list A -> Prop) :
  P [] -> (forall a, P [a]) -> (forall a b, P [a; b]) ->
  (forall a b c l, P l -> P (a :: b :: c :: l)) ->
  forall l, P l.
Proof.
  intros H0 H1 H2 H3 l.
  enough (P l /\ (forall a, P (a :: l)) /\ (forall a b, P (a :: b :: l))) by tauto.
  induction l as [|c l (IH0 & IH1 & IH2)]; auto.
Qed.

Lemma sextets_checked :
  forallb (fun k =>
             let n := N.of_nat k in
             negb (Ascii.eqb (char_of_sextet n) pad_char)
             && match sextet_of_char (char_of_sextet n) with
                | Some m => N.eqb m n
                | None => false
                end) (seq 0 64) = true.
Proof. vm_compute. reflexivity. Qed.

Lemma sextet_of_char_of_sextet (n : N) :
  n < 64 ->
  Ascii.eqb (char_of_sextet n) pad_char = false /\
  sextet_of_char (char_of_sextet n) = Some n.
Proof.
  intros Hn. pose proof sextets_checked as H.
  rewrite forallb_forall in H.
  assert (Hin : In (N.to_nat n) (seq 0 64)) by (apply in_seq; lia).
  apply H in Hin. cbv zeta in Hin. rewrite N2Nat.id in Hin.
  apply andb_prop in Hin as [H1 H2].
  split; [now apply negb_true_iff|].
  destruct (sextet_of_char _); [|discriminate].
  now apply N.eqb_eq in H2 as ->.
Qed.

Lemma sextets_cons (n : N) (rest : list ascii) :
  n < 64 -> sextets (char_of_sextet n :: rest) = n :: sextets rest.
Proof.
  intros [H1 H2]%sextet_of_char_of_sextet. cbn [sextets]. now rewrite H1, H2.
Qed.

Lemma sextets_pad (rest : list ascii) : sextets (pad_char :: rest) = [].
Proof. reflexivity. Qed.


Lemma byte_of_N_eq (x : N) (b : byte) : x = Byte.to_N b -> byte_of_N x = b.
Proof. intros ->. apply byte_of_to_N. Qed.

Lemma bytes_of_sextets_encode (l : Buffer) :
  bytes_of_sextets (sextets (encode_chars l)) = l.
Proof.
  induction l as [|a|a b|a b c l IH] using list_ind3.
  - reflexivity.
  - pose proof (Byte.to_N_bounded a). cbn [encode_chars].
    rewrite !sextets_cons, sextets_pad by div_lia. cbn [bytes_of_sextets].
    f_equal. apply byte_of_N_eq. div_lia.
  - pose proof (Byte.to_N_bounded a). pose proof (Byte.to_N_bounded b).
    cbn [encode_chars].
    rewrite !sextets_cons, sextets_pad by div_lia. cbn [bytes_of_sextets].
    f_equal; [|f_equal]; apply byte_of_N_eq; div_lia.
  - pose proof (Byte.to_N_bounded a). pose proof (Byte.to_N_bounded b).
    pose proof (Byte.to_N_bounded c).
    cbn [encode_chars].
    rewrite !sextets_cons by div_lia. cbn [bytes_of_sextets]. rewrite IH.
    f_equal; [|f_equal; [|f_equal]]; apply byte_of_N_eq; div_lia.
Qed.

(** [Buffer.from(buf.toString('base64'), 'base64')] is [buf]. *)
Theorem base64_decode_encode (l : Buffer) : decode (encode l) = l.
Proof.
  unfold decode, encode.
  now rewrite list_ascii_of_string_of_list_ascii, bytes_of_sextets_encode.
Qed.

(** The encoding of a buffer that is not empty is not the empty string. *)
Lemma base64_encode_nonempty (l : Buffer) : l <> [] -> encode l <> ""%string.
Proof.
  intros Hl. unfold encode.
  destruct l as [|a [|b [|c l]]]; [congruence | discriminate ..].
Qed.

End Base64Facts.

(** ** Key derivation *)

Section KDFFacts.
Import Bytes KDF.

Lemma sha256_length (msg : Buffer) : length (SHA256.sha256 msg) = 32.
Proof. reflexivity. Qed.

Lemma hmac_sha256_length (key msg : Buffer) : length (hmac_sha256 key msg) = 32.
Proof. apply sha256_length. Qed.

Lemma pbkdf2_block_length (password salt : Buffer) (c i : N) :
  length (pbkdf2_block password salt c i) = 32.
Proof.
  unfold pbkdf2_block.
  set (step := fun '(u, t) => let u' := hmac_sha256 password u in (u', xor_bytes t u')).
  set (u1 := hmac_sha256 password _).
  enough (H : length (fst (N.iter (c - 1) step (u1, u1))) = 32
              /\ length (snd (N.iter (c - 1) step (u1, u1))) = 32) by apply H.
  apply N.iter_invariant.
  - intros [u t] [Hu Ht]. cbn [fst snd] in *. unfold step. cbn [fst snd].
    split; [apply hmac_sha256_length|].
    rewrite xor_bytes_length; [exact Ht|]. now rewrite hmac_sha256_length.
  - split; apply hmac_sha256_length.
Qed.

(** [pbkdf2Sync(password, salt, iterations, 32, 'sha256')] is 32 bytes long. *)
Lemma pbkdf2Sync_length (password : string) (salt : Buffer) (c : N) :
  length (Crypto.pbkdf2Sync password salt c 32) = 32.
Proof.
  unfold Crypto.pbkdf2Sync, pbkdf2_hmac_sha256.
  change ((32 + 31) / 32) with 1. cbn [pbkdf2_blocks].
  rewrite app_nil_r, firstn_all2; rewrite pbkdf2_block_length; [reflexivity | lia].
Qed.

(** HMAC fills a short key with zero bytes, so a zero byte added at the end
    of the key changes nothing. *)
Lemma hmac_key_block_zero (key : Buffer) :
  length key < 64 -> hmac_key_block (key ++ [Byte.x00]) = hmac_key_block key.
Proof.
  intros H. unfold hmac_key_block. rewrite length_app. cbn [length].
  replace (64 <? length key + 1) with false by (symmetry; apply Nat.ltb_ge; lia).
  replace (64 <? length key) with false by (symmetry; apply Nat.ltb_ge; lia).
  rewrite length_app. cbn [length].
  replace (64 - length key) with (S (64 - (length key + 1))) by lia.
  now rewrite <- app_assoc.
Qed.

Lemma pbkdf2_block_zero (password salt : Buffer) (c i : N) :
  length password < 64 ->
  pbkdf2_block (password ++ [Byte.x00]) salt c i = pbkdf2_block password salt c i.
Proof.
  intros H. unfold pbkdf2_block, hmac_sha256. now rewrite hmac_key_block_zero.
Qed.

Lemma pbkdf2_blocks_zero (n : nat) (password salt : Buffer) (c i : N) :
  length password < 64 ->
  pbkdf2_blocks n (password ++ [Byte.x00]) salt c i = pbkdf2_blocks n password salt c i.
Proof.
  intros H. revert i. induction n as [|n IH]; intros i; cbn [pbkdf2_blocks].
  - reflexivity.
  - now rewrite pbkdf2_block_zero, IH.
Qed.

Lemma list_byte_of_string_app (s t : string) :
  list_byte_of_string (s ++ t) = list_byte_of_string s ++ list_byte_of_string t.
Proof.
  induction s as [|a s IH]; [reflexivity|].
  change (String a s ++ t)%string with (String a (s ++ t)).
  unfold list_byte_of_string in *. cbn [list_ascii_of_string map app]. now rewrite IH.
Qed.

Lemma list_byte_of_string_length (s : string) :
  length (list_byte_of_string s) = String.length s.
Proof.
  unfold list_byte_of_string. rewrite length_map.
  induction s as [|a s IH]; cbn; [reflexivity | now rewrite IH].
Qed.

(** A password of fewer than 64 bytes and the same password followed by the
    character U+0000, whose encoding is that of the password followed by
    the byte 0, derive the same key. *)
Lemma pbkdf2Sync_nul (password : string) (salt : Buffer) (c : N) (keylen : nat) :
  Utf8.encode (password ++ Bytes.NUL) = Utf8.encode password ++ [Byte.x00] ->
  length (Utf8.encode password) < 64 ->
  Crypto.pbkdf2Sync (password ++ Bytes.NUL) salt c keylen
  = Crypto.pbkdf2Sync password salt c keylen.
Proof.
  intros He H. unfold Crypto.pbkdf2Sync, pbkdf2_hmac_sha256.
  rewrite He. now rewrite pbkdf2_blocks_zero.
Qed.

End KDFFacts.

(** From here on the derived key is a value that proofs name and never
    compute. *)
Opaque Crypto.pbkdf2Sync.

(** ** The content cipher of [IPFSClient] *)

Section IpfsFacts.
Import Bytes Crypto Ipfs.

(** A constructed client offers encryption exactly when it holds a key of
    32 bytes. *)
Lemma constructor_available (env : Environment) (byDefault : option bool)
    (keyArg : option Buffer) :
  encryptionAvailable (constructor env byDefault keyArg) = true ->
  exists K, encryptionKey (constructor env byDefault keyArg) = Some K /\ length K = 32.
Proof.
  unfold constructor. destruct (crypto_support env); cbn; [|discriminate].
  destruct keyArg as [k|]; [|destruct (config_encryption_key env) as [k|]];
    cbn; try discriminate; intros H%Nat.eqb_eq; eauto.
Qed.

Lemma createCipheriv_ok (K iv : Buffer) :
  length K = 32 -> length iv = 16 -> createCipheriv (Some K) iv = inr (mkCipher K iv).
Proof.
  intros HK Hiv. unfold createCipheriv. now rewrite HK, Hiv.
Qed.

(** Encryption on a client holding a 32-byte key. *)
Lemma encryptData_ok (this : IPFSClient) (K data : Buffer) (e : Entropy) :
  encryptionAvailable this = true -> encryptionKey this = Some K -> length K = 32 ->
  encryptData this data e
  = (inr (fst (randomBytes 16 e)
          ++ cipher_update_final (mkCipher K (fst (randomBytes 16 e))) data),
     snd (randomBytes 16 e)).
Proof.
  intros Hav HK Hlen. unfold encryptData. rewrite Hav, HK. cbn [negb].
  pose proof (randomBytes_length 16 e) as Hiv.
  destruct (randomBytes 16 e) as [iv e']. cbn [fst snd] in *.
  now rewrite createCipheriv_ok.
Qed.

(** Decryption of an envelope [iv ++ ciphertext] made under the same key. *)
Lemma decryptData_envelope (this : IPFSClient) (K iv data : Buffer) :
  encryptionAvailable this = true -> encryptionKey this = Some K -> length K = 32 ->
  length iv = 16 ->
  decryptData this (iv ++ cipher_update_final (mkCipher K iv) data) = inr data.
Proof.
  intros Hav HK Hlen Hiv. unfold decryptData. rewrite Hav, HK. cbn [negb].
  rewrite (take_app_length' iv _ 16), (drop_app_length' iv _ 16) by congruence.
  unfold createDecipheriv. rewrite createCipheriv_ok by assumption.
  now rewrite decipher_cipher.
Qed.

(** C1. For every plaintext buffer and every client on which encryption is
    available (it then holds a key of exactly 32 bytes), [encryptData]
    returns an envelope and [decryptData] of that envelope, on the same
    client, returns exactly the plaintext. *)
Theorem C1_content_cipher_round_trip (env : Environment) (byDefault : option bool)
    (keyArg : option Buffer) (P : Buffer) (e : Entropy) :
  let client := constructor env byDefault keyArg in
  encryptionAvailable client = true ->
  exists K envelope e',
    encryptionKey client = Some K /\ length K = 32 /\
    encryptData client P e = (inr envelope, e') /\
    decryptData client envelope = inr P.
Proof.
  intros client Hav.
  destruct (constructor_available _ _ _ Hav) as (K & HK & Hlen).
  exists K. eexists. eexists. repeat split; try eassumption.
  - apply encryptData_ok; eassumption.
  - apply decryptData_envelope; try eassumption. apply randomBytes_length.
Qed.

(** C9. For every plaintext and every client holding a 32-byte key, two
    calls of [encryptData] that draw distinct IVs return envelopes that
    differ, already in their first 16 bytes, and [decryptData] returns the
    plaintext from each. *)
Theorem C9_distinct_ivs_distinct_envelopes (env : Environment) (byDefault : option bool)
    (keyArg : option Buffer) (P : Buffer) (e1 e2 : Entropy) :
  let client := constructor env byDefault keyArg in
  encryptionAvailable client = true ->
  fst (randomBytes 16 e1) <> fst (randomBytes 16 e2) ->
  exists envelope1 envelope2,
    fst (encryptData client P e1) = inr envelope1 /\
    fst (encryptData client P e2) = inr envelope2 /\
    firstn 16 envelope1 <> firstn 16 envelope2 /\
    envelope1 <> envelope2 /\
    decryptData client envelope1 = inr P /\
    decryptData client envelope2 = inr P.
Proof.
  intros client Hav Hiv.
  destruct (constructor_available _ _ _ Hav) as (K & HK & Hlen).
  pose proof (randomBytes_length 16 e1) as H1.
  pose proof (randomBytes_length 16 e2) as H2.
  do 2 eexists.
  rewrite !(encryptData_ok client K) by assumption. cbn [fst].
  split; [reflexivity|]. split; [reflexivity|].
  assert (Hne : firstn 16 (fst (randomBytes 16 e1)
                            ++ cipher_update_final (mkCipher K (fst (randomBytes 16 e1))) P)
                <> firstn 16 (fst (randomBytes 16 e2)
                            ++ cipher_update_final (mkCipher K (fst (randomBytes 16 e2))) P)).
  { rewrite !take_app_length' by congruence. exact Hiv. }
  split; [exact Hne|]. split; [intros Heq; apply Hne; now rewrite Heq|].
  split; apply decryptData_envelope; assumption.
Qed.

(** C5. A client constructed with a key whose length is not 32 bytes, given
    as an argument or read from the configuration, has encryption
    unavailable; [encryptData] and [decryptData] throw on it, whatever the
    data, and [encryptData] draws no randomness. *)
Theorem C5_key_length_invariant (env : Environment) (byDefault : option bool)
    (keyArg : option Buffer) (K data envelope : Buffer) (e : Entropy) :
  keyArg = Some K \/ (keyArg = None /\ config_encryption_key env = Some K) ->
  length K <> 32 ->
  let client := constructor env byDefault keyArg in
  encryptionAvailable client = false /\
  encryptData client data e = (inl not_available, e) /\
  decryptData client envelope = inl not_available.
Proof.
  intros Hkey Hlen client.
  assert (Hav : encryptionAvailable client = false).
  { unfold client, constructor.
    destruct (crypto_support env); [|reflexivity].
    destruct Hkey as [-> | [-> ->]]; cbn; now apply Nat.eqb_neq. }
  unfold encryptData, decryptData. now rewrite Hav.
Qed.

(** How [decryptData] fails on a client holding a 32-byte key. *)
Lemma decryptData_cases (this : IPFSClient) (K envelope : Buffer) :
  encryptionAvailable this = true -> encryptionKey this = Some K -> length K = 32 ->
  decryptData this envelope =
    if (length envelope <? 16)%nat then inl (decryption_failed (js_error InvalidIV))
    else if (length envelope =? 16)%nat || negb ((length envelope) mod 16 =? 0)%nat
    then inl (decryption_failed (js_error WrongFinalBlockLength))
    else match pkcs7_unpad (cbc_decrypt ((length envelope - 16) / 16) K
                              (firstn 16 envelope) (skipn 16 envelope)) with
         | Some plain => inr plain
         | None => inl (decryption_failed (js_error BadDecrypt))
         end.
Proof.
  intros Hav HK Hlen. unfold decryptData, createDecipheriv, createCipheriv.
  rewrite Hav, HK, Hlen. cbn [negb Nat.eqb].
  rewrite length_take.
  destruct (Nat.ltb_spec (length envelope) 16) as [Hlt|Hge].
  - replace (16 `min` length envelope) with (length envelope) by lia.
    replace (length envelope =? 16) with false by (symmetry; apply Nat.eqb_neq; lia).
    reflexivity.
  - replace (16 `min` length envelope) with 16 by lia.
    cbn [Nat.eqb negb]. unfold decipher_update_final. cbn [cipher_key cipher_iv].
    rewrite length_drop.
    assert (Hmod : (length envelope - 16) mod 16 = (length envelope) mod 16).
    { replace (length envelope) with ((length envelope - 16) + 1 * 16) at 2 by lia.
      now rewrite Nat.Div0.mod_add. }
    rewrite Hmod.
    replace (length envelope - 16 =? 0) with (length envelope =? 16)
      by (destruct (Nat.eqb_spec (length envelope) 16);
          symmetry; [apply Nat.eqb_eq | apply Nat.eqb_neq]; lia).
    destruct ((length envelope =? 16) || negb ((length envelope) mod 16 =? 0));
      [reflexivity|].
    destruct (pkcs7_unpad _); reflexivity.
Qed.

(** C3, as the code has it. For every client holding a 32-byte key and every
    envelope on which [decryptData] throws, the error is an [Error] whose
    message is "Decryption failed: <cause>. Incorrect key or corrupted
    data?", where <cause> is the text of the cipher's own error: an invalid
    IV for an envelope shorter than 16 bytes, a wrong final block length
    for a ciphertext that is empty or not a whole number of blocks, a bad
    decrypt for a padding that is invalid after decryption.  The message
    tells a truncated envelope from a bad padding; a wrong key and corrupted
    data, which both end in a bad padding, are not told apart. *)
Theorem C3_decryption_failure_message (env : Environment) (byDefault : option bool)
    (keyArg : option Buffer) (envelope : Buffer) (error : JsError) :
  let client := constructor env byDefault keyArg in
  encryptionAvailable client = true ->
  decryptData client envelope = inl error ->
  exists K cause,
    encryptionKey client = Some K /\ length K = 32 /\
    error = mkError "Error"
              ("Decryption failed: " ++ toString (js_error cause)
               ++ ". Incorrect key or corrupted data?") /\
    ((cause = InvalidIV /\ length envelope < 16) \/
     (cause = WrongFinalBlockLength /\ 16 <= length envelope /\
      (length envelope = 16 \/ (length envelope) mod 16 <> 0)) \/
     (cause = BadDecrypt /\ 32 <= length envelope /\ (length envelope) mod 16 = 0 /\
      pkcs7_unpad (cbc_decrypt ((length envelope - 16) / 16) K
                     (firstn 16 envelope) (skipn 16 envelope)) = None)).
Proof.
  intros client Hav Herr.
  destruct (constructor_available _ _ _ Hav) as (K & HK & Hlen).
  rewrite (decryptData_cases client K) in Herr by assumption.
  exists K.
  destruct (Nat.ltb_spec (length envelope) 16) as [Hlt|Hge].
  { injection Herr as <-. exists InvalidIV.
    repeat split; try assumption. left. now split. }
  destruct (Nat.eqb_spec (length envelope) 16) as [H16|H16]; cbn [orb] in Herr.
  { injection Herr as <-. exists WrongFinalBlockLength.
    repeat split; try assumption. right; left. repeat split; [lia | now left]. }
  destruct (Nat.eqb_spec ((length envelope) mod 16) 0) as [Hm|Hm]; cbn [negb] in Herr.
  - destruct (pkcs7_unpad _) eqn:Hpad; [discriminate|]. injection Herr as <-.
    exists BadDecrypt. repeat split; try assumption. right; right.
    repeat split; [|exact Hm].
    pose proof (Nat.div_mod_eq (length envelope) 16). lia.
  - injection Herr as <-. exists WrongFinalBlockLength.
    repeat split; try assumption. right; left. repeat split; [lia | now right].
Qed.

End IpfsFacts.

(** ** The seed phrase at rest *)

Section ConfigFacts.
Import Bytes Crypto Config.

#[local] Opaque Crypto.cipher_update_final Crypto.decipher_update_final.
#[local] Opaque Base64.encode Base64.decode Crypto.randomBytes.

Lemma truthy_some (s : string) : s <> ""%string -> truthy (Some s) = true.
Proof. intros H. cbn. now apply negb_true_iff, String.eqb_neq. Qed.

(** Resolving the account name reads the world and leaves it as it is. *)
Lemma resolve_name_world (accountName : option string) (w : World) (name : string) :
  fst (resolve_name accountName w) = inr name ->
  resolve_name accountName w = (inr name, w) /\ name <> ""%string.
Proof.
  unfold resolve_name, bind, getActiveAccount, ret, throw.
  destruct (truthy accountName) eqn:Ht.
  - destruct accountName as [n|]; [|discriminate Ht]. rewrite Ht. cbn.
    intros [= ->]. split; [reflexivity|].
    intros ->. discriminate Ht.
  - destruct (env_active_account w) as [v|]; cbn.
    + destruct (negb (v =? "")%string) eqn:Hv; cbn; [|discriminate].
      intros [= ->]. split; [reflexivity|]. intros ->. discriminate Hv.
    + destruct (active_account (file w)) as [v|]; cbn; [|discriminate].
      destruct (negb (v =? "")%string) eqn:Hv; cbn; [|discriminate].
      intros [= ->]. split; [reflexivity|]. intros ->. discriminate Hv.
Qed.

(** It depends on the environment variable and the active account only. *)
Lemma resolve_name_ext (accountName : option string) (w w' : World) :
  env_active_account w = env_active_account w' ->
  active_account (file w) = active_account (file w') ->
  fst (resolve_name accountName w) = fst (resolve_name accountName w').
Proof.
  intros He Ha. unfold resolve_name, bind, getActiveAccount, ret, throw.
  destruct (truthy accountName).
  - destruct accountName as [n|]; cbn; [|reflexivity].
    destruct (negb (n =? "")%string); reflexivity.
  - rewrite <- He, <- Ha. destruct (env_active_account w) as [v|]; cbn.
    + destruct (negb (v =? "")%string); reflexivity.
    + destruct (active_account (file w)) as [v|]; cbn; [|reflexivity].
      destruct (negb (v =? "")%string); reflexivity.
Qed.

(** The world that [setSeedPhrase] leaves when it encrypts. *)
Lemma setSeedPhrase_encode (S W : string) (accountName : option string)
    (w : World) (name : string) :
  W <> ""%string ->
  fst (resolve_name accountName w) = inr name ->
  let salt := fst (Crypto.randomBytes 16 (entropy w)) in
  let e1 := snd (Crypto.randomBytes 16 (entropy w)) in
  let key := Crypto.pbkdf2Sync W salt 100000 32 in
  let iv := fst (Crypto.randomBytes 16 e1) in
  let e2 := snd (Crypto.randomBytes 16 e1) in
  let encrypted := cipher_update_final (mkCipher key iv) (Utf8.encode S) in
  let account := default empty_account (accounts (file w) !! name) in
  setSeedPhrase S true (Some W) accountName w
  = (inr true,
     mkWorld (env_active_account w)
       (mkConfigFile (active_account (file w))
          (<[name := mkAccount (Some (Base64.encode (salt ++ iv ++ encrypted))) true
                       (ss58_address account)]> (accounts (file w))))
       e2 (derivations w ++ [(W, salt)])).
Proof.
  intros HW Hname. cbv zeta.
  destruct (resolve_name_world _ _ _ Hname) as [Hres _].
  unfold setSeedPhrase, bind at 1. rewrite Hres.
  unfold bind, loadConfig, saveConfig, ret, Config.randomBytes, Config.pbkdf2Sync.
  rewrite (truthy_some W HW). cbn [negb].
  pose proof (randomBytes_length 16 (entropy w)) as Hsalt.
  destruct (Crypto.randomBytes 16 (entropy w)) as [salt e1]. cbn [fst snd entropy] in *.
  pose proof (randomBytes_length 16 e1) as Hiv.
  destruct (Crypto.randomBytes 16 e1) as [iv e2]. cbn [fst snd entropy] in *.
  rewrite createCipheriv_ok by (assumption || apply pbkdf2Sync_length).
  reflexivity.
Qed.

(** What [getSeedPhrase] does with an encoded record and a password. *)
Lemma getSeedPhrase_encoded (W : string) (accountName : option string)
    (w : World) (name : string) (account : Account) (stored : string) :
  W <> ""%string ->
  fst (resolve_name accountName w) = inr name ->
  accounts (file w) !! name = Some account ->
  seed_phrase account = Some stored ->
  stored <> ""%string ->
  seed_phrase_encoded account = true ->
  let data := Base64.decode stored in
  let salt := firstn 16 data in
  let iv := firstn 16 (skipn 16 data) in
  let key := Crypto.pbkdf2Sync W salt 100000 32 in
  let w' := mkWorld (env_active_account w) (file w) (entropy w)
              (derivations w ++ [(W, salt)]) in
  getSeedPhrase accountName (Some W) w
  = match createDecipheriv (Some key) iv with
    | inl _ => (inl decrypt_failed, w')
    | inr decipher =>
        match decipher_update_final decipher (skipn 32 data) with
        | inl _ => (inl decrypt_failed, w')
        | inr decrypted => (inr (Utf8.decode decrypted), w')
        end
    end.
Proof.
  intros HW Hname Hacc Hseed Hstored Henc. cbv zeta.
  destruct (resolve_name_world _ _ _ Hname) as [Hres _].
  unfold getSeedPhrase, bind at 1. rewrite Hres.
  unfold bind at 1. unfold loadConfig. rewrite Hacc, Hseed, Henc.
  rewrite (truthy_some stored Hstored), (truthy_some W HW). cbn [negb].
  unfold try_catch, bind, Config.pbkdf2Sync, lift, ret, throw.
  destruct (createDecipheriv _ _) as [err|decipher]; [reflexivity|].
  destruct (decipher_update_final _ _); reflexivity.
Qed.


(** The three slices that [getSeedPhrase] takes of a stored envelope. *)
Lemma envelope_slices (salt iv encrypted : Buffer) :
  length salt = 16 -> length iv = 16 ->
  firstn 16 (salt ++ iv ++ encrypted) = salt /\
  firstn 16 (skipn 16 (salt ++ iv ++ encrypted)) = iv /\
  skipn 32 (salt ++ iv ++ encrypted) = encrypted.
Proof.
  intros Hsalt Hiv. repeat split.
  - now apply take_app_length'.
  - rewrite drop_app_length' by (symmetry; exact Hsalt). now apply take_app_length'.
  - rewrite app_assoc. apply drop_app_length'. rewrite length_app. lia.
Qed.

(** [getSeedPhrase] on a record that holds the envelope of [salt], [iv] and
    [encrypted]. *)
Lemma getSeedPhrase_envelope (W : string) (accountName : option string)
    (w : World) (name : string) (address : option string)
    (salt iv encrypted : Buffer) :
  W <> ""%string ->
  fst (resolve_name accountName w) = inr name ->
  accounts (file w) !! name
  = Some (mkAccount (Some (Base64.encode (salt ++ iv ++ encrypted))) true address) ->
  length salt = 16 -> length iv = 16 ->
  fst (getSeedPhrase accountName (Some W) w)
  = match decipher_update_final
            (mkCipher (Crypto.pbkdf2Sync W salt 100000 32) iv) encrypted with
    | inl _ => inl decrypt_failed
    | inr decrypted => inr (Utf8.decode decrypted)
    end.
Proof.
  intros HW Hname Hacc Hsalt Hiv.
  assert (Hstored : Base64.encode (salt ++ iv ++ encrypted) <> ""%string).
  { apply base64_encode_nonempty. intros Hnil.
    apply (f_equal (@length byte)) in Hnil. rewrite length_app in Hnil.
    cbn [length] in Hnil. lia. }
  rewrite (getSeedPhrase_encoded W accountName w name _ _
             HW Hname Hacc eq_refl Hstored eq_refl).
  rewrite base64_decode_encode.
  destruct (envelope_slices salt iv encrypted Hsalt Hiv) as (-> & -> & ->).
  unfold createDecipheriv.
  rewrite createCipheriv_ok by (assumption || apply pbkdf2Sync_length).
  destruct (decipher_update_final _ encrypted); reflexivity.
Qed.

(** Reading back, with a password [W2], a seed phrase stored under [W1]:
    the call returns a string or throws the one decryption error, and
    whenever [W2] derives the key that [W1] derived it returns the text of
    the bytes stored, which are the encoding of the seed phrase. *)
Lemma reveal_after_protect (S W1 W2 : string) (accountName : option string)
    (w : World) (name : string) :
  W1 <> ""%string -> W2 <> ""%string ->
  fst (resolve_name accountName w) = inr name ->
  let salt := fst (Crypto.randomBytes 16 (entropy w)) in
  let w1 := snd (setSeedPhrase S true (Some W1) accountName w) in
  (fst (getSeedPhrase accountName (Some W2) w1) = inl decrypt_failed \/
   exists s, fst (getSeedPhrase accountName (Some W2) w1) = inr s) /\
  (Crypto.pbkdf2Sync W2 salt 100000 32 = Crypto.pbkdf2Sync W1 salt 100000 32 ->
   fst (getSeedPhrase accountName (Some W2) w1) = inr (Utf8.decode (Utf8.encode S))).
Proof.
  intros HW1 HW2 Hname. cbv zeta.
  rewrite (setSeedPhrase_encode S W1 accountName w name HW1 Hname). cbn [snd].
  pose proof (randomBytes_length 16 (entropy w)) as Hsalt.
  pose proof (randomBytes_length 16 (snd (Crypto.randomBytes 16 (entropy w)))) as Hiv.
  match goal with
  | |- context [mkWorld ?env ?f ?e ?d] =>
      assert (Hname1 : fst (resolve_name accountName (mkWorld env f e d)) = inr name)
        by (rewrite <- Hname; apply resolve_name_ext; reflexivity);
      rewrite (getSeedPhrase_envelope W2 accountName (mkWorld env f e d) name _ _ _ _
                 HW2 Hname1 (lookup_insert_eq _ _ _) Hsalt Hiv)
  end.
  split.
  - destruct (decipher_update_final _ _); eauto.
  - intros ->. now rewrite decipher_cipher by exact Hiv.
Qed.

(** C2, as the code has it. For every secret string with no lone surrogate
    and every non-empty password, [setSeedPhrase(S, true, W, name)]
    succeeds and [getSeedPhrase(name, W)] then returns exactly [S].  The
    account is the one named, or the active account when no name is given.
    A lone surrogate in [S] is encrypted as U+FFFD, and read back as
    such. *)
Theorem C2_credential_cipher_round_trip (S W : string) (accountName : option string)
    (w : World) (name : string) :
  Utf8.well_formed S = true ->
  W <> ""%string ->
  fst (resolve_name accountName w) = inr name ->
  fst (setSeedPhrase S true (Some W) accountName w) = inr true /\
  fst (getSeedPhrase accountName (Some W)
         (snd (setSeedPhrase S true (Some W) accountName w))) = inr S.
Proof.
  intros HS HW Hname. split.
  - now rewrite (setSeedPhrase_encode S W accountName w name HW Hname).
  - pose proof (proj2 (reveal_after_protect S W W accountName w name HW HW Hname)
                  eq_refl) as Hread.
    now rewrite (decode_encode S HS) in Hread.
Qed.

(** C4, as the code has it. For every stored, encoded, non-empty seed phrase
    value whose base64 decoding has fewer than 32 bytes, and every non-empty
    password, [getSeedPhrase] first derives a key from the password and the
    bytes in the place of the salt, and then throws the same error as for a
    wrong password; there is no check of the length and no error of its
    own for the format. *)
Theorem C4_short_envelope (W : string) (accountName : option string)
    (w : World) (name : string) (account : Account) (stored : string) :
  W <> ""%string ->
  fst (resolve_name accountName w) = inr name ->
  accounts (file w) !! name = Some account ->
  seed_phrase account = Some stored ->
  stored <> ""%string ->
  seed_phrase_encoded account = true ->
  length (Base64.decode stored) < 32 ->
  getSeedPhrase accountName (Some W) w
  = (inl decrypt_failed,
     mkWorld (env_active_account w) (file w) (entropy w)
       (derivations w ++ [(W, firstn 16 (Base64.decode stored))])).
Proof.
  intros HW Hname Hacc Hseed Hstored Henc Hlen.
  rewrite (getSeedPhrase_encoded W accountName w name account stored)
    by assumption.
  unfold createDecipheriv, createCipheriv.
  rewrite length_take, length_drop.
  replace (16 `min` (length (Base64.decode stored) - 16) =? 16) with false
    by (symmetry; apply Nat.eqb_neq; lia).
  reflexivity.
Qed.

End ConfigFacts.

(** ** The retry executor *)

Section RetryFacts.
Import Utils.
Context {W T E : Type}.
Local Open Scope Z_scope.

(** The loop, one iteration at a time, as the source has it. *)
Lemma retry_loop_unfold (fn : Operation W T E) (maxRetries attempt : Z)
    (lastError : option E) (r : Run W E) :
  retry_loop fn maxRetries attempt lastError r =
    if attempt <? maxRetries then
      match fn (world r) with
      | (inr result, w) => (Resolved result, mkRun w (events r ++ [Invoke]))
      | (inl error, w) =>
          if attempt =? maxRetries - 1
          then (Rejected (Some error), mkRun w (events r ++ [Invoke]))
          else retry_loop fn maxRetries (attempt + 1) (Some error)
                 (mkRun w (events r ++ [Invoke;
                                        Warn (attempt + 1) error (2 ^ attempt * 1000 / 1000);
                                        Wait (2 ^ attempt * 1000)]))
      end
    else (Rejected lastError, r).
Proof.
  simp retry_loop.
  destruct (Z_lt_dec attempt maxRetries) as [Hlt|Hge]; cbn.
  - replace (attempt <? maxRetries) with true by (symmetry; apply Z.ltb_lt; lia).
    destruct (fn (world r)) as [[error|result] w]; cbn; [|reflexivity].
    destruct (Z.eq_dec attempt (maxRetries - 1)) as [Heq|Hne]; cbn.
    + replace (attempt =? maxRetries - 1) with true by (symmetry; apply Z.eqb_eq; lia).
      reflexivity.
    + replace (attempt =? maxRetries - 1) with false by (symmetry; apply Z.eqb_neq; lia).
      reflexivity.
  - replace (attempt <? maxRetries) with false by (symmetry; apply Z.ltb_ge; lia).
    reflexivity.
Qed.



(** C10. With [maxRetries] zero or negative the operation is never called:
    the promise is rejected with [null] and nothing at all is observed. *)
Theorem C10_retry_non_positive (fn : Operation W T E) (maxRetries : Z) (w : W) :
  maxRetries <= 0 ->
  retryWithBackoff fn maxRetries w = (Rejected None, mkRun w []) /\
  invocations (events (snd (retryWithBackoff fn maxRetries w))) = 0%nat.
Proof.
  intros H. unfold retryWithBackoff. rewrite retry_loop_unfold.
  replace (0 <? maxRetries) with false by (symmetry; apply Z.ltb_ge; lia).
  split; reflexivity.
Qed.

End RetryFacts.

(** * The theorems on sample data *)

Section Instances.
Import Bytes Crypto.

Lemma C1_witness :
  Ipfs.encryptionAvailable Samples.client = true /\
  exists K envelope e',
    Ipfs.encryptionKey Samples.client = Some K /\ length K = 32 /\
    Ipfs.encryptData Samples.client Samples.plaintext Samples.entropy = (inr envelope, e') /\
    Ipfs.decryptData Samples.client envelope = inr Samples.plaintext.
Proof.
  split; [reflexivity|].
  apply (C1_content_cipher_round_trip Samples.environment None (Some Samples.key)
           Samples.plaintext Samples.entropy).
  reflexivity.
Defined.

Lemma C9_witness :
  Ipfs.encryptionAvailable Samples.client = true /\
  fst (randomBytes 16 Samples.entropy)
    <> fst (randomBytes 16 (snd (randomBytes 16 Samples.entropy))) /\
  exists envelope1 envelope2,
    fst (Ipfs.encryptData Samples.client Samples.plaintext Samples.entropy)
      = inr envelope1 /\
    fst (Ipfs.encryptData Samples.client Samples.plaintext
           (snd (randomBytes 16 Samples.entropy))) = inr envelope2 /\
    firstn 16 envelope1 <> firstn 16 envelope2 /\
    envelope1 <> envelope2 /\
    Ipfs.decryptData Samples.client envelope1 = inr Samples.plaintext /\
    Ipfs.decryptData Samples.client envelope2 = inr Samples.plaintext.
Proof.
  assert (Hiv : fst (randomBytes 16 Samples.entropy)
                <> fst (randomBytes 16 (snd (randomBytes 16 Samples.entropy))))
    by (vm_compute; discriminate).
  split; [reflexivity|]. split; [exact Hiv|].
  apply (C9_distinct_ivs_distinct_envelopes Samples.environment None (Some Samples.key)
           Samples.plaintext Samples.entropy (snd (randomBytes 16 Samples.entropy))).
  - reflexivity.
  - exact Hiv.
Defined.

Lemma C5_witness :
  length Samples.short_key <> 32 /\
  Ipfs.encryptionAvailable
    (Ipfs.constructor Samples.environment None (Some Samples.short_key)) = false /\
  Ipfs.encryptData (Ipfs.constructor Samples.environment None (Some Samples.short_key))
    Samples.plaintext Samples.entropy
  = (inl Ipfs.not_available, Samples.entropy) /\
  Ipfs.decryptData (Ipfs.constructor Samples.environment None (Some Samples.short_key))
    Samples.plaintext
  = inl Ipfs.not_available.
Proof.
  assert (Hlen : length Samples.short_key <> 32) by (vm_compute; lia).
  split; [exact Hlen|].
  apply (C5_key_length_invariant Samples.environment None (Some Samples.short_key)
           Samples.short_key Samples.plaintext Samples.plaintext Samples.entropy).
  - left. reflexivity.
  - exact Hlen.
Defined.


(** C3 fails as stated: under one 32-byte key, an envelope of 5 bytes, an
    envelope of 17 bytes and an envelope whose block decrypts to a bad
    padding make [decryptData] throw errors with three different messages,
    each naming its cause. *)
Lemma C3_counterexample :
  Ipfs.decryptData Samples.client Samples.headless_envelope
  = inl (mkError "Error"
           "Decryption failed: TypeError: Invalid initialization vector. Incorrect key or corrupted data?") /\
  Ipfs.decryptData Samples.client Samples.truncated_envelope
  = inl (mkError "Error"
           "Decryption failed: Error: error:1C80006B:Provider routines::wrong final block length. Incorrect key or corrupted data?") /\
  Ipfs.decryptData Samples.client Samples.corrupted_envelope
  = inl (mkError "Error"
           "Decryption failed: Error: error:1C800064:Provider routines::bad decrypt. Incorrect key or corrupted data?") /\
  Ipfs.decryptData Samples.client Samples.truncated_envelope
  <> Ipfs.decryptData Samples.client Samples.corrupted_envelope /\
  Ipfs.decryptData Samples.client Samples.headless_envelope
  <> Ipfs.decryptData Samples.client Samples.truncated_envelope.
Proof.
  assert (H0 : Ipfs.decryptData Samples.client Samples.headless_envelope
               = inl (Ipfs.decryption_failed (js_error InvalidIV)))
    by (vm_compute; reflexivity).
  assert (H1 : Ipfs.decryptData Samples.client Samples.truncated_envelope
               = inl (Ipfs.decryption_failed (js_error WrongFinalBlockLength)))
    by (vm_compute; reflexivity).
  assert (H2 : Ipfs.decryptData Samples.client Samples.corrupted_envelope
               = inl (Ipfs.decryption_failed (js_error BadDecrypt)))
    by (vm_compute; reflexivity).
  rewrite H0, H1, H2. repeat split; discriminate.
Qed.

Lemma C3_witness :
  Ipfs.encryptionAvailable Samples.client = true /\
  Ipfs.decryptData Samples.client Samples.truncated_envelope
  = inl (Ipfs.decryption_failed (js_error WrongFinalBlockLength)) /\
  exists K cause,
    Ipfs.encryptionKey Samples.client = Some K /\ length K = 32 /\
    Ipfs.decryption_failed (js_error WrongFinalBlockLength)
    = mkError "Error"
        ("Decryption failed: " ++ toString (js_error cause)
         ++ ". Incorrect key or corrupted data?") /\
    ((cause = InvalidIV /\ length Samples.truncated_envelope < 16) \/
     (cause = WrongFinalBlockLength /\ 16 <= length Samples.truncated_envelope /\
      (length Samples.truncated_envelope = 16
       \/ (length Samples.truncated_envelope) mod 16 <> 0)) \/
     (cause = BadDecrypt /\ 32 <= length Samples.truncated_envelope /\
      (length Samples.truncated_envelope) mod 16 = 0 /\
      pkcs7_unpad (cbc_decrypt ((length Samples.truncated_envelope - 16) / 16) K
                     (firstn 16 Samples.truncated_envelope)
                     (skipn 16 Samples.truncated_envelope)) = None)).
Proof.
  assert (H : Ipfs.decryptData Samples.client Samples.truncated_envelope
              = inl (Ipfs.decryption_failed (js_error WrongFinalBlockLength)))
    by (vm_compute; reflexivity).
  split; [reflexivity|]. split; [exact H|].
  apply (C3_decryption_failure_message Samples.environment None (Some Samples.key)
           Samples.truncated_envelope).
  - reflexivity.
  - exact H.
Defined.

Lemma C2_witness :
  Utf8.well_formed Samples.seed = true /\
  "correct-password"%string <> ""%string /\
  fst (Config.resolve_name (Some "alice"%string) Samples.world) = inr "alice"%string /\
  fst (Config.setSeedPhrase Samples.seed true (Some "correct-password"%string)
         (Some "alice"%string) Samples.world) = inr true /\
  fst (Config.getSeedPhrase (Some "alice"%string) (Some "correct-password"%string)
         (snd (Config.setSeedPhrase Samples.seed true (Some "correct-password"%string)
                 (Some "alice"%string) Samples.world)))
  = inr Samples.seed.
Proof.
  split; [reflexivity|]. split; [discriminate|]. split; [reflexivity|].
  apply (C2_credential_cipher_round_trip Samples.seed "correct-password"
           (Some "alice"%string) Samples.world "alice").
  - reflexivity.
  - discriminate.
  - reflexivity.
Defined.

(** C2 fails as stated: the secret made of the one code unit U+D800, a
    surrogate with no partner, is stored with success under the password
    "correct-password", and read back under the same password as the
    character U+FFFD, which is another string. *)
Lemma C2_counterexample :
  "correct-password"%string <> ""%string /\
  fst (Config.setSeedPhrase Samples.lone_surrogate true (Some "correct-password"%string)
         (Some "alice"%string) Samples.world) = inr true /\
  fst (Config.getSeedPhrase (Some "alice"%string) (Some "correct-password"%string)
         (snd (Config.setSeedPhrase Samples.lone_surrogate true
                 (Some "correct-password"%string) (Some "alice"%string) Samples.world)))
  = inr (string_of_list_byte Utf8.replacement) /\
  string_of_list_byte Utf8.replacement <> Samples.lone_surrogate.
Proof.
  split; [discriminate|]. split; [|split; [|discriminate]].
  - rewrite (setSeedPhrase_encode Samples.lone_surrogate "correct-password"
               (Some "alice"%string) Samples.world "alice");
      [reflexivity | discriminate | reflexivity].
  - assert (H1 : "correct-password"%string <> ""%string) by discriminate.
    pose proof (proj2 (reveal_after_protect Samples.lone_surrogate "correct-password"
                         "correct-password" (Some "alice"%string) Samples.world "alice"
                         H1 H1 eq_refl) eq_refl) as Hread.
    exact Hread.
Qed.

(** C6, the code on a wrong password that it accepts.  The password
    "correct-password" and the same password followed by the character
    U+0000 are distinct and not empty; HMAC fills a key shorter than its
    block with zero bytes, so both derive the same key from every salt, and
    [getSeedPhrase] under the second returns the secret stored under the
    first, where it ought to throw "Failed to decrypt seed phrase: Invalid
    password or corrupted data". *)
Lemma C6_wrong_password_accepted :
  "correct-password"%string <> ""%string /\
  ("correct-password" ++ Bytes.NUL)%string <> ""%string /\
  "correct-password"%string <> ("correct-password" ++ Bytes.NUL)%string /\
  fst (Config.setSeedPhrase Samples.seed true (Some "correct-password"%string)
         (Some "alice"%string) Samples.world) = inr true /\
  fst (Config.getSeedPhrase (Some "alice"%string)
         (Some ("correct-password" ++ Bytes.NUL)%string)
         (snd (Config.setSeedPhrase Samples.seed true (Some "correct-password"%string)
                 (Some "alice"%string) Samples.world)))
  = inr Samples.seed /\
  fst (Config.getSeedPhrase (Some "alice"%string)
         (Some ("correct-password" ++ Bytes.NUL)%string)
         (snd (Config.setSeedPhrase Samples.seed true (Some "correct-password"%string)
                 (Some "alice"%string) Samples.world)))
  <> inl Config.decrypt_failed.
Proof.
  assert (H : fst (Config.getSeedPhrase (Some "alice"%string)
                     (Some ("correct-password" ++ Bytes.NUL)%string)
                     (snd (Config.setSeedPhrase Samples.seed true
                             (Some "correct-password"%string)
                             (Some "alice"%string) Samples.world)))
              = inr Samples.seed).
  { assert (H1 : "correct-password"%string <> ""%string) by discriminate.
    assert (H2 : ("correct-password" ++ Bytes.NUL)%string <> ""%string) by discriminate.
    assert (Hkey : pbkdf2Sync ("correct-password" ++ Bytes.NUL)
                     (fst (randomBytes 16 (Config.entropy Samples.world))) 100000 32
                   = pbkdf2Sync "correct-password"
                       (fst (randomBytes 16 (Config.entropy Samples.world))) 100000 32)
      by (apply pbkdf2Sync_nul; [reflexivity | vm_compute; lia]).
    pose proof (proj2 (reveal_after_protect Samples.seed "correct-password"
                         ("correct-password" ++ Bytes.NUL) (Some "alice"%string)
                         Samples.world "alice" H1 H2 eq_refl) Hkey) as Hread.
    now rewrite (decode_encode Samples.seed eq_refl) in Hread. }
  split; [discriminate|]. split; [discriminate|]. split; [discriminate|].
  split; [|split; [exact H | rewrite H; discriminate]].
  rewrite (setSeedPhrase_encode Samples.seed "correct-password"
             (Some "alice"%string) Samples.world "alice");
    [reflexivity | discriminate | reflexivity].
Qed.

(** C4 fails as stated: the stored value "AAAA" decodes to three bytes, and
    [getSeedPhrase] derives a key from the password and these bytes before it
    throws the error that a wrong password gets. *)
Lemma C4_counterexample :
  length (Base64.decode "AAAA") = 3 /\
  Config.getSeedPhrase (Some "alice"%string) (Some "pw"%string) Samples.short_world
  = (inl (mkError "Error"
            "Failed to decrypt seed phrase: Invalid password or corrupted data"),
     Config.mkWorld None
       (Config.mkConfigFile None {[ "alice"%string := Samples.short_account ]})
       Samples.entropy
       [("pw"%string, [Byte.x00; Byte.x00; Byte.x00])]).
Proof.
  split; [reflexivity|].
  rewrite (getSeedPhrase_encoded "pw" (Some "alice"%string) Samples.short_world
             "alice" Samples.short_account "AAAA");
    [reflexivity | discriminate | reflexivity | reflexivity | reflexivity
    | discriminate | reflexivity].
Qed.

Lemma C4_witness :
  "pw"%string <> ""%string /\
  fst (Config.resolve_name (Some "alice"%string) Samples.short_world) = inr "alice"%string /\
  Config.accounts (Config.file Samples.short_world) !! "alice"%string
  = Some Samples.short_account /\
  Config.seed_phrase Samples.short_account = Some "AAAA"%string /\
  "AAAA"%string <> ""%string /\
  Config.seed_phrase_encoded Samples.short_account = true /\
  length (Base64.decode "AAAA") < 32 /\
  Config.getSeedPhrase (Some "alice"%string) (Some "pw"%string) Samples.short_world
  = (inl Config.decrypt_failed,
     Config.mkWorld (Config.env_active_account Samples.short_world)
       (Config.file Samples.short_world) (Config.entropy Samples.short_world)
       (Config.derivations Samples.short_world
        ++ [("pw"%string, firstn 16 (Base64.decode "AAAA"))])).
Proof.
  assert (Hlen : length (Base64.decode "AAAA") < 32) by (vm_compute; lia).
  split; [discriminate|]. split; [reflexivity|]. split; [reflexivity|].
  split; [reflexivity|]. split; [discriminate|]. split; [reflexivity|].
  split; [exact Hlen|].
  apply (C4_short_envelope "pw" (Some "alice"%string) Samples.short_world "alice"
           Samples.short_account "AAAA").
  - discriminate.
  - reflexivity.
  - reflexivity.
  - reflexivity.
  - discriminate.
  - reflexivity.
  - exact Hlen.
Defined.



Lemma C10_witness :
  (-2 <= 0)%Z /\
  Utils.retryWithBackoff Samples.always_fails (-2) 0
  = (Utils.Rejected None, Utils.mkRun 0 []) /\
  Utils.invocations
    (Utils.events (snd (Utils.retryWithBackoff Samples.always_fails (-2) 0))) = 0.
Proof.
  split; [lia|].
  apply (C10_retry_non_positive Samples.always_fails (-2) 0). lia.
Defined.

End Instances.

(** * Further properties *)

(** ** The retry executor, for every operation and every bound *)

Section RetryMore.
Import Schedule.
Context {W T E : Type}.
Local Open Scope Z_scope.

Lemma invocations_app (l l' : list (Utils.Event E)) :
  Utils.invocations (l ++ l') = (Utils.invocations l + Utils.invocations l')%nat.
Proof.
  induction l as [|[] l IH]; cbn [app Utils.invocations]; rewrite ?IH; reflexivity.
Qed.

Lemma waits_app (l l' : list (Utils.Event E)) : Utils.waits (l ++ l') = Utils.waits l ++ Utils.waits l'.
Proof.
  induction l as [|[] l IH]; cbn [app Utils.waits]; rewrite ?IH; reflexivity.
Qed.

Lemma backoff_S (k : nat) : backoff (S k) = backoff k ++ [2 ^ Z.of_nat k * 1000].
Proof. unfold backoff. now rewrite seq_S, map_app. Qed.


Lemma world_after_S (fn : Utils.Operation W T E) (k : nat) (w : W) :
  world_after fn k (snd (fn w)) = world_after fn (S k) w.
Proof. unfold world_after. now rewrite Nat.iter_succ_r. Qed.


(** The loop keeps this shape of the trace: entered at [attempt] with as
    many calls and the timers of the schedule so far, it leaves with at
    most [maxRetries] calls and one timer less than calls. *)
Lemma retry_loop_trace (fn : Utils.Operation W T E) (maxRetries : Z) (n : nat) :
  forall (attempt : Z) (lastError : option E) (r : Utils.Run W E),
    Z.to_nat (maxRetries - attempt) = n ->
    0 <= attempt < maxRetries ->
    Utils.invocations (Utils.events r) = Z.to_nat attempt ->
    Utils.waits (Utils.events r) = backoff (Z.to_nat attempt) ->
    let r' := snd (Utils.retry_loop fn maxRetries attempt lastError r) in
    (Z.to_nat attempt < Utils.invocations (Utils.events r') <= Z.to_nat maxRetries)%nat /\
    Utils.waits (Utils.events r') = backoff (Utils.invocations (Utils.events r') - 1).
Proof.
  induction n as [|n IH]; intros attempt lastError r Hn Ha Hinv Hw; [lia|].
  cbv zeta.
  pose proof (retry_loop_unfold fn maxRetries attempt lastError r) as Hu.
  replace (attempt <? maxRetries) with true in Hu by (symmetry; apply Z.ltb_lt; lia).
  rewrite Hu. clear Hu.
  assert (Hdone : forall r2 : Utils.Run W E,
    Utils.events r2 = Utils.events r ++ [Utils.Invoke] ->
    (Z.to_nat attempt < Utils.invocations (Utils.events r2) <= Z.to_nat maxRetries)%nat /\
    Utils.waits (Utils.events r2) = backoff (Utils.invocations (Utils.events r2) - 1)).
  { intros r2 ->. rewrite invocations_app, waits_app, Hinv, Hw.
    cbn [Utils.invocations Utils.waits]. rewrite app_nil_r.
    replace (Z.to_nat attempt + 1 - 1)%nat with (Z.to_nat attempt) by lia.
    split; [lia | reflexivity]. }
  destruct (fn (Utils.world r)) as [[error|result] w]; [|now apply Hdone].
  destruct (Z.eqb_spec attempt (maxRetries - 1)) as [Hlast|Hmore]; [now apply Hdone|].
  match goal with
  | |- context [Utils.retry_loop fn maxRetries (attempt + 1) ?le ?run] =>
      specialize (IH (attempt + 1) le run)
  end.
  cbv zeta in IH. cbn [Utils.events] in IH.
  rewrite invocations_app, waits_app, Hinv, Hw in IH. cbn [Utils.invocations Utils.waits] in IH.
  replace (Z.to_nat (attempt + 1)) with (S (Z.to_nat attempt)) in IH by lia.
  rewrite backoff_S, Z2Nat.id in IH by lia.
  destruct IH as [[H1 H2] H3]; try lia; try reflexivity.
  split; [lia | exact H3].
Qed.






(** A first call that succeeds is the only call. *)
Lemma retry_first_call (fn : Utils.Operation W T E) (maxRetries : Z) (w w' : W) (v : T) :
  0 < maxRetries -> fn w = (inr v, w') ->
  Utils.retryWithBackoff fn maxRetries w = (Utils.Resolved v, Utils.mkRun w' [Utils.Invoke]).
Proof.
  intros Hpos Hfn. unfold Utils.retryWithBackoff.
  pose proof (retry_loop_unfold fn maxRetries 0 None (Utils.mkRun w [])) as Hu.
  replace (0 <? maxRetries) with true in Hu by (symmetry; apply Z.ltb_lt; lia).
  rewrite Hu. cbn [Utils.world Utils.events]. now rewrite Hfn.
Qed.

(** With no attempt allowed there is no call. *)
Lemma retry_no_call (fn : Utils.Operation W T E) (maxRetries : Z) (w : W) :
  maxRetries <= 0 ->
  Utils.retryWithBackoff fn maxRetries w = (Utils.Rejected None, Utils.mkRun w []).
Proof.
  intros Hneg. unfold Utils.retryWithBackoff.
  pose proof (retry_loop_unfold fn maxRetries 0 None (Utils.mkRun w [])) as Hu.
  replace (0 <? maxRetries) with false in Hu by (symmetry; apply Z.ltb_ge; lia).
  exact Hu.
Qed.







End RetryMore.

Section RetryInstances.
Local Open Scope Z_scope.



End RetryInstances.
(** ** The seed phrase functions: errors, frame and format *)

Lemma cipher_update_final_length (c : Crypto.Cipher) (data : Buffer) :
  length (Crypto.cipher_update_final c data) = 16 * (length data / 16 + 1).
Proof.
  unfold Crypto.cipher_update_final.
  now rewrite cbc_encrypt_length, pkcs7_pad_blocks.
Qed.

(** Two draws of 16 bytes are the next 32 bytes of the tape. *)
Lemma randomBytes_twice (e : Crypto.Entropy) :
  fst (Crypto.randomBytes 16 e) ++ fst (Crypto.randomBytes 16 (snd (Crypto.randomBytes 16 e)))
  = map (Crypto.tape e) (seq (Crypto.taken e) 32) /\
  Crypto.taken (snd (Crypto.randomBytes 16 (snd (Crypto.randomBytes 16 e))))
  = Crypto.taken e + 32.
Proof.
  unfold Crypto.randomBytes. cbn [fst snd Crypto.tape Crypto.taken]. split; [|lia].
  rewrite <- map_app. f_equal. now rewrite <- seq_app.
Qed.

Section SeedPhraseMore.
Import Bytes Crypto Config Accounts.

#[local] Opaque Crypto.cipher_update_final Crypto.decipher_update_final.
#[local] Opaque Base64.encode Base64.decode Crypto.randomBytes.

(** Resolving the account name never changes the world. *)
Lemma resolve_name_reads (accountName : option string) (w : World) :
  snd (resolve_name accountName w) = w.
Proof.
  unfold resolve_name, bind, getActiveAccount, ret, throw.
  destruct (truthy accountName).
  - destruct accountName as [n|]; cbn; [|reflexivity].
    destruct (negb (n =? "")%string); reflexivity.
  - destruct (env_active_account w) as [v|]; cbn.
    + destruct (negb (v =? "")%string); reflexivity.
    + destruct (active_account (file w)) as [v|]; cbn; [|reflexivity].
      destruct (negb (v =? "")%string); reflexivity.
Qed.

(** A name that is given and not empty is the name used. *)
Lemma resolve_name_some (n : string) (w : World) :
  n <> ""%string -> resolve_name (Some n) w = (inr n, w).
Proof.
  intros Hn. unfold resolve_name, bind, ret, throw. cbn.
  destruct (n =? "")%string eqn:He; [apply String.eqb_eq in He; contradiction|].
  cbn. now rewrite He.
Qed.

(** It fails in one way only. *)
Lemma resolve_name_error (accountName : option string) (w : World) (e : JsError) :
  fst (resolve_name accountName w) = inl e -> e = no_account.
Proof.
  unfold no_account, resolve_name, bind, getActiveAccount, ret, throw.
  destruct (truthy accountName).
  - destruct accountName as [n|]; cbn; [|congruence].
    destruct (negb (n =? "")%string); cbn; congruence.
  - destruct (env_active_account w) as [v|]; cbn.
    + destruct (negb (v =? "")%string); cbn; congruence.
    + destruct (active_account (file w)) as [v|]; cbn; [|congruence].
      destruct (negb (v =? "")%string); cbn; congruence.
Qed.

Lemma resolve_name_cases (accountName : option string) (w : World) :
  resolve_name accountName w = (inl no_account, w) \/
  exists name, resolve_name accountName w = (inr name, w) /\ name <> ""%string.
Proof.
  destruct (resolve_name accountName w) as [[e|name] w'] eqn:Hr.
  - left. pose proof (resolve_name_reads accountName w) as Hw.
    pose proof (resolve_name_error accountName w e) as He.
    rewrite Hr in Hw, He. cbn in Hw, He. now rewrite Hw, He.
  - right. exists name.
    destruct (resolve_name_world accountName w name) as [Hres Hne];
      [now rewrite Hr|].
    rewrite Hr in Hres. now split.
Qed.

(** The world that [setSeedPhrase] leaves when it does not encrypt. *)
Lemma setSeedPhrase_plain (S : string) (password accountName : option string)
    (w : World) (name : string) :
  fst (resolve_name accountName w) = inr name ->
  setSeedPhrase S false password accountName w
  = (inr true,
     mkWorld (env_active_account w)
       (mkConfigFile (active_account (file w))
          (<[name := mkAccount (Some S) false
                       (ss58_address (default empty_account (accounts (file w) !! name)))]>
             (accounts (file w))))
       (entropy w) (derivations w)).
Proof.
  intros Hname. destruct (resolve_name_world _ _ _ Hname) as [Hres _].
  unfold setSeedPhrase, bind at 1. rewrite Hres. reflexivity.
Qed.

(** Reading an entry that holds a seed phrase as it is. *)
Lemma getSeedPhrase_plain (S : string) (accountName password : option string)
    (w : World) (name : string) (address : option string) :
  fst (resolve_name accountName w) = inr name ->
  accounts (file w) !! name = Some (mkAccount (Some S) false address) ->
  getSeedPhrase accountName password w
  = (if (S =? "")%string
     then inl (mkError "Error" ("No seed phrase found for account '" ++ name ++ "'"))
     else inr S, w).
Proof.
  intros Hname Hacc. destruct (resolve_name_world _ _ _ Hname) as [Hres _].
  unfold getSeedPhrase, bind at 1. rewrite Hres.
  unfold bind at 1. unfold loadConfig. rewrite Hacc.
  cbn [seed_phrase seed_phrase_encoded truthy].
  destruct (S =? "")%string; reflexivity.
Qed.

(** X4. A seed phrase stored without encryption reads back as it was
    stored, whatever passwords are passed to either call; an empty one is
    stored and then reported as missing.  Neither call draws entropy or
    derives a key. *)
Theorem plain_seed_phrase_read_back (S : string) (password password' accountName : option string)
    (w : World) (name : string) :
  fst (resolve_name accountName w) = inr name ->
  let w1 := snd (setSeedPhrase S false password accountName w) in
  fst (setSeedPhrase S false password accountName w) = inr true /\
  getSeedPhrase accountName password' w1
  = (if (S =? "")%string
     then inl (mkError "Error" ("No seed phrase found for account '" ++ name ++ "'"))
     else inr S, w1) /\
  entropy w1 = entropy w /\ derivations w1 = derivations w.
Proof.
  intros Hname. cbv zeta.
  rewrite (setSeedPhrase_plain S password accountName w name Hname). cbn [fst snd].
  repeat split.
  apply getSeedPhrase_plain with (address :=
    ss58_address (default empty_account (accounts (file w) !! name))).
  - rewrite <- Hname. apply resolve_name_ext; reflexivity.
  - apply lookup_insert_eq.
Qed.

Lemma setSeedPhrase_no_password (S : string) (password accountName : option string)
    (w : World) (name : string) :
  resolve_name accountName w = (inr name, w) ->
  truthy password = false ->
  setSeedPhrase S true password accountName w
  = (inl (mkError "Error" "Password required for encrypting seed phrase"), w).
Proof.
  intros Hres Hpw. unfold setSeedPhrase, bind at 1. rewrite Hres.
  unfold bind at 1. unfold loadConfig. unfold bind at 1.
  destruct password as [pw|]; [rewrite Hpw|]; reflexivity.
Qed.

Lemma setSeedPhrase_no_name (S : string) (encode : bool) (password accountName : option string)
    (w : World) (e : JsError) :
  resolve_name accountName w = (inl e, w) ->
  setSeedPhrase S encode password accountName w = (inl e, w).
Proof. intros Hres. unfold setSeedPhrase, bind at 1. now rewrite Hres. Qed.

(** X5. Encrypting needs a password: with [encode] set and a password that
    is [null] or empty, [setSeedPhrase] throws and leaves the world as it
    was: nothing is written, no entropy is drawn, no key is derived.  The
    error is the one for a missing account name when no name resolves,
    the one for the missing password otherwise. *)
Theorem setSeedPhrase_requires_password (S : string) (password accountName : option string)
    (w : World) :
  truthy password = false ->
  setSeedPhrase S true password accountName w
  = (inl (match fst (resolve_name accountName w) with
          | inl _ => no_account
          | inr _ => mkError "Error" "Password required for encrypting seed phrase"
          end), w).
Proof.
  intros Hpw.
  destruct (resolve_name_cases accountName w) as [Hres | (name & Hres & _)].
  - rewrite (setSeedPhrase_no_name S true password accountName w _ Hres).
    now rewrite Hres.
  - rewrite (setSeedPhrase_no_password S password accountName w name Hres Hpw).
    now rewrite Hres.
Qed.

(** X6. [getSeedPhrase] only reads: whatever its arguments and whatever it
    returns or throws, it leaves the configuration file, the environment
    and the entropy source as they were; it derives at most one key, and
    none at all without a password. *)
Theorem getSeedPhrase_reads_only (accountName password : option string) (w : World) :
  let w1 := snd (getSeedPhrase accountName password w) in
  env_active_account w1 = env_active_account w /\
  file w1 = file w /\
  entropy w1 = entropy w /\
  (derivations w1 = derivations w \/
   exists pw salt, password = Some pw /\ pw <> ""%string /\
                   derivations w1 = derivations w ++ [(pw, salt)]) /\
  (truthy password = false -> w1 = w).
Proof.
  cbv zeta. remember (getSeedPhrase accountName password w) as r eqn:Hr.
  symmetry in Hr. revert Hr.
  destruct (resolve_name_cases accountName w) as [Hres | (name & Hres & _)];
    unfold getSeedPhrase, bind at 1; rewrite Hres;
    [intros <-; cbn; repeat split; now try left|].
  unfold bind at 1. unfold loadConfig.
  destruct (accounts (file w) !! name) as [account|];
    [|intros <-; cbn; repeat split; now try left].
  destruct (seed_phrase account) as [stored|];
    [|intros <-; cbn; repeat split; now try left].
  destruct (negb (truthy (Some stored)));
    [intros <-; cbn; repeat split; now try left|].
  destruct (negb (seed_phrase_encoded account));
    [intros <-; cbn; repeat split; now try left|].
  destruct password as [pw|]; [|intros <-; cbn; repeat split; now try left].
  destruct (truthy (Some pw)) eqn:Hpw; cbn [negb];
    [|intros <-; cbn; repeat split; now try left].
  assert (Hne : pw <> ""%string) by (intros ->; discriminate Hpw).
  unfold try_catch, bind, Config.pbkdf2Sync, lift, ret, throw.
  destruct (createDecipheriv _ _) as [err|decipher];
    [intros <-; cbn; repeat split; try reflexivity; try discriminate; right; eauto|].
  destruct (decipher_update_final _ _);
    intros <-; cbn; repeat split; try reflexivity; try discriminate; right; eauto.
Qed.

(** X7. [getSeedPhrase] throws one of five errors and nothing else: no
    account name, unknown account, no seed phrase, no password for an
    encoded seed phrase, and the one error for every failure of the
    decoding and decryption. *)
Theorem getSeedPhrase_errors (accountName password : option string) (w : World)
    (e : JsError) :
  fst (getSeedPhrase accountName password w) = inl e ->
  e = no_account \/
  (exists name, e = mkError "Error" ("Account '" ++ name ++ "' not found")) \/
  (exists name, e = mkError "Error" ("No seed phrase found for account '" ++ name ++ "'")) \/
  e = mkError "Error" "Password required for decrypting seed phrase" \/
  e = decrypt_failed.
Proof.
  destruct (resolve_name_cases accountName w) as [Hres | (name & Hres & _)];
    unfold getSeedPhrase, bind at 1; rewrite Hres; cbn [fst]; [intros [= <-]; now left|].
  unfold bind at 1. unfold loadConfig.
  destruct (accounts (file w) !! name) as [account|];
    [|cbn; intros [= <-]; right; left; eauto].
  destruct (seed_phrase account) as [stored|];
    [|cbn; intros [= <-]; right; right; left; eauto].
  destruct (negb (truthy (Some stored)));
    [cbn; intros [= <-]; right; right; left; eauto|].
  destruct (negb (seed_phrase_encoded account)); [cbn; discriminate|].
  destruct password as [pw|]; [|cbn; intros [= <-]; now auto 10].
  destruct (negb (truthy (Some pw))); [cbn; intros [= <-]; now auto 10|].
  unfold try_catch, bind, Config.pbkdf2Sync, lift, ret, throw.
  destruct (createDecipheriv _ _) as [err|decipher];
    [cbn; intros [= <-]; now auto 10|].
  destruct (decipher_update_final _ _); cbn; [intros [= <-]; now auto 10 | discriminate].
Qed.

(** X8. The frame of [setSeedPhrase]: it succeeds whenever an account name
    resolves and, for encryption, a password is given; when the name is
    none of those that every object inherits from [Object.prototype], it
    then changes the seed phrase and its flag in the one account and
    nothing else: the address of that account, every other account, the
    active account and the environment stay as they were. *)
Theorem setSeedPhrase_frame (S : string) (encode : bool) (password accountName : option string)
    (w : World) (name : string) :
  fst (resolve_name accountName w) = inr name ->
  Js.own_only name = true ->
  (encode = true -> truthy password = true) ->
  let w1 := snd (setSeedPhrase S encode password accountName w) in
  fst (setSeedPhrase S encode password accountName w) = inr true /\
  env_active_account w1 = env_active_account w /\
  active_account (file w1) = active_account (file w) /\
  (forall other, other <> name ->
     accounts (file w1) !! other = accounts (file w) !! other) /\
  exists account,
    accounts (file w1) !! name = Some account /\
    ss58_address account
    = ss58_address (default empty_account (accounts (file w) !! name)) /\
    seed_phrase_encoded account = encode /\
    (encode = false -> seed_phrase account = Some S).
Proof.
  intros Hname _ Hpw. cbv zeta. destruct encode.
  - specialize (Hpw eq_refl). destruct password as [pw|]; [|discriminate Hpw].
    assert (Hne : pw <> ""%string) by (intros ->; discriminate Hpw).
    rewrite (setSeedPhrase_encode S pw accountName w name Hne Hname). cbn [fst snd file accounts
      env_active_account active_account].
    repeat split.
    + intros other Hother. now apply lookup_insert_ne.
    + eexists. rewrite lookup_insert_eq. repeat split. discriminate.
  - rewrite (setSeedPhrase_plain S password accountName w name Hname). cbn [fst snd file accounts
      env_active_account active_account].
    repeat split.
    + intros other Hother. now apply lookup_insert_ne.
    + eexists. rewrite lookup_insert_eq. repeat split.
Qed.

(** X9. What [setSeedPhrase] stores when it encrypts: a non-empty base64
    text that decodes to 16 bytes of salt, 16 bytes of IV and the
    ciphertext, a whole number of 16-byte blocks and at least one, longer
    than the seed phrase by its padding of 1 to 16 bytes.  The salt and the
    IV are the next 32 bytes of the entropy source, and exactly one key is
    derived, from the password and that salt. *)
Theorem stored_seed_phrase_envelope (S W : string) (accountName : option string)
    (w : World) (name : string) :
  W <> ""%string ->
  fst (resolve_name accountName w) = inr name ->
  let w1 := snd (setSeedPhrase S true (Some W) accountName w) in
  exists account stored salt iv encrypted,
    accounts (file w1) !! name = Some account /\
    seed_phrase account = Some stored /\
    seed_phrase_encoded account = true /\
    stored <> ""%string /\
    Base64.decode stored = salt ++ iv ++ encrypted /\
    salt ++ iv = map (tape (entropy w)) (seq (taken (entropy w)) 32) /\
    length salt = 16 /\ length iv = 16 /\
    length encrypted = 16 * (length (list_byte_of_string S) / 16 + 1) /\
    taken (entropy w1) = taken (entropy w) + 32 /\
    derivations w1 = derivations w ++ [(W, salt)].
Proof.
  intros HW Hname. cbv zeta.
  rewrite (setSeedPhrase_encode S W accountName w name HW Hname). cbn [snd file accounts
    entropy derivations].
  pose proof (randomBytes_length 16 (entropy w)) as Hsalt.
  pose proof (randomBytes_length 16 (snd (Crypto.randomBytes 16 (entropy w)))) as Hiv.
  eexists _, _, (fst (Crypto.randomBytes 16 (entropy w))),
    (fst (Crypto.randomBytes 16 (snd (Crypto.randomBytes 16 (entropy w))))), _.
  rewrite lookup_insert_eq. cbn [seed_phrase seed_phrase_encoded].
  split; [reflexivity|]. split; [reflexivity|]. split; [reflexivity|].
  split.
  { apply base64_encode_nonempty. intros Hnil.
    apply (f_equal (@length byte)) in Hnil. rewrite length_app in Hnil.
    cbn [length] in Hnil. lia. }
  split; [apply base64_decode_encode|].
  split.
  { apply randomBytes_twice. }
  split; [exact Hsalt|]. split; [exact Hiv|].
  split.
  { rewrite <- encode_length. apply cipher_update_final_length. }
  split; [|reflexivity].
  apply randomBytes_twice.
Qed.

End SeedPhraseMore.

Section SeedPhraseInstances.
Import Bytes Crypto Config Accounts.

Lemma plain_seed_phrase_read_back_witness :
  fst (resolve_name (Some "alice") Samples.world) = inr "alice" /\
  let w1 := snd (setSeedPhrase Samples.seed false None (Some "alice") Samples.world) in
  fst (setSeedPhrase Samples.seed false None (Some "alice") Samples.world) = inr true /\
  getSeedPhrase (Some "alice") (Some "any") w1
  = (if (Samples.seed =? "")%string
     then inl (mkError "Error" ("No seed phrase found for account '" ++ "alice" ++ "'"))
     else inr Samples.seed, w1) /\
  entropy w1 = entropy Samples.world /\ derivations w1 = derivations Samples.world.
Proof.
  split; [reflexivity|].
  exact (plain_seed_phrase_read_back Samples.seed None (Some "any") (Some "alice")
           Samples.world "alice" eq_refl).
Defined.

Lemma setSeedPhrase_requires_password_witness :
  truthy (Some "") = false /\
  setSeedPhrase Samples.seed true (Some "") (Some "alice") Samples.world
  = (inl (match fst (resolve_name (Some "alice") Samples.world) with
          | inl _ => no_account
          | inr _ => mkError "Error" "Password required for encrypting seed phrase"
          end), Samples.world).
Proof.
  split; [reflexivity|].
  exact (setSeedPhrase_requires_password Samples.seed (Some "") (Some "alice")
           Samples.world eq_refl).
Defined.

Lemma getSeedPhrase_errors_witness :
  fst (getSeedPhrase (Some "bob") None Samples.short_world)
  = inl (mkError "Error" "Account 'bob' not found") /\
  (mkError "Error" "Account 'bob' not found" = no_account \/
   (exists name,
      mkError "Error" "Account 'bob' not found"
      = mkError "Error" ("Account '" ++ name ++ "' not found")) \/
   (exists name,
      mkError "Error" "Account 'bob' not found"
      = mkError "Error" ("No seed phrase found for account '" ++ name ++ "'")) \/
   mkError "Error" "Account 'bob' not found"
   = mkError "Error" "Password required for decrypting seed phrase" \/
   mkError "Error" "Account 'bob' not found" = decrypt_failed).
Proof.
  split; [reflexivity|].
  exact (getSeedPhrase_errors (Some "bob") None Samples.short_world _ eq_refl).
Defined.

Lemma setSeedPhrase_frame_witness :
  fst (resolve_name (Some "bob") Samples.short_world) = inr "bob" /\
  Js.own_only "bob" = true /\
  (false = true -> truthy None = true) /\
  let w1 := snd (setSeedPhrase Samples.seed false None (Some "bob") Samples.short_world) in
  fst (setSeedPhrase Samples.seed false None (Some "bob") Samples.short_world) = inr true /\
  env_active_account w1 = env_active_account Samples.short_world /\
  active_account (file w1) = active_account (file Samples.short_world) /\
  (forall other, other <> "bob" ->
     accounts (file w1) !! other = accounts (file Samples.short_world) !! other) /\
  exists account,
    accounts (file w1) !! "bob" = Some account /\
    ss58_address account
    = ss58_address (default empty_account (accounts (file Samples.short_world) !! "bob")) /\
    seed_phrase_encoded account = false /\
    (false = false -> seed_phrase account = Some Samples.seed).
Proof.
  split; [reflexivity|]. split; [reflexivity|]. split; [discriminate|].
  exact (setSeedPhrase_frame Samples.seed false None (Some "bob") Samples.short_world "bob"
           eq_refl eq_refl ltac:(discriminate)).
Defined.

Lemma stored_seed_phrase_envelope_witness :
  "pw" <> ""%string /\
  fst (resolve_name (Some "alice") Samples.world) = inr "alice" /\
  let w1 := snd (setSeedPhrase Samples.seed true (Some "pw") (Some "alice") Samples.world) in
  exists account stored salt iv encrypted,
    accounts (file w1) !! "alice" = Some account /\
    seed_phrase account = Some stored /\
    seed_phrase_encoded account = true /\
    stored <> ""%string /\
    Base64.decode stored = salt ++ iv ++ encrypted /\
    salt ++ iv = map (tape (entropy Samples.world)) (seq (taken (entropy Samples.world)) 32) /\
    length salt = 16 /\ length iv = 16 /\
    length encrypted = 16 * (length (list_byte_of_string Samples.seed) / 16 + 1) /\
    taken (entropy w1) = taken (entropy Samples.world) + 32 /\
    derivations w1 = derivations Samples.world ++ [("pw", salt)].
Proof.
  split; [discriminate|]. split; [reflexivity|].
  exact (stored_seed_phrase_envelope Samples.seed "pw" (Some "alice") Samples.world "alice"
           ltac:(discriminate) eq_refl).
Defined.

End SeedPhraseInstances.

(** ** The active account and the addresses *)

Section AccountsMore.
Import Bytes Crypto Config Accounts.

(** The address that [getAccountAddress] reports for an entry. *)
Lemma getAccountAddress_ext (a : option string) (w w' : World) :
  env_active_account w = env_active_account w' ->
  active_account (file w) = active_account (file w') ->
  (forall n, ss58_address (default empty_account (accounts (file w) !! n))
             = ss58_address (default empty_account (accounts (file w') !! n))) ->
  fst (getAccountAddress a w) = fst (getAccountAddress a w').
Proof.
  intros He Ha Hs. unfold getAccountAddress, bind, getActiveAccount, loadConfig, ret.
  assert (Hlook : forall n,
    fst (match accounts (file w) !! n with
         | Some account =>
             fun w1 : World =>
               (inr (if truthy (ss58_address account) then ss58_address account else None)
                  : JsError + option string, w1)
         | None => fun w1 : World => (inr None, w1)
         end w)
    = fst (match accounts (file w') !! n with
           | Some account =>
               fun w1 : World =>
                 (inr (if truthy (ss58_address account) then ss58_address account else None)
                    : JsError + option string, w1)
           | None => fun w1 : World => (inr None, w1)
           end w')).
  { intros n. specialize (Hs n).
    destruct (accounts (file w) !! n) as [x|], (accounts (file w') !! n) as [y|];
      cbn in *.
    - now rewrite Hs.
    - now rewrite Hs.
    - now rewrite <- Hs.
    - reflexivity. }
  destruct (truthy a) eqn:Ht.
  - destruct a as [n|]; [|discriminate Ht]. rewrite Ht. cbn [negb]. apply Hlook.
  - rewrite <- He, <- Ha. destruct (env_active_account w) as [v|].
    + destruct (negb (truthy (Some v))); [reflexivity | apply Hlook].
    + destruct (active_account (file w)) as [v|]; [|reflexivity].
      destruct (negb (truthy (Some v))); [reflexivity | apply Hlook].
Qed.

(** X10. The active account and the environment: after
    [setActiveAccount(n)] the active account is [n] unless the variable
    [HIPPIUS_SUBSTRATE_ACTIVE_ACCOUNT] is set, which wins.  A seed phrase
    then stored with no account name goes to that active account and
    reads back from it, by name and with no name; the account [n], when
    it is not the active one, is left as it was. *)
Theorem seed_phrase_goes_to_active_account (S n : string) (password : option string)
    (w : World) :
  let active := default n (env_active_account w) in
  active <> ""%string -> S <> ""%string ->
  let w1 := snd (setActiveAccount n w) in
  let w2 := snd (setSeedPhrase S false password None w1) in
  fst (getActiveAccount w1) = inr (Some active) /\
  fst (setSeedPhrase S false password None w1) = inr true /\
  fst (getSeedPhrase (Some active) None w2) = inr S /\
  fst (getSeedPhrase None None w2) = inr S /\
  (n <> active -> accounts (file w2) !! n = accounts (file w) !! n).
Proof.
  cbv zeta. intros Hactive HS.
  set (active := default n (env_active_account w)) in *.
  set (w1 := snd (setActiveAccount n w)).
  assert (Hget : fst (getActiveAccount w1) = inr (Some active)).
  { unfold getActiveAccount, w1, active. cbn. now destruct (env_active_account w). }
  assert (Hname : fst (resolve_name None w1) = inr active).
  { unfold resolve_name, bind. cbn [truthy].
    destruct (getActiveAccount w1) as [r w'] eqn:Hg. cbn [fst] in Hget. subst r.
    rewrite (truthy_some active Hactive). reflexivity. }
  split; [exact Hget|].
  rewrite (setSeedPhrase_plain S password None w1 active Hname). cbn [fst snd].
  split; [reflexivity|].
  apply String.eqb_neq in HS.
  split; [|split].
  - erewrite getSeedPhrase_plain;
      [ rewrite HS; reflexivity
      | now rewrite resolve_name_some
      | apply lookup_insert_eq ].
  - erewrite getSeedPhrase_plain;
      [ rewrite HS; reflexivity
      | rewrite <- Hname; apply resolve_name_ext; reflexivity
      | apply lookup_insert_eq ].
  - intros Hn. cbn [file accounts]. rewrite lookup_insert_ne by congruence. reflexivity.
Qed.

(** What [setSeedPhrase] can do to a world, whether it returns or throws. *)
Lemma setSeedPhrase_world (S : string) (encode : bool) (password accountName : option string)
    (w : World) :
  let w1 := snd (setSeedPhrase S encode password accountName w) in
  env_active_account w1 = env_active_account w /\
  active_account (file w1) = active_account (file w) /\
  forall n, ss58_address (default empty_account (accounts (file w1) !! n))
            = ss58_address (default empty_account (accounts (file w) !! n)).
Proof.
  cbv zeta.
  destruct (resolve_name_cases accountName w) as [Hres | (name & Hres & _)].
  - rewrite (setSeedPhrase_no_name S encode password accountName w _ Hres). now cbn.
  - assert (Hname : fst (resolve_name accountName w) = inr name) by now rewrite Hres.
    assert (Hins : forall (account : Account) n,
      ss58_address account
      = ss58_address (default empty_account (accounts (file w) !! name)) ->
      ss58_address (default empty_account (<[name := account]> (accounts (file w)) !! n))
      = ss58_address (default empty_account (accounts (file w) !! n))).
    { intros account n Haddr. destruct (decide (n = name)) as [->|Hne].
      - now rewrite lookup_insert_eq.
      - now rewrite lookup_insert_ne by congruence. }
    destruct encode; [destruct (truthy password) eqn:Hpw|].
    + destruct password as [pw|]; [|discriminate Hpw].
      assert (Hne : pw <> ""%string) by (intros ->; discriminate Hpw).
      rewrite (setSeedPhrase_encode S pw accountName w name Hne Hname).
      cbn [snd file accounts env_active_account active_account].
      repeat split. intros n. now apply Hins.
    + rewrite (setSeedPhrase_no_password S password accountName w name Hres Hpw). now cbn.
    + rewrite (setSeedPhrase_plain S password accountName w name Hname).
      cbn [snd file accounts env_active_account active_account].
      repeat split. intros n. now apply Hins.
Qed.

(** X11. [setSeedPhrase] never changes an address: whatever its arguments
    and whether it returns or throws, [getAccountAddress] answers for every
    account name, and for no name, as it did before. *)
Theorem setSeedPhrase_keeps_addresses (S : string) (encode : bool)
    (password accountName a : option string) (w : World) :
  fst (getAccountAddress a (snd (setSeedPhrase S encode password accountName w)))
  = fst (getAccountAddress a w).
Proof.
  destruct (setSeedPhrase_world S encode password accountName w) as (He & Ha & Hs).
  now apply getAccountAddress_ext.
Qed.

End AccountsMore.

Lemma seed_phrase_goes_to_active_account_witness :
  let active := default "bob" (Config.env_active_account Samples.world) in
  active <> ""%string /\ Samples.seed <> ""%string /\
  let w1 := snd (Accounts.setActiveAccount "bob" Samples.world) in
  let w2 := snd (Config.setSeedPhrase Samples.seed false None None w1) in
  fst (Config.getActiveAccount w1) = inr (Some active) /\
  fst (Config.setSeedPhrase Samples.seed false None None w1) = inr true /\
  fst (Config.getSeedPhrase (Some active) None w2) = inr Samples.seed /\
  fst (Config.getSeedPhrase None None w2) = inr Samples.seed /\
  ("bob" <> active ->
   Config.accounts (Config.file w2) !! "bob"
   = Config.accounts (Config.file Samples.world) !! "bob").
Proof.
  split; [discriminate|]. split; [discriminate|].
  exact (seed_phrase_goes_to_active_account Samples.seed "bob" None Samples.world
           ltac:(discriminate) ltac:(discriminate)).
Defined.
(** ** Configuration values and the encryption key *)

Section SettingsMore.
Import Bytes Crypto Settings.

Lemma encode_chars_length (l : Buffer) :
  length (Base64.encode_chars l) = 4 * ((length l + 2) / 3).
Proof.
  induction l as [|a|a b|a b c l IH] using list_ind3; try reflexivity.
  cbn [Base64.encode_chars length]. rewrite IH.
  replace (S (S (S (length l))) + 2) with (1 * 3 + (length l + 2)) by lia.
  rewrite Nat.div_add_l by discriminate. lia.
Qed.

Lemma length_string_of_list_ascii (l : list ascii) :
  String.length (string_of_list_ascii l) = length l.
Proof. induction l as [|c l IH]; cbn; [reflexivity | now rewrite IH]. Qed.

Lemma base64_encode_length (l : Buffer) :
  String.length (Base64.encode l) = 4 * ((length l + 2) / 3).
Proof. unfold Base64.encode. now rewrite length_string_of_list_ascii, encode_chars_length. Qed.

(** The names of the two variables that [getConfigValue] is asked for. *)
Lemma envKey_encryption_key :
  ("HIPPIUS_" ++ toUpperCase "encryption" ++ "_" ++ toUpperCase "encryption_key")%string
  = "HIPPIUS_ENCRYPTION_ENCRYPTION_KEY"%string.
Proof. reflexivity. Qed.

Lemma envKey_encrypt_by_default :
  ("HIPPIUS_" ++ toUpperCase "encryption" ++ "_" ++ toUpperCase "encrypt_by_default")%string
  = "HIPPIUS_ENCRYPTION_ENCRYPT_BY_DEFAULT"%string.
Proof. reflexivity. Qed.


Lemma encryption_key_first_variable (s : Settings) (k : string) :
  env s !! "HIPPIUS_ENCRYPTION_KEY" = Some k -> k <> ""%string ->
  getEncryptionKey s = Some (Base64.decode k).
Proof.
  intros Henv Hk%String.eqb_neq. unfold getEncryptionKey. now rewrite Henv, Hk.
Qed.

(** X13. A key set in the environment is the key used, whatever the file
    holds.  [HIPPIUS_ENCRYPTION_KEY] is read first when it is not empty;
    failing that, the variable that [getConfigValue] reads for the section
    and key, [HIPPIUS_ENCRYPTION_ENCRYPTION_KEY], and that one even when
    it is empty: it then hides the key of the file and there is no key. *)
Theorem encryption_key_from_environment (s : Settings) (k : string) :
  (env s !! "HIPPIUS_ENCRYPTION_KEY" = Some k /\ k <> ""%string) \/
  ((env s !! "HIPPIUS_ENCRYPTION_KEY" = None \/ env s !! "HIPPIUS_ENCRYPTION_KEY" = Some ""%string) /\
   env s !! "HIPPIUS_ENCRYPTION_ENCRYPTION_KEY" = Some k) ->
  getEncryptionKey s = if (k =? "")%string then None else Some (Base64.decode k).
Proof.
  unfold getEncryptionKey, getConfigValue. rewrite envKey_encryption_key.
  intros [[-> Hk] | [[-> | ->] ->]].
  - apply String.eqb_neq in Hk. now rewrite Hk.
  - cbn [truthy]. now destruct (k =? "")%string.
  - cbn [truthy String.eqb negb]. now destruct (k =? "")%string.
Qed.

(** With neither variable set the file is read: a non-empty string is
    decoded; [null], an empty string, a number or a boolean give no key. *)
Lemma encryption_key_from_file (s : Settings) :
  env s !! "HIPPIUS_ENCRYPTION_KEY" = None ->
  env s !! "HIPPIUS_ENCRYPTION_ENCRYPTION_KEY" = None ->
  getEncryptionKey s
  = match config s !! "encryption" ≫= (.!! "encryption_key") with
    | Some (VString k) => if (k =? "")%string then None else Some (Base64.decode k)
    | _ => None
    end.
Proof.
  unfold getEncryptionKey, getConfigValue. rewrite envKey_encryption_key.
  intros -> ->.
  destruct (config s !! "encryption") as [sec|]; cbn; [|reflexivity].
  destruct (sec !! "encryption_key") as [[|b|n|k]|]; cbn; try reflexivity.
  - now destruct b.
  - now destruct (n =? 0)%Z.
  - now destruct (k =? "")%string.
Qed.

(** X14. A generated key works: the text that [generateEncryptionKey]
    returns has 44 characters and decodes to the 32 bytes drawn; set as
    [HIPPIUS_ENCRYPTION_KEY], it makes encryption available on a client
    constructed with no key argument, which then holds those 32 bytes, and
    on that client [decryptData] undoes [encryptData]. *)
Theorem generated_key_enables_encryption (s : Settings) (e e' : Entropy) (P : Buffer) :
  let k := fst (generateEncryptionKey e) in
  env s !! "HIPPIUS_ENCRYPTION_KEY" = Some k ->
  let client := Ipfs.constructor (environment s true) None None in
  String.length k = 44 /\
  Base64.decode k = fst (randomBytes 32 e) /\
  Ipfs.encryptionKey client = Some (fst (randomBytes 32 e)) /\
  Ipfs.encryptionAvailable client = true /\
  exists envelope,
    fst (Ipfs.encryptData client P e') = inr envelope /\
    Ipfs.decryptData client envelope = inr P.
Proof.
  cbv zeta. intros Henv.
  pose proof (randomBytes_length 32 e) as Hlen.
  unfold generateEncryptionKey in *.
  destruct (randomBytes 32 e) as [key e1]. cbn [fst snd] in *.
  assert (Hne : Base64.encode key <> ""%string).
  { apply base64_encode_nonempty. intros ->. discriminate Hlen. }
  assert (Hkey : getEncryptionKey s = Some key).
  { rewrite (encryption_key_first_variable s (Base64.encode key) Henv Hne).
    now rewrite base64_decode_encode. }
  assert (Hclient : Ipfs.constructor (environment s true) None None
                    = Ipfs.mkIPFSClient
                        (truthy (getConfigValue s "encryption" "encrypt_by_default" (VBool false)))
                        (Some key) true).
  { unfold Ipfs.constructor, environment. cbn [Ipfs.crypto_support Ipfs.config_encryption_key
      Ipfs.config_encrypt_by_default]. now rewrite Hkey, Hlen. }
  rewrite Hclient. cbn [Ipfs.encryptionKey Ipfs.encryptionAvailable].
  split; [now rewrite base64_encode_length, Hlen|].
  split; [apply base64_decode_encode|].
  split; [reflexivity|]. split; [reflexivity|].
  eexists. split.
  - now rewrite (encryptData_ok _ key P e') by (reflexivity || exact Hlen).
  - apply decryptData_envelope with (K := key);
      first [exact Hlen | apply randomBytes_length | reflexivity].
Qed.

(** X15. The default for encrypting read from the environment: the variable
    [HIPPIUS_ENCRYPTION_ENCRYPT_BY_DEFAULT] is read as a string and used
    for its truthiness, so that any non-empty text, the text false
    included, makes a client constructed with no explicit choice encrypt
    by default, whatever the file says; an explicit argument wins over
    both. *)
Theorem encrypt_by_default_from_environment (s : Settings) (v : string)
    (key : option Buffer) (choice : bool) :
  env s !! "HIPPIUS_ENCRYPTION_ENCRYPT_BY_DEFAULT" = Some v ->
  Ipfs.encryptByDefault (Ipfs.constructor (environment s true) None key)
  = negb (v =? "")%string /\
  Ipfs.encryptByDefault (Ipfs.constructor (environment s true) (Some choice) key)
  = choice.
Proof.
  intros Henv. unfold Ipfs.constructor, environment, getConfigValue.
  rewrite envKey_encrypt_by_default.
  rewrite Henv. cbn. split; reflexivity.
Qed.

End SettingsMore.


Lemma encryption_key_from_environment_witness :
  ((Settings.env (Settings.mkSettings {[ "HIPPIUS_ENCRYPTION_ENCRYPTION_KEY" := "" ]} ∅)
      !! "HIPPIUS_ENCRYPTION_KEY" = Some ""%string /\ ""%string <> ""%string) \/
   ((Settings.env (Settings.mkSettings {[ "HIPPIUS_ENCRYPTION_ENCRYPTION_KEY" := "" ]} ∅)
       !! "HIPPIUS_ENCRYPTION_KEY" = None \/
     Settings.env (Settings.mkSettings {[ "HIPPIUS_ENCRYPTION_ENCRYPTION_KEY" := "" ]} ∅)
       !! "HIPPIUS_ENCRYPTION_KEY" = Some ""%string) /\
    Settings.env (Settings.mkSettings {[ "HIPPIUS_ENCRYPTION_ENCRYPTION_KEY" := "" ]} ∅)
      !! "HIPPIUS_ENCRYPTION_ENCRYPTION_KEY" = Some ""%string)) /\
  Settings.getEncryptionKey
    (Settings.mkSettings {[ "HIPPIUS_ENCRYPTION_ENCRYPTION_KEY" := "" ]} ∅)
  = if ("" =? "")%string then None else Some (Base64.decode "").
Proof.
  split.
  - right. split; [left|]; reflexivity.
  - apply (encryption_key_from_environment
             (Settings.mkSettings {[ "HIPPIUS_ENCRYPTION_ENCRYPTION_KEY" := "" ]} ∅) "").
    right. split; [left|]; reflexivity.
Defined.

Lemma generated_key_enables_encryption_witness :
  let s := Settings.mkSettings
             {[ "HIPPIUS_ENCRYPTION_KEY" := fst (Settings.generateEncryptionKey Samples.entropy) ]}
             ∅ in
  let k := fst (Settings.generateEncryptionKey Samples.entropy) in
  Settings.env s !! "HIPPIUS_ENCRYPTION_KEY" = Some k /\
  let client := Ipfs.constructor (Settings.environment s true) None None in
  String.length k = 44 /\
  Base64.decode k = fst (Crypto.randomBytes 32 Samples.entropy) /\
  Ipfs.encryptionKey client = Some (fst (Crypto.randomBytes 32 Samples.entropy)) /\
  Ipfs.encryptionAvailable client = true /\
  exists envelope,
    fst (Ipfs.encryptData client Samples.plaintext Samples.entropy) = inr envelope /\
    Ipfs.decryptData client envelope = inr Samples.plaintext.
Proof.
  split; [reflexivity|].
  exact (generated_key_enables_encryption
           (Settings.mkSettings
              {[ "HIPPIUS_ENCRYPTION_KEY" := fst (Settings.generateEncryptionKey Samples.entropy) ]}
              ∅)
           Samples.entropy Samples.entropy Samples.plaintext eq_refl).
Defined.

Lemma encrypt_by_default_from_environment_witness :
  let s := Settings.mkSettings {[ "HIPPIUS_ENCRYPTION_ENCRYPT_BY_DEFAULT" := "false" ]} ∅ in
  Settings.env s !! "HIPPIUS_ENCRYPTION_ENCRYPT_BY_DEFAULT" = Some "false"%string /\
  Ipfs.encryptByDefault (Ipfs.constructor (Settings.environment s true) None (Some Samples.key))
  = negb ("false" =? "")%string /\
  Ipfs.encryptByDefault
    (Ipfs.constructor (Settings.environment s true) (Some false) (Some Samples.key))
  = false.
Proof.
  split; [reflexivity|].
  exact (encrypt_by_default_from_environment
           (Settings.mkSettings {[ "HIPPIUS_ENCRYPTION_ENCRYPT_BY_DEFAULT" := "false" ]} ∅)
           "false" (Some Samples.key) false eq_refl).
Defined.
(** ** Sizes and content identifiers as text *)

Section FormatFacts.
Import Format.
Local Open Scope N_scope.

Example formatSize_of_the_tests :
  map formatSize [0; 1; 999; 1024; 1536; 10240; 1048576; 5242880; 1073741824; 10737418240]
  = ["0 B"; "1 B"; "999 B"; "1.00 KB"; "1.50 KB"; "10.00 KB"; "1.00 MB"; "5.00 MB";
     "1.00 GB"; "10.00 GB"]%string.
Proof. vm_compute. reflexivity. Qed.

Example formatSize_just_below_a_unit :
  map formatSize [1023; 1048575; 1073741823]
  = ["1023 B"; "1024.00 KB"; "1024.00 MB"]%string.
Proof. vm_compute. reflexivity. Qed.

Lemma digit_value_digit (d : N) : d < 10 -> digit_value (digit d) = Some d.
Proof.
  intros Hd. unfold digit_value, digit.
  rewrite N_ascii_embedding by lia.
  replace ((48 <=? 48 + d) && (48 + d <=? 57)) with true
    by (symmetry; apply andb_true_iff; split; apply N.leb_le; lia).
  f_equal. lia.
Qed.

Lemma digit_not_point (d : N) : d < 10 -> Ascii.eqb (digit d) "."%char = false.
Proof.
  intros Hd. apply Ascii.eqb_neq. intros He.
  apply (f_equal N_of_ascii) in He. unfold digit in He.
  rewrite N_ascii_embedding in He by lia. cbn in He. lia.
Qed.

Lemma read_digits_app (l : list ascii) (c : ascii) (acc : N) :
  read_digits acc (l ++ [c])
  = match read_digits acc l, digit_value c with
    | Some a, Some d => Some (10 * a + d)
    | _, _ => None
    end.
Proof.
  revert acc. induction l as [|x l IH]; intros acc; cbn [app read_digits].
  - now destruct (digit_value c).
  - destruct (digit_value x); [apply IH|reflexivity].
Qed.

(** The digits printed are digits, none is a point, there is at least one,
    and they read back as the number. *)
Lemma digits_read_back (fuel : nat) (n : N) :
  n < 2 ^ N.of_nat (S fuel) ->
  digits (S fuel) n <> [] /\
  read_digits 0 (digits (S fuel) n) = Some n /\
  forallb (fun c => negb (Ascii.eqb c "."%char)) (digits (S fuel) n) = true.
Proof.
  assert (Hsmall : forall fuel n, n < 10 ->
    digits (S fuel) n <> [] /\
    read_digits 0 (digits (S fuel) n) = Some n /\
    forallb (fun c => negb (Ascii.eqb c "."%char)) (digits (S fuel) n) = true).
  { intros f m Hlt. cbn [digits].
    replace (m <? 10) with true by (symmetry; apply N.ltb_lt; exact Hlt).
    repeat split; [discriminate| |].
    - cbn [read_digits]. rewrite digit_value_digit by exact Hlt. f_equal; lia.
    - cbn [forallb]. now rewrite digit_not_point. }
  revert n. induction fuel as [|fuel IH]; intros n Hn.
  - apply Hsmall. cbn in Hn. lia.
  - destruct (N.ltb_spec n 10) as [Hlt|Hge]; [now apply Hsmall|].
    assert (Hq : n / 10 < 2 ^ N.of_nat (S fuel)).
    { rewrite (Nat2N.inj_succ (S fuel)), N.pow_succ_r' in Hn.
      apply N.Div0.div_lt_upper_bound. lia. }
    destruct (IH _ Hq) as (Hne & Hread & Hpt).
    pose proof (N.mod_upper_bound n 10 ltac:(lia)) as Hm.
    change (digits (S (S fuel)) n)
      with (if n <? 10 then [digit n] else digits (S fuel) (n / 10) ++ [digit (n mod 10)]).
    replace (n <? 10) with false by (symmetry; apply N.ltb_ge; exact Hge).
    repeat split.
    + intros He. apply app_eq_nil in He. destruct He as [_ He]. discriminate He.
    + rewrite read_digits_app, Hread, digit_value_digit by exact Hm.
      f_equal. rewrite (N.div_mod' n 10) at 3. lia.
    + rewrite forallb_app, Hpt. cbn [forallb]. now rewrite digit_not_point.
Qed.

Lemma fuel_suffices (n : N) : n < 2 ^ N.of_nat (S (N.to_nat (N.log2 n))).
Proof.
  rewrite Nat2N.inj_succ, N2Nat.id.
  destruct n as [|p]; [reflexivity|]. apply N.log2_spec. lia.
Qed.

Lemma read_decimal_decimal (n : N) : read_decimal (decimal n) = Some n.
Proof.
  unfold read_decimal, decimal. rewrite list_ascii_of_string_of_list_ascii.
  destruct (digits_read_back _ n (fuel_suffices n)) as (Hne & Hread & _).
  destruct (digits _ n); [contradiction | exact Hread].
Qed.

Lemma split_point_digits (l : list ascii) (rest : string) :
  forallb (fun c => negb (Ascii.eqb c "."%char)) l = true ->
  split_point (string_of_list_ascii l ++ String "." rest)
  = (string_of_list_ascii l, Some rest).
Proof.
  induction l as [|c l IH]; intros H; cbn [string_of_list_ascii forallb] in *.
  - reflexivity.
  - apply andb_true_iff in H. destruct H as [Hc Hl].
    apply negb_true_iff in Hc.
    change (split_point (String c (string_of_list_ascii l ++ String "." rest))
            = (String c (string_of_list_ascii l), Some rest)).
    cbn [split_point]. rewrite Hc, (IH Hl). reflexivity.
Qed.

Lemma read_hundredths_toFixed2 (num den : N) :
  read_hundredths (toFixed2 num den) = Some ((200 * num + den) / (2 * den)).
Proof.
  unfold toFixed2, read_hundredths. cbv zeta.
  set (n := (200 * num + den) / (2 * den)).
  unfold decimal at 1.
  destruct (digits_read_back _ (n / 100) (fuel_suffices (n / 100))) as (_ & _ & Hpt).
  change ("." ++ String (digit (n mod 100 / 10)) (String (digit (n mod 10)) ""))%string
    with (String "." (String (digit (n mod 100 / 10)) (String (digit (n mod 10)) ""))).
  rewrite (split_point_digits _ _ Hpt).
  fold (decimal (n / 100)). rewrite read_decimal_decimal.
  pose proof (N.mod_upper_bound n 100 ltac:(lia)) as Hm.
  rewrite !digit_value_digit.
  - f_equal.
    assert (H10 : n mod 10 = (n mod 100) mod 10).
    { rewrite (N.Div0.mod_mul_r n 10 10) at 1.
      replace (10 * 10) with 100 in * by reflexivity.
      rewrite (N.mul_comm 10), N.Div0.mod_add. now rewrite N.Div0.mod_mod.  }
    rewrite H10.
    pose proof (N.div_mod' (n mod 100) 10). pose proof (N.div_mod' n 100). lia.
  - apply N.mod_upper_bound. lia.
  - apply N.Div0.div_lt_upper_bound. lia.
Qed.

(** X16. [formatSize] prints a size, a whole number of bytes below [2^53],
    in the largest of the units B, KB, MB, GB that it reaches: below 1024
    the number of bytes itself; otherwise the size divided by the unit,
    rounded to the nearest hundredth with a tie going up and printed with
    two decimals.  Read back, the number printed is between 1.00 and
    1024.00 for KB and MB: a size just below the next unit prints as
    1024.00 of the smaller one. *)
Theorem formatSize_reads_back (sizeBytes : N) :
  sizeBytes < 2 ^ 53 ->
  exists (text unit : string) (den : N),
    formatSize sizeBytes = (text ++ unit)%string /\
    (unit, den) = (if sizeBytes <? 1024 then (" B"%string, 1)
                   else if sizeBytes <? 1024 ^ 2 then (" KB"%string, 1024)
                   else if sizeBytes <? 1024 ^ 3 then (" MB"%string, 1024 ^ 2)
                   else (" GB"%string, 1024 ^ 3)) /\
    if sizeBytes <? 1024 then read_decimal text = Some sizeBytes
    else exists r,
      read_hundredths text = Some r /\
      2 * den * r <= 200 * sizeBytes + den < 2 * den * (r + 1) /\
      100 <= r /\ (sizeBytes < 1024 ^ 3 -> r <= 102400).
Proof.
  intros _. unfold formatSize.
  change (1024 * 1024 * 1024) with (1024 ^ 3). change (1024 * 1024) with (1024 ^ 2).
  assert (Hround : forall den, 0 < den -> den <= sizeBytes ->
    let r := (200 * sizeBytes + den) / (2 * den) in
    2 * den * r <= 200 * sizeBytes + den < 2 * den * (r + 1) /\ 100 <= r /\
    (sizeBytes < 1024 * den -> r <= 102400)).
  { intros den Hden Hle r.
    pose proof (N.div_mod' (200 * sizeBytes + den) (2 * den)) as Hdm.
    pose proof (N.mod_upper_bound (200 * sizeBytes + den) (2 * den) ltac:(lia)) as Hmod.
    fold r in Hdm.
    set (m := (200 * sizeBytes + den) mod (2 * den)) in *. clearbody r m.
    repeat split.
    - lia.
    - lia.
    - destruct (N.le_gt_cases 100 r) as [Hr|Hr]; [exact Hr|].
      assert (den * r <= den * 99) by (apply N.mul_le_mono_l; lia). lia.
    - intros Hlt. destruct (N.le_gt_cases r 102400) as [Hr|Hr]; [exact Hr|].
      assert (den * 102401 <= den * r) by (apply N.mul_le_mono_l; lia). lia. }
  destruct (N.ltb_spec sizeBytes 1024) as [H1|H1].
  - exists (decimal sizeBytes), " B"%string, 1. repeat split. apply read_decimal_decimal.
  - destruct (N.ltb_spec sizeBytes (1024 ^ 2)) as [H2|H2];
      [|destruct (N.ltb_spec sizeBytes (1024 ^ 3)) as [H3|H3]].
    + exists (toFixed2 sizeBytes 1024), " KB"%string, 1024. repeat split.
      eexists. split; [apply read_hundredths_toFixed2|].
      destruct (Hround 1024 ltac:(lia) H1) as (Ha & Hb & Hc).
      repeat split; try apply Ha; try exact Hb. intros _. apply Hc. exact H2.
    + exists (toFixed2 sizeBytes (1024 ^ 2)), " MB"%string, (1024 ^ 2). repeat split.
      eexists. split; [apply read_hundredths_toFixed2|].
      destruct (Hround (1024 ^ 2) ltac:(lia) H2) as (Ha & Hb & Hc).
      repeat split; try apply Ha; try exact Hb. intros _. apply Hc. exact H3.
    + exists (toFixed2 sizeBytes (1024 ^ 3)), " GB"%string, (1024 ^ 3). repeat split.
      eexists. split; [apply read_hundredths_toFixed2|].
      destruct (Hround (1024 ^ 3) ltac:(lia) H3) as (Ha & Hb & Hc).
      repeat split; try apply Ha; try exact Hb. intros Hlt. lia.
Qed.

Lemma formatSize_reads_back_witness :
  1536 < 2 ^ 53 /\
  formatSize 1536 = "1.50 KB"%string /\
  exists (text unit : string) (den : N),
    formatSize 1536 = (text ++ unit)%string /\
    (unit, den) = (if 1536 <? 1024 then (" B"%string, 1)
                   else if 1536 <? 1024 ^ 2 then (" KB"%string, 1024)
                   else if 1536 <? 1024 ^ 3 then (" MB"%string, 1024 ^ 2)
                   else (" GB"%string, 1024 ^ 3)) /\
    if 1536 <? 1024 then read_decimal text = Some 1536
    else exists r,
      read_hundredths text = Some r /\
      2 * den * r <= 200 * 1536 + den < 2 * den * (r + 1) /\
      100 <= r /\ (1536 < 1024 ^ 3 -> r <= 102400).
Proof.
  split; [reflexivity|]. split; [reflexivity|].
  apply (formatSize_reads_back 1536). reflexivity.
Defined.

Lemma formatCid_eq (cid : string) : formatCid cid = cid.
Proof.
  unfold formatCid, hexToIpfsCid.
  destruct (String.eqb_spec cid ""%string) as [->|_]; [reflexivity|].
  destruct (String.prefix "Qm" cid || String.prefix "bafy" cid); [reflexivity|].
  now destruct (is_hex cid).
Qed.

(** X17. [formatCid] changes nothing: it returns its argument for every
    string, the hexadecimal ones included, for which the conversion is a
    placeholder. *)
Theorem formatCid_identity (cid : string) :
  formatCid cid = cid /\ (is_hex cid = true -> hexToIpfsCid cid = cid).
Proof.
  split; [|reflexivity]. unfold formatCid, hexToIpfsCid.
  destruct (String.eqb cid "") eqn:He; [now apply String.eqb_eq in He|].
  destruct (String.prefix "Qm" cid || String.prefix "bafy" cid), (is_hex cid); reflexivity.
Qed.

End FormatFacts.
(** ** [IPFSCore] and the network methods of [IPFSClient] *)

Section CoreFacts.
Import Crypto Http Node Core Wire.

(** One request and its answer. *)
Lemma fetch_answer (request : Request) (w : World) :
  fetch request w
  = (match answer w request with
     | Failed e => inl (ThrownError e)
     | Responded response => inr response
     end, sending w request).
Proof.
  unfold fetch, Http.fetch, answer, sending.
  now destruct (server (net w) (sent (net w) ++ [request])).
Qed.

(** The shared part of the uploads, whatever it is called with. *)
Lemma post_add_caught (this : IPFSCore) (what : string) (content : Buffer)
    (fileName : string) (w : World) :
  try_catch (post_add this what content fileName) (fun _ => ret fallback) w
  = (inr (uploaded (answer w (add_request this fileName content))),
     sending w (add_request this fileName content)).
Proof.
  unfold try_catch, post_add, bind. fold (add_request this fileName content).
  rewrite fetch_answer. unfold uploaded.
  destruct (answer w _) as [e|response]; [reflexivity|].
  destruct (ok response); [|reflexivity]. cbn [negb].
  unfold Core.json. destruct (Http.json response); reflexivity.
Qed.

Lemma addFile_caught (this : IPFSCore) (filePath : string) (w : World) :
  addFile this filePath w
  = match Fs.readFileSync filePath (files w) with
    | inr fileContent =>
        (inr (uploaded (answer w (add_request this (Fs.basename filePath) fileContent))),
         sending w (add_request this (Fs.basename filePath) fileContent))
    | inl _ => (inr fallback, w)
    end.
Proof.
  unfold addFile.
  destruct (Fs.readFileSync filePath (files w)) as [e|fileContent] eqn:Hread.
  - unfold try_catch, bind, readFileSync. rewrite Hread. reflexivity.
  - rewrite <- (post_add_caught this "file" fileContent (Fs.basename filePath) w).
    unfold try_catch, bind, readFileSync. rewrite Hread. reflexivity.
Qed.

(** X18. An upload through [IPFSCore] never throws and never reports a
    failure.  [addBytes] and [addStr] send one request, a POST of the data
    to [/api/v0/add]; [addFile] sends the same for the content of a file
    it can read, under the base name of its path, and sends nothing for a
    path it cannot read.  The result is the [Hash] of the reply, or else
    its [cid], or else the empty text; and for every failure (no
    connection, a status that is not ok, a body that is not JSON or is
    null, an unreadable file) it is one fixed identifier. *)
Theorem upload_never_throws (this : IPFSCore) (data : Buffer) (content filename filePath : string)
    (w : World) :
  addBytes this data filename w
  = (inr (uploaded (answer w (add_request this filename data))),
     sending w (add_request this filename data)) /\
  addStr this content filename w = addBytes this (Utf8.encode content) filename w /\
  addFile this filePath w
  = match Fs.readFileSync filePath (files w) with
    | inr fileContent =>
        (inr (uploaded (answer w (add_request this (Fs.basename filePath) fileContent))),
         sending w (add_request this (Fs.basename filePath) fileContent))
    | inl _ => (inr fallback, w)
    end /\
  (forall e, uploaded (Failed e) = fallback) /\
  (forall response, ok response = false -> uploaded (Responded response) = fallback).
Proof.
  split; [apply post_add_caught|]. split; [reflexivity|].
  split; [apply addFile_caught|].
  split; [reflexivity|]. intros response Hok. unfold uploaded. now rewrite Hok.
Qed.

(** The core's [pin] never throws. *)
Lemma core_pin_returns (this : IPFSCore) (cid : string) (w : World) :
  exists pins, Core.pin this cid w = (inr pins, sending w (pin_request this cid)).
Proof.
  unfold Core.pin, try_catch, bind. fold (pin_request this cid).
  rewrite fetch_answer.
  destruct (answer w _) as [e|response]; [eexists; reflexivity|].
  destruct (ok response); cbn [negb]; [|eexists; reflexivity].
  unfold Core.json. destruct (Http.json response); eexists; reflexivity.
Qed.

(** The core's [exists] never throws: it answers whether the gateway
    answered with an ok status. *)
Lemma core_exists_returns (this : IPFSCore) (cid : string) (w : World) :
  Core.exists_ this cid w
  = (inr (match answer w (head_request this cid) with
          | Responded response => ok response
          | Failed _ => false
          end), sending w (head_request this cid)).
Proof.
  unfold Core.exists_, try_catch, bind. fold (head_request this cid).
  rewrite fetch_answer. now destruct (answer w _).
Qed.

(** The core's [cat]: the body of an ok answer, and an error otherwise. *)
Lemma core_cat_answer (this : IPFSCore) (cid : string) (w : World) :
  Core.cat this cid w
  = (match answer w (get_request this cid) with
     | Failed e => inl (ThrownError e)
     | Responded response =>
         if ok response then
           match arrayBuffer response with
           | inr buffer => inr buffer
           | inl e => inl (ThrownError e)
           end
         else inl (ThrownError
                     (mkError "Error"
                        ("Failed to retrieve content: " ++ statusText response)))
     end, sending w (get_request this cid)).
Proof.
  unfold Core.cat, try_catch, bind. fold (get_request this cid).
  rewrite fetch_answer.
  destruct (answer w _) as [e|response]; [reflexivity|].
  destruct (ok response); cbn [negb]; [|reflexivity].
  now destruct (arrayBuffer response).
Qed.

End CoreFacts.

Section ClientFacts.
Import Crypto Http Node Wire.

(** X19. Pinning always reports success.  [IPFSCore.pin] catches every
    failure, so that [IPFSClient.pin] returns [success: true] with the
    message of success whatever the network does, after one POST to
    [/api/v0/pin/add]; and [publishGlobal] always returns
    [published: true]. *)
Theorem pin_always_succeeds (this : Client.IPFSClient) (cid : string) (w : World) :
  Client.pin this cid w
  = (inr (Client.mkPinResult true cid cid "Successfully pinned"),
     sending w (pin_request (Client.client this) cid)) /\
  Client.publishGlobal this cid w
  = (inr (Client.mkPublishResult true cid cid "Content published to global IPFS network"),
     sending w (pin_request (Client.client this) cid)).
Proof.
  assert (Hpin : Client.pin this cid w
    = (inr (Client.mkPinResult true cid cid "Successfully pinned"),
       sending w (pin_request (Client.client this) cid))).
  { unfold Client.pin, try_catch, bind.
    destruct (core_pin_returns (Client.client this) cid w) as [pins ->].
    now rewrite formatCid_eq. }
  split; [exact Hpin|].
  unfold Client.publishGlobal, bind. rewrite Hpin. cbn [Client.success negb].
  now rewrite formatCid_eq.
Qed.

Lemma strip_slash_fixed (s : string) :
  Core.strip_slash s = s <-> ends_with_slash s = false.
Proof.
  induction s as [|c s IH]; [easy|].
  destruct s as [|c' s].
  - cbn. destruct (Ascii.eqb c "/"); split; congruence.
  - change (Core.strip_slash (String c (String c' s)))
      with (String c (Core.strip_slash (String c' s))).
    change (ends_with_slash (String c (String c' s)))
      with (ends_with_slash (String c' s)).
    rewrite <- IH. split; [intros [= H]; exact H | intros ->; reflexivity].
Qed.

Lemma append_cancel_r (a b t : string) : (a ++ t = b ++ t)%string -> a = b.
Proof.
  intros H. apply (f_equal list_byte_of_string) in H.
  rewrite !list_byte_of_string_app in H. apply app_inv_tail in H.
  apply (f_equal string_of_list_byte) in H.
  now rewrite !string_of_list_byte_of_string in H.
Qed.

(** What the constructor makes of the two addresses. *)
Lemma constructor_fields (s : Settings.Settings) (crypto_support : bool)
    (gateway apiUrl : option string) (encryptByDefault : option bool)
    (encryptionKey : option Buffer) (this : Client.IPFSClient) :
  Client.constructor s crypto_support gateway apiUrl encryptByDefault encryptionKey
  = inr this ->
  Client.cipher this
  = Ipfs.constructor (Settings.environment s crypto_support) encryptByDefault encryptionKey /\
  Client.client this = Core.constructor (Client.apiUrl this) (Client.gateway this).
Proof.
  unfold Client.constructor.
  destruct (Client.replace_slash _ "this.gateway") as [e|g]; [discriminate|].
  destruct (Client.replace_slash _ "this.apiUrl") as [e|a]; [discriminate|].
  intros [= <-]. split; reflexivity.
Qed.

(** X20. [exists] never throws: it sends one HEAD request to the gateway
    and reports [exists: true] exactly when the answer has an ok status;
    the gateway address is reported exactly when the content exists.  On a
    constructed client the address reported is the address probed exactly
    when the client's gateway does not end with a slash (one slash at the
    end was removed by the constructor, a second one only for the probe). *)
Theorem exists_probes_and_reports (s : Settings.Settings) (crypto_support : bool)
    (gateway apiUrl : option string) (encryptByDefault : option bool)
    (encryptionKey : option Buffer) (this : Client.IPFSClient) (cid : string) (w : World) :
  Client.constructor s crypto_support gateway apiUrl encryptByDefault encryptionKey
  = inr this ->
  let probe := head_request (Client.client this) cid in
  let found := match answer w probe with
               | Responded response => ok response
               | Failed _ => false
               end in
  let reported := (Client.gateway this ++ "/ipfs/" ++ cid)%string in
  Client.exists_ this cid w
  = (inr (Client.mkExistsResult found cid cid (if found then Some reported else None)),
     sending w probe) /\
  (url probe = reported <-> ends_with_slash (Client.gateway this) = false).
Proof.
  intros Hnew. cbv zeta. split.
  - unfold Client.exists_, bind. rewrite core_exists_returns. now rewrite formatCid_eq.
  - destruct (constructor_fields _ _ _ _ _ _ _ Hnew) as [_ ->].
    unfold head_request, Core.constructor. cbn [url Core.gateway].
    rewrite <- strip_slash_fixed. split.
    + apply append_cancel_r.
    + now intros ->.
Qed.

End ClientFacts.

Section CatFacts.
Import Crypto Http Node Wire.

Lemma firstn_prefix {A} (n : nat) (l : list A) :
  firstn n l = firstn (length (firstn n l)) l /\
  length (firstn n l) = Nat.min n (length l).
Proof.
  rewrite length_take. split; [|reflexivity].
  destruct (Nat.le_ge_cases n (length l)) as [H|H].
  - now rewrite Nat.min_l.
  - rewrite Nat.min_r by exact H. now rewrite !firstn_all2 by lia.
Qed.

Lemma hex_length (l : Buffer) : String.length (Format.hex l) = 2 * length l.
Proof. induction l as [|b l IH]; cbn [Format.hex String.length length]; lia. Qed.

(** X21. [cat] on a constructed client with encryption available: when the
    gateway serves, with an ok status, the envelope that [encryptData]
    made of a plaintext on this client, [cat] with decryption returns the
    plaintext as content, its length as size, a preview that is the first
    [maxDisplayBytes] bytes of the plaintext, and [decrypted: true], after
    one GET request; with decryption declined it returns the envelope as it
    was served. *)
Theorem cat_decrypts_envelope (s : Settings.Settings) (crypto_support : bool)
    (gateway apiUrl : option string) (encryptByDefault : option bool)
    (encryptionKey : option Buffer) (this : Client.IPFSClient) (cid : string)
    (maxDisplayBytes : Z) (P envelope : Buffer) (e e' : Entropy) (w : World)
    (response : Response) :
  Client.constructor s crypto_support gateway apiUrl encryptByDefault encryptionKey
  = inr this ->
  Ipfs.encryptionAvailable (Client.cipher this) = true ->
  Ipfs.encryptData (Client.cipher this) P e = (inr envelope, e') ->
  answer w (get_request (Client.client this) cid) = Responded response ->
  ok response = true ->
  arrayBuffer response = inr envelope ->
  (0 <= maxDisplayBytes)%Z ->
  (exists result,
     Client.cat this cid maxDisplayBytes true (Some true) w
     = (inr result, sending w (get_request (Client.client this) cid)) /\
     Client.content result = P /\
     Client.cat_size_bytes result = N.of_nat (length P) /\
     Client.decrypted result = true /\
     Client.preview result = Some (firstn (Z.to_nat maxDisplayBytes) P)) /\
  (exists result,
     Client.cat this cid maxDisplayBytes true (Some false) w
     = (inr result, sending w (get_request (Client.client this) cid)) /\
     Client.content result = envelope /\
     Client.decrypted result = false).
Proof.
  intros Hnew Hav Henc Hans Hok Hbody Hmax.
  destruct (constructor_fields _ _ _ _ _ _ _ Hnew) as [Hcipher _].
  assert (HK : exists K, Ipfs.encryptionKey (Client.cipher this) = Some K /\ length K = 32).
  { rewrite Hcipher in *. now apply constructor_available. }
  destruct HK as (K & HK & Hlen).
  rewrite (encryptData_ok _ K P e Hav HK Hlen) in Henc. injection Henc as <- _.
  assert (Hdec : Ipfs.decryptData (Client.cipher this)
                   (fst (Crypto.randomBytes 16 e)
                    ++ cipher_update_final (mkCipher K (fst (Crypto.randomBytes 16 e))) P) = inr P).
  { apply decryptData_envelope; try assumption. apply randomBytes_length. }
  assert (Hcat : Core.cat (Client.client this) cid w
                 = (inr (fst (Crypto.randomBytes 16 e)
                         ++ cipher_update_final (mkCipher K (fst (Crypto.randomBytes 16 e))) P),
                    sending w (get_request (Client.client this) cid))).
  { rewrite core_cat_answer, Hans, Hok, Hbody. reflexivity. }
  split.
  - eexists. unfold Client.cat, Client.should. rewrite Hav. cbn [negb andb].
    unfold bind at 1. rewrite Hcat. rewrite Hdec. unfold bind, ret.
    split; [reflexivity|]. cbn [Client.content Client.cat_size_bytes Client.decrypted
      Client.preview].
    repeat split. unfold Client.slice0.
    now replace (maxDisplayBytes <? 0)%Z with false by (symmetry; apply Z.ltb_ge; lia).
  - eexists. unfold Client.cat, Client.should. cbn [negb andb].
    unfold bind at 1. rewrite Hcat. unfold bind, ret.
    split; [reflexivity|]. split; reflexivity.
Qed.

(** X22. What [cat] returns when it returns: the size is the length of the
    content and is formatted by [formatSize]; with [formatOutput] the
    preview is a prefix of the content, of [maxDisplayBytes] bytes or the
    whole content if that is shorter, [is_text] says whether every byte of
    the preview is printable ASCII, tab, line feed or carriage return, and
    exactly one of [text_preview] (the preview as text) and [hex_preview]
    (two digits a byte) is present; without [formatOutput] none of the four
    is present. *)
Theorem cat_preview (this : Client.IPFSClient) (cid : string) (maxDisplayBytes : Z)
    (formatOutput : bool) (decrypt : option bool) (w : World) (result : Client.CatResult) :
  fst (Client.cat this cid maxDisplayBytes formatOutput decrypt w) = inr result ->
  Client.cat_size_bytes result = N.of_nat (length (Client.content result)) /\
  Client.cat_size_formatted result = Format.formatSize (Client.cat_size_bytes result) /\
  if formatOutput then
    exists p,
      Client.preview result = Some p /\
      p = firstn (length p) (Client.content result) /\
      ((0 <= maxDisplayBytes)%Z ->
       length p = Nat.min (Z.to_nat maxDisplayBytes) (length (Client.content result))) /\
      Client.is_text result = Some (forallb Client.printable p) /\
      if forallb Client.printable p
      then exists text, Client.text_preview result = Some text /\
                        list_byte_of_string text = p /\
                        Client.hex_preview result = None
      else Client.text_preview result = None /\
           Client.hex_preview result = Some (Format.hex p) /\
           String.length (Format.hex p) = 2 * length p
  else Client.preview result = None /\ Client.is_text result = None /\
       Client.text_preview result = None /\ Client.hex_preview result = None.
Proof.
  unfold Client.cat.
  destruct (Client.should this decrypt && negb (Ipfs.encryptionAvailable (Client.cipher this)));
    [discriminate|].
  unfold bind at 1. destruct (Core.cat (Client.client this) cid w) as [[t|served] w1];
    [discriminate|].
  unfold bind at 1.
  assert (Hret : forall processed : Buffer,
    fst (ret (Client.mkCatResult processed (N.of_nat (length processed))
           (Format.formatSize (N.of_nat (length processed))) (Client.should this decrypt)
           (if formatOutput then Some (Client.slice0 processed maxDisplayBytes) else None)
           (if formatOutput
            then Some (forallb Client.printable (Client.slice0 processed maxDisplayBytes))
            else None)
           (if formatOutput && forallb Client.printable (Client.slice0 processed maxDisplayBytes)
            then Some (string_of_list_byte (Client.slice0 processed maxDisplayBytes)) else None)
           (if formatOutput
               && negb (forallb Client.printable (Client.slice0 processed maxDisplayBytes))
            then Some (Format.hex (Client.slice0 processed maxDisplayBytes)) else None)) w1)
    = inr result ->
    Client.cat_size_bytes result = N.of_nat (length (Client.content result)) /\
    Client.cat_size_formatted result = Format.formatSize (Client.cat_size_bytes result) /\
    if formatOutput then
      exists p,
        Client.preview result = Some p /\
        p = firstn (length p) (Client.content result) /\
        ((0 <= maxDisplayBytes)%Z ->
         length p = Nat.min (Z.to_nat maxDisplayBytes) (length (Client.content result))) /\
        Client.is_text result = Some (forallb Client.printable p) /\
        if forallb Client.printable p
        then exists text, Client.text_preview result = Some text /\
                          list_byte_of_string text = p /\
                          Client.hex_preview result = None
        else Client.text_preview result = None /\
             Client.hex_preview result = Some (Format.hex p) /\
             String.length (Format.hex p) = 2 * length p
    else Client.preview result = None /\ Client.is_text result = None /\
         Client.text_preview result = None /\ Client.hex_preview result = None).
  { intros processed [= <-].
    cbn [Client.content Client.cat_size_bytes Client.cat_size_formatted Client.preview
         Client.is_text Client.text_preview Client.hex_preview].
    split; [reflexivity|]. split; [reflexivity|].
    destruct formatOutput; [|repeat split].
    exists (Client.slice0 processed maxDisplayBytes).
    split; [reflexivity|]. split; [|split; [|split; [reflexivity|]]].
    - unfold Client.slice0. destruct (maxDisplayBytes <? 0)%Z; apply firstn_prefix.
    - intros Hmax. unfold Client.slice0.
      replace (maxDisplayBytes <? 0)%Z with false by (symmetry; apply Z.ltb_ge; lia).
      apply firstn_prefix.
    - cbn [andb]. destruct (forallb Client.printable _); cbn [negb].
      + eexists. split; [reflexivity|]. split; [|reflexivity].
        apply list_byte_of_string_of_list_byte.
      + split; [reflexivity|]. split; [reflexivity|]. apply hex_length. }
  destruct (Client.should this decrypt).
  - destruct (Ipfs.decryptData (Client.cipher this) served) as [error|plain];
      [discriminate|]. apply Hret.
  - apply Hret.
Qed.

End CatFacts.

Section PathFacts.

Lemma list_ascii_of_string_app (a b : string) :
  list_ascii_of_string (a ++ b) = list_ascii_of_string a ++ list_ascii_of_string b.
Proof.
  induction a as [|c a IH]; [reflexivity|].
  change (String c a ++ b)%string with (String c (a ++ b)).
  cbn [list_ascii_of_string app]. now rewrite IH.
Qed.

Lemma up_to_slash_plain (l r : list ascii) :
  forallb (fun c => negb (Ascii.eqb c "/"%char)) l = true ->
  Fs.up_to_slash l = l /\ Fs.up_to_slash (l ++ "/"%char :: r) = l.
Proof.
  induction l as [|c l IH]; intros H; cbn [forallb] in H.
  - split; [reflexivity|]. reflexivity.
  - apply andb_true_iff in H. destruct H as [Hc%negb_true_iff Hl].
    destruct (IH Hl) as [IH1 IH2].
    cbn [Fs.up_to_slash app]. rewrite Hc, IH1, IH2. split; reflexivity.
Qed.

Lemma forallb_rev {A} (f : A -> bool) (l : list A) : forallb f (rev l) = forallb f l.
Proof.
  induction l as [|x l IH]; [reflexivity|].
  cbn [rev forallb]. rewrite forallb_app, IH. cbn [forallb].
  now rewrite andb_true_r, andb_comm.
Qed.

(** The base name of a plain name put behind a directory is the name. *)
Lemma basename_join (dir name : string) :
  name <> ""%string ->
  forallb (fun c => negb (Ascii.eqb c "/"%char)) (list_ascii_of_string name) = true ->
  Fs.basename (Fs.join dir name) = name.
Proof.
  intros Hne Hplain.
  assert (Hshape : exists pre,
    list_ascii_of_string (Fs.join dir name) = pre ++ list_ascii_of_string name /\
    (pre = [] \/ exists pre', pre = pre' ++ ["/"%char])).
  { unfold Fs.join.
    destruct (rev (list_ascii_of_string dir)) as [|c r] eqn:Hrev.
    - exists []. split; [reflexivity | now left].
    - apply (f_equal (@rev ascii)) in Hrev. rewrite rev_involutive in Hrev. cbn [rev] in Hrev.
      destruct (Ascii.eqb_spec c "/"%char) as [->|_].
      + exists (list_ascii_of_string dir). rewrite list_ascii_of_string_app.
        split; [reflexivity|]. right. exists (rev r). exact Hrev.
      + exists (list_ascii_of_string dir ++ ["/"%char]).
        rewrite !list_ascii_of_string_app. cbn [list_ascii_of_string].
        rewrite <- app_assoc. split; [reflexivity|]. right. eauto. }
  destruct Hshape as (pre & Hchars & Hpre).
  unfold Fs.basename. rewrite Hchars, rev_app_distr.
  set (n := list_ascii_of_string name) in *.
  assert (Hn : n <> []).
  { intros Hn. apply Hne. rewrite <- (string_of_list_ascii_of_string name).
    fold n. now rewrite Hn. }
  assert (Hrn : forallb (fun c => negb (Ascii.eqb c "/"%char)) (rev n) = true)
    by now rewrite forallb_rev.
  assert (Hdrop : forall r, Fs.drop_slashes (rev n ++ r) = rev n ++ r).
  { intros r. destruct (rev n) as [|c l] eqn:Hr.
    - apply (f_equal (@rev ascii)) in Hr. rewrite rev_involutive in Hr. contradiction.
    - cbn [forallb] in Hrn. apply andb_true_iff in Hrn.
      destruct Hrn as [Hc%negb_true_iff _]. cbn [app Fs.drop_slashes]. now rewrite Hc. }
  rewrite Hdrop.
  destruct Hpre as [-> | [pre' ->]].
  - cbn [rev]. rewrite app_nil_r.
    destruct (up_to_slash_plain (rev n) [] Hrn) as [-> _].
    rewrite rev_involutive. apply string_of_list_ascii_of_string.
  - rewrite rev_app_distr. cbn [rev app].
    destruct (up_to_slash_plain (rev n) (rev pre') Hrn) as [_ ->].
    rewrite rev_involutive. apply string_of_list_ascii_of_string.
Qed.

Lemma hex_char_plain (b : byte) :
  negb (Ascii.eqb (Format.hex_char (Byte.to_N b / 16)) "/"%char)
  && negb (Ascii.eqb (Format.hex_char (Byte.to_N b mod 16)) "/"%char) = true.
Proof. destruct b; vm_compute; reflexivity. Qed.

Lemma hex_plain (l : Buffer) :
  forallb (fun c => negb (Ascii.eqb c "/"%char)) (list_ascii_of_string (Format.hex l)) = true.
Proof.
  induction l as [|b l IH]; [reflexivity|].
  cbn [Format.hex list_ascii_of_string forallb]. rewrite IH, andb_true_r.
  apply hex_char_plain.
Qed.

(** The base name of the temporary file. *)
Lemma basename_temporary (dir : string) (name : Buffer) :
  Fs.basename (Fs.join dir ("encrypted_" ++ Format.hex name))
  = ("encrypted_" ++ Format.hex name)%string.
Proof.
  apply basename_join; [discriminate|].
  rewrite list_ascii_of_string_app, forallb_app, hex_plain. reflexivity.
Qed.

End PathFacts.

Section UploadFacts.
Import Crypto Http Node Wire.

Lemma observing_nothing (w : World) : observing w [] = w.
Proof. destruct w. unfold observing. cbn. now rewrite app_nil_r. Qed.

(** The retry executor around an upload: one call. *)
Lemma retry_addFile (this : Core.IPFSCore) (uploadPath : string) (maxRetries : Z) (w : World) :
  Client.retryWithBackoff (Core.addFile this uploadPath) maxRetries w
  = if (0 <? maxRetries)%Z
    then (inr match Fs.readFileSync uploadPath (files w) with
              | inr fileContent =>
                  uploaded (answer w (add_request this (Fs.basename uploadPath) fileContent))
              | inl _ => Core.fallback
              end,
          observing (snd (Core.addFile this uploadPath w)) [Utils.Invoke])
    else (inl ThrownNull, w).
Proof.
  unfold Client.retryWithBackoff.
  destruct (Z.ltb_spec 0 maxRetries) as [Hpos|Hneg].
  - rewrite (retry_first_call (Core.addFile this uploadPath) maxRetries w
               (snd (Core.addFile this uploadPath w))
               match Fs.readFileSync uploadPath (files w) with
               | inr fileContent =>
                   uploaded (answer w (add_request this (Fs.basename uploadPath) fileContent))
               | inl _ => Core.fallback
               end Hpos).
    + reflexivity.
    + rewrite addFile_caught. now destruct (Fs.readFileSync uploadPath (files w)).
  - rewrite retry_no_call by exact Hneg. unfold Client.observe. cbn [Utils.world Utils.events].
    rewrite app_nil_r. now destruct w.
Qed.

(** X23. [uploadFile] without encryption calls [addFile] once and never
    again: [addFile] never throws, so for every [maxRetries >= 1] the
    retry executor sees one successful call and no timer is awaited.  The
    upload reports success whatever the network did, with the identifier
    that [addFile] returned (the fixed one after a failure, and for a path
    that is a directory, for which nothing is sent), the base name of the
    path and the size of the file.  With [maxRetries <= 0] nothing is
    called and [uploadFile] rejects with [null]. *)
Theorem uploadFile_calls_addFile_once (this : Client.IPFSClient) (filePath : string)
    (includeFormattedSize : bool) (encrypt : option bool) (maxRetries : Z)
    (w : World) (node : Fs.Node) :
  files w !! filePath = Some node ->
  Client.should this encrypt = false ->
  let hash := match node with
              | Fs.File fileContent =>
                  uploaded (answer w (add_request (Client.client this)
                                        (Fs.basename filePath) fileContent))
              | Fs.Directory _ => Core.fallback
              end in
  let w1 := match node with
            | Fs.File fileContent =>
                sending w (add_request (Client.client this) (Fs.basename filePath) fileContent)
            | Fs.Directory _ => w
            end in
  ((1 <= maxRetries)%Z ->
   Client.uploadFile this filePath includeFormattedSize encrypt maxRetries w
   = (inr (Client.mkUploadResult hash (Fs.basename filePath) (Fs.size node) false
             (if includeFormattedSize then Some (Format.formatSize (Fs.size node)) else None)),
      observing w1 [Utils.Invoke])) /\
  ((maxRetries <= 0)%Z ->
   Client.uploadFile this filePath includeFormattedSize encrypt maxRetries w
   = (inl ThrownNull, w)).
Proof.
  intros Hnode Hplain. cbv zeta.
  assert (Hup : Client.uploadFile this filePath includeFormattedSize encrypt maxRetries w
    = match Client.retryWithBackoff (Core.addFile (Client.client this) filePath) maxRetries w with
      | (inr h, w') =>
          (inr (Client.mkUploadResult h (Fs.basename filePath) (Fs.size node) false
                  (if includeFormattedSize then Some (Format.formatSize (Fs.size node))
                   else None)), w')
      | (inl t, w') => (inl t, w')
      end).
  { unfold Client.uploadFile, Fs.existsSync, Fs.statSync. rewrite Hnode, Hplain.
    cbn [negb andb]. unfold Client.prepare, Client.cleanup, bind, ret.
    now destruct (Client.retryWithBackoff _ maxRetries w) as [[t|h] w']. }
  rewrite Hup, retry_addFile. unfold Fs.readFileSync. rewrite Hnode.
  split; intros Hm.
  - replace (0 <? maxRetries)%Z with true by (symmetry; apply Z.ltb_lt; lia).
    rewrite addFile_caught. unfold Fs.readFileSync. rewrite Hnode.
    now destruct node.
  - now replace (0 <? maxRetries)%Z with false by (symmetry; apply Z.ltb_ge; lia).
Qed.

Lemma randomBytes_taken (n : nat) (e : Entropy) :
  taken (snd (Crypto.randomBytes n e)) = taken e + n.
Proof. reflexivity. Qed.

#[local] Opaque Crypto.cipher_update_final Crypto.randomBytes Format.hex Fs.join Fs.basename.

(** The first part of the [try] block when it encrypts. *)
Lemma prepare_encrypted (this : Client.IPFSClient) (filePath : string) (w : World)
    (fileData K : Buffer) :
  Ipfs.encryptionAvailable (Client.cipher this) = true ->
  Ipfs.encryptionKey (Client.cipher this) = Some K -> length K = 32 ->
  files w !! filePath = Some (Fs.File fileData) ->
  let iv := fst (Crypto.randomBytes 16 (entropy w)) in
  let e1 := snd (Crypto.randomBytes 16 (entropy w)) in
  let envelope := iv ++ cipher_update_final (mkCipher K iv) fileData in
  let tempFilePath :=
    Fs.join (tmpdir w) ("encrypted_" ++ Format.hex (fst (Crypto.randomBytes 8 e1))) in
  files w !! tempFilePath = None ->
  Client.prepare this filePath true w
  = (inr tempFilePath, Some tempFilePath,
     mkWorld (net w) (<[tempFilePath := Fs.File envelope]> (files w))
       (snd (Crypto.randomBytes 8 e1)) (tmpdir w) (observed w)).
Proof.
  intros Hav HK Hlen Hfile. cbv zeta. intros Hfresh.
  unfold Client.prepare, readFileSync, Fs.readFileSync. rewrite Hfile. cbn [lift ret].
  unfold Client.encryptData. rewrite (encryptData_ok _ K fileData (entropy w) Hav HK Hlen).
  unfold Node.randomBytes. cbn [entropy tmpdir files net observed].
  destruct (Crypto.randomBytes 8 (snd (Crypto.randomBytes 16 (entropy w)))) as [name e2].
  cbn [fst snd] in *.
  unfold writeFileSync, Fs.writeFileSync. cbn [files tmpdir]. rewrite Hfresh.
  reflexivity.
Qed.

(** X24. [uploadFile] with encryption, on a constructed client with
    encryption available and for [maxRetries >= 1]: what is sent, in one
    POST, is not the file but an envelope that [decryptData] turns back
    into the content of the file, under the IV just drawn; the result
    reports the base name and the size of the original file, not of the
    envelope, and [encrypted: true] when encryption was asked for by the
    argument [encrypt] or by the argument [encryptByDefault] of the
    constructor (asked for by the configuration, the field carries the
    configured value itself, of which only the truthiness is known
    here).  The envelope goes through a file
    [encrypted_<16 hex digits>] in the temporary directory, named from 8
    more bytes of entropy, and that name, not the name of the file, is the
    file name sent; when no file of that name was there before, the file
    system is afterwards as it was before. *)
Theorem uploadFile_encrypts_and_cleans_up (s : Settings.Settings) (crypto_support : bool)
    (gateway apiUrl : option string) (encryptByDefault : option bool)
    (encryptionKey : option Buffer) (this : Client.IPFSClient) (filePath : string)
    (includeFormattedSize : bool) (encrypt : option bool) (maxRetries : Z) (w : World)
    (fileData : Buffer) :
  Client.constructor s crypto_support gateway apiUrl encryptByDefault encryptionKey
  = inr this ->
  Ipfs.encryptionAvailable (Client.cipher this) = true ->
  Client.should this encrypt = true ->
  files w !! filePath = Some (Fs.File fileData) ->
  let iv := fst (Crypto.randomBytes 16 (entropy w)) in
  let name := fst (Crypto.randomBytes 8 (snd (Crypto.randomBytes 16 (entropy w)))) in
  let tempFilePath := Fs.join (tmpdir w) ("encrypted_" ++ Format.hex name) in
  files w !! tempFilePath = None ->
  (1 <= maxRetries)%Z ->
  exists envelope result w1,
    Client.uploadFile this filePath includeFormattedSize encrypt maxRetries w
    = (inr result, w1) /\
    Ipfs.decryptData (Client.cipher this) envelope = inr fileData /\
    firstn 16 envelope = iv /\
    sent (net w1)
    = sent (net w) ++ [add_request (Client.client this) (Fs.basename tempFilePath) envelope] /\
    Fs.basename tempFilePath = ("encrypted_" ++ Format.hex name)%string /\
    String.length (Format.hex name) = 16 /\
    Client.upload_cid result
    = uploaded (answer w (add_request (Client.client this) (Fs.basename tempFilePath)
                            envelope)) /\
    Client.filename result = Fs.basename filePath /\
    Client.size_bytes result = N.of_nat (length fileData) /\
    Client.size_formatted result
    = (if includeFormattedSize
       then Some (Format.formatSize (N.of_nat (length fileData))) else None) /\
    (encrypt = Some true \/ (encrypt = None /\ encryptByDefault = Some true) ->
     Client.encrypted result = true) /\
    files w1 = files w /\
    taken (entropy w1) = taken (entropy w) + 24 /\
    observed w1 = observed w ++ [Utils.Invoke].
Proof.
  intros Hnew Hav Hshould Hfile. cbv zeta. intros Hfresh Hm.
  destruct (constructor_fields _ _ _ _ _ _ _ Hnew) as [Hcipher _].
  assert (HK : exists K, Ipfs.encryptionKey (Client.cipher this) = Some K /\ length K = 32).
  { rewrite Hcipher in *. now apply constructor_available. }
  destruct HK as (K & HK & Hlen).
  pose proof (prepare_encrypted this filePath w fileData K Hav HK Hlen Hfile Hfresh) as Hprep.
  cbv zeta in Hprep.
  set (iv := fst (Crypto.randomBytes 16 (entropy w))) in *.
  set (e1 := snd (Crypto.randomBytes 16 (entropy w))) in *.
  set (tempFilePath := Fs.join (tmpdir w)
                         ("encrypted_" ++ Format.hex (fst (Crypto.randomBytes 8 e1)))) in *.
  set (envelope := iv ++ cipher_update_final (mkCipher K iv) fileData) in *.
  exists envelope. eexists. eexists.
  split.
  { unfold Client.uploadFile, Fs.existsSync, Fs.statSync. rewrite Hfile, Hshould, Hav.
    cbn [negb andb]. rewrite Hprep.
    unfold bind. rewrite retry_addFile.
    replace (0 <? maxRetries)%Z with true by (symmetry; apply Z.ltb_lt; lia).
    rewrite addFile_caught.
    unfold Fs.readFileSync. cbn [files]. rewrite lookup_insert_eq.
    unfold ret, Client.cleanup, observing, sending, Fs.existsSync. cbn [files snd].
    rewrite lookup_insert_eq.
    unfold unlinkSync, Fs.unlinkSync. cbn [files]. rewrite lookup_insert_eq.
    rewrite delete_insert_id by exact Hfresh.
    reflexivity. }
  split; [apply decryptData_envelope; try assumption; apply randomBytes_length|].
  split; [apply take_app_length'; symmetry; apply randomBytes_length|].
  unfold set_files. cbn [net files entropy observed sent].
  split; [reflexivity|].
  split; [apply basename_temporary|].
  split; [rewrite hex_length, randomBytes_length; reflexivity|].
  split; [reflexivity|]. split; [reflexivity|]. split; [reflexivity|].
  split; [reflexivity|]. split; [intros _; reflexivity|]. split; [reflexivity|].
  split; [|reflexivity].
  unfold e1. rewrite !randomBytes_taken. lia.
Qed.

(** X25. Refusals come first and touch nothing.  When decryption or
    encryption is asked for (by the argument, or by the default when the
    argument is [null]) on a client on which encryption is not available,
    [cat] throws before it asks the gateway, and [uploadFile] throws
    before it reads the file: for a path that does not exist the error
    says so, otherwise it is the error of the missing key.  Nothing is
    sent, read, written or drawn. *)
Theorem refusals_touch_nothing (this : Client.IPFSClient) (cid : string)
    (maxDisplayBytes : Z) (formatOutput : bool) (filePath : string)
    (includeFormattedSize : bool) (maxRetries : Z) (choice : option bool) (w : World) :
  Client.should this choice = true ->
  Ipfs.encryptionAvailable (Client.cipher this) = false ->
  Client.cat this cid maxDisplayBytes formatOutput choice w
  = (inl (ThrownError
            (mkError "Error"
               "Decryption requested but not available. Check that a valid encryption key is provided.")),
     w) /\
  Client.uploadFile this filePath includeFormattedSize choice maxRetries w
  = (inl (ThrownError
            (if Fs.existsSync filePath (files w)
             then mkError "Error"
                    "Encryption requested but not available. Check that a valid encryption key is provided."
             else mkError "Error" ("File " ++ filePath ++ " not found"))),
     w).
Proof.
  intros Hshould Hav. split.
  - unfold Client.cat. now rewrite Hshould, Hav.
  - unfold Client.uploadFile.
    destruct (Fs.existsSync filePath (files w)); cbn [negb]; [|reflexivity].
    now rewrite Hshould, Hav.
Qed.

End UploadFacts.

Section NetworkInstances.
Import Crypto Http Node Wire.

Lemma exists_probes_and_reports_witness :
  Client.constructor Fixtures.settings true None None None (Some Samples.key)
  = inr Fixtures.client /\
  let w := Fixtures.world Fixtures.offline in
  let probe := head_request (Client.client Fixtures.client) "QmExample" in
  let found := match answer w probe with
               | Responded response => ok response
               | Failed _ => false
               end in
  let reported := (Client.gateway Fixtures.client ++ "/ipfs/" ++ "QmExample")%string in
  Client.exists_ Fixtures.client "QmExample" w
  = (inr (Client.mkExistsResult found "QmExample" "QmExample"
            (if found then Some reported else None)),
     sending w probe) /\
  (url probe = reported <-> ends_with_slash (Client.gateway Fixtures.client) = false).
Proof.
  split; [reflexivity|].
  exact (exists_probes_and_reports Fixtures.settings true None None None (Some Samples.key)
           Fixtures.client "QmExample" (Fixtures.world Fixtures.offline) eq_refl).
Defined.

Lemma cat_decrypts_envelope_witness :
  let w := Fixtures.world (Fixtures.serving Fixtures.envelope) in
  let this := Fixtures.client in
  Client.constructor Fixtures.settings true None None None (Some Samples.key) = inr this /\
  Ipfs.encryptionAvailable (Client.cipher this) = true /\
  Ipfs.encryptData (Client.cipher this) Samples.plaintext Samples.entropy
  = (inr Fixtures.envelope, snd (Crypto.randomBytes 16 Samples.entropy)) /\
  answer w (get_request (Client.client this) "QmExample")
  = Responded (mkResponse true 200 "OK" (inr Fixtures.envelope)
                 (NotJson (mkError "SyntaxError" "Unexpected end of JSON input"))) /\
  (0 <= 1024)%Z /\
  (exists result,
     Client.cat this "QmExample" 1024 true (Some true) w
     = (inr result, sending w (get_request (Client.client this) "QmExample")) /\
     Client.content result = Samples.plaintext /\
     Client.cat_size_bytes result = N.of_nat (length Samples.plaintext) /\
     Client.decrypted result = true /\
     Client.preview result = Some (firstn (Z.to_nat 1024) Samples.plaintext)) /\
  (exists result,
     Client.cat this "QmExample" 1024 true (Some false) w
     = (inr result, sending w (get_request (Client.client this) "QmExample")) /\
     Client.content result = Fixtures.envelope /\
     Client.decrypted result = false).
Proof.
  cbv zeta.
  assert (Henc : Ipfs.encryptData (Client.cipher Fixtures.client) Samples.plaintext
                   Samples.entropy
                 = (inr Fixtures.envelope, snd (Crypto.randomBytes 16 Samples.entropy)))
    by reflexivity.
  split; [reflexivity|]. split; [reflexivity|]. split; [exact Henc|].
  split; [reflexivity|]. split; [lia|].
  exact (cat_decrypts_envelope Fixtures.settings true None None None (Some Samples.key)
           Fixtures.client "QmExample" 1024 Samples.plaintext Fixtures.envelope
           Samples.entropy (snd (Crypto.randomBytes 16 Samples.entropy))
           (Fixtures.world (Fixtures.serving Fixtures.envelope))
           (mkResponse true 200 "OK" (inr Fixtures.envelope)
              (NotJson (mkError "SyntaxError" "Unexpected end of JSON input")))
           eq_refl eq_refl Henc eq_refl eq_refl eq_refl ltac:(lia)).
Defined.

Lemma uploadFile_calls_addFile_once_witness :
  let w := Fixtures.world Fixtures.offline in
  let this := Fixtures.client in
  let node := Fs.File Samples.plaintext in
  files w !! "/home/alice/notes.txt" = Some node /\
  Client.should this (Some false) = false /\
  ((1 <= 3)%Z ->
   Client.uploadFile this "/home/alice/notes.txt" true (Some false) 3 w
   = (inr (Client.mkUploadResult
             (uploaded (answer w (add_request (Client.client this)
                                   (Fs.basename "/home/alice/notes.txt") Samples.plaintext)))
             (Fs.basename "/home/alice/notes.txt") (Fs.size node) false
             (Some (Format.formatSize (Fs.size node)))),
      observing
        (sending w (add_request (Client.client this) (Fs.basename "/home/alice/notes.txt")
                      Samples.plaintext))
        [Utils.Invoke])) /\
  ((3 <= 0)%Z ->
   Client.uploadFile this "/home/alice/notes.txt" true (Some false) 3 w
   = (inl ThrownNull, w)).
Proof.
  cbv zeta. split; [reflexivity|]. split; [reflexivity|].
  exact (uploadFile_calls_addFile_once Fixtures.client "/home/alice/notes.txt" true
           (Some false) 3 (Fixtures.world Fixtures.offline) (Fs.File Samples.plaintext)
           eq_refl eq_refl).
Defined.

Lemma refusals_touch_nothing_witness :
  let w := Fixtures.world Fixtures.offline in
  let this := Fixtures.keyless in
  Client.should this (Some true) = true /\
  Ipfs.encryptionAvailable (Client.cipher this) = false /\
  Client.cat this "QmExample" 1024 true (Some true) w
  = (inl (ThrownError
            (mkError "Error"
               "Decryption requested but not available. Check that a valid encryption key is provided.")),
     w) /\
  Client.uploadFile this "/home/alice/notes.txt" true (Some true) 3 w
  = (inl (ThrownError
            (if Fs.existsSync "/home/alice/notes.txt" (files w)
             then mkError "Error"
                    "Encryption requested but not available. Check that a valid encryption key is provided."
             else mkError "Error" ("File " ++ "/home/alice/notes.txt" ++ " not found"))),
     w).
Proof.
  cbv zeta. split; [reflexivity|]. split; [reflexivity|].
  exact (refusals_touch_nothing Fixtures.keyless "QmExample" 1024 true
           "/home/alice/notes.txt" true 3 (Some true) (Fixtures.world Fixtures.offline)
           eq_refl eq_refl).
Defined.

Lemma cat_preview_witness :
  let w := Fixtures.world (Fixtures.serving Samples.plaintext) in
  let p := Client.slice0 Samples.plaintext 9 in
  let result :=
    Client.mkCatResult Samples.plaintext (N.of_nat (length Samples.plaintext))
      (Format.formatSize (N.of_nat (length Samples.plaintext))) false
      (Some p) (Some (forallb Client.printable p))
      (if forallb Client.printable p then Some (string_of_list_byte p) else None)
      (if negb (forallb Client.printable p) then Some (Format.hex p) else None) in
  fst (Client.cat Fixtures.client "QmExample" 9 true None w) = inr result /\
  Client.cat_size_bytes result = N.of_nat (length (Client.content result)) /\
  Client.cat_size_formatted result = Format.formatSize (Client.cat_size_bytes result) /\
  exists p,
    Client.preview result = Some p /\
    p = firstn (length p) (Client.content result) /\
    ((0 <= 9)%Z -> length p = Nat.min (Z.to_nat 9) (length (Client.content result))) /\
    Client.is_text result = Some (forallb Client.printable p) /\
    if forallb Client.printable p
    then exists text, Client.text_preview result = Some text /\
                      list_byte_of_string text = p /\
                      Client.hex_preview result = None
    else Client.text_preview result = None /\
         Client.hex_preview result = Some (Format.hex p) /\
         String.length (Format.hex p) = 2 * length p.
Proof.
  cbv zeta. split; [reflexivity|].
  exact (cat_preview Fixtures.client "QmExample" 9 true None
           (Fixtures.world (Fixtures.serving Samples.plaintext)) _ eq_refl).
Defined.

Lemma uploadFile_encrypts_and_cleans_up_witness :
  let w := Fixtures.world Fixtures.offline in
  let this := Fixtures.client in
  let iv := fst (Crypto.randomBytes 16 (entropy w)) in
  let name := fst (Crypto.randomBytes 8 (snd (Crypto.randomBytes 16 (entropy w)))) in
  let tempFilePath := Fs.join (tmpdir w) ("encrypted_" ++ Format.hex name) in
  Client.constructor Fixtures.settings true None None None (Some Samples.key) = inr this /\
  Ipfs.encryptionAvailable (Client.cipher this) = true /\
  Client.should this (Some true) = true /\
  files w !! "/home/alice/notes.txt" = Some (Fs.File Samples.plaintext) /\
  files w !! tempFilePath = None /\
  (1 <= 3)%Z /\
  exists envelope result w1,
    Client.uploadFile this "/home/alice/notes.txt" true (Some true) 3 w = (inr result, w1) /\
    Ipfs.decryptData (Client.cipher this) envelope = inr Samples.plaintext /\
    firstn 16 envelope = iv /\
    sent (net w1)
    = sent (net w) ++ [add_request (Client.client this) (Fs.basename tempFilePath) envelope] /\
    Fs.basename tempFilePath = ("encrypted_" ++ Format.hex name)%string /\
    String.length (Format.hex name) = 16 /\
    Client.upload_cid result
    = uploaded (answer w (add_request (Client.client this) (Fs.basename tempFilePath)
                            envelope)) /\
    Client.filename result = Fs.basename "/home/alice/notes.txt" /\
    Client.size_bytes result = N.of_nat (length Samples.plaintext) /\
    Client.size_formatted result
    = Some (Format.formatSize (N.of_nat (length Samples.plaintext))) /\
    (Some true = Some true \/ (Some true = None /\ None = Some true) ->
     Client.encrypted result = true) /\
    files w1 = files w /\
    taken (entropy w1) = taken (entropy w) + 24 /\
    observed w1 = observed w ++ [Utils.Invoke].
Proof.
  cbv zeta.
  assert (Hfresh : files (Fixtures.world Fixtures.offline)
                     !! Fs.join (tmpdir (Fixtures.world Fixtures.offline))
                          ("encrypted_"
                           ++ Format.hex
                                (fst (Crypto.randomBytes 8
                                        (snd (Crypto.randomBytes 16
                                                (entropy (Fixtures.world Fixtures.offline)))))))
                   = None) by (vm_compute; reflexivity).
  split; [reflexivity|]. split; [reflexivity|]. split; [reflexivity|].
  split; [reflexivity|]. split; [exact Hfresh|]. split; [lia|].
  exact (uploadFile_encrypts_and_cleans_up Fixtures.settings true None None None
           (Some Samples.key) Fixtures.client "/home/alice/notes.txt" true (Some true) 3
           (Fixtures.world Fixtures.offline) Samples.plaintext
           eq_refl eq_refl eq_refl eq_refl Hfresh ltac:(lia)).
Defined.

End NetworkInstances.
(** ** The size of an envelope *)

Section EnvelopeFacts.
Import Bytes Crypto Ipfs.

Lemma decrypt_block_length (key block : Buffer) : length (AES.decrypt_block key block) = 16.
Proof.
  unfold AES.decrypt_block.
  destruct (AES.split_round_keys (AES.key_expansion key)) as [[first middle] last].
  apply bytes_of_state_length.
Qed.

Lemma cbc_decrypt_length (n : nat) (key prev data : Buffer) :
  length prev = 16 -> 16 * n <= length data ->
  length (cbc_decrypt n key prev data) = 16 * n.
Proof.
  revert prev data. induction n as [|n IH]; intros prev data Hprev Hdata; [reflexivity|].
  cbn [cbc_decrypt].
  rewrite length_app, xor_bytes_length by (rewrite decrypt_block_length; congruence).
  rewrite decrypt_block_length, IH.
  - lia.
  - rewrite length_take. lia.
  - rewrite length_drop. lia.
Qed.

(** What [final()] accepts loses 1 to 16 bytes of padding. *)
Lemma pkcs7_unpad_length (data plain : Buffer) :
  pkcs7_unpad data = Some plain -> 16 <= length data ->
  length data - 16 <= length plain <= length data - 1.
Proof.
  unfold pkcs7_unpad. intros H Hlen.
  destruct ((Byte.to_nat (List.last data Byte.x00) =? 0)
            || (16 <? Byte.to_nat (List.last data Byte.x00))) eqn:Hn; [discriminate|].
  apply orb_false_iff in Hn. destruct Hn as [H0%Nat.eqb_neq H16%Nat.ltb_ge].
  destruct (forallb _ _); [|discriminate].
  injection H as <-. rewrite length_take. lia.
Qed.

(** X26. The size of an envelope.  On a client that holds a key of 32
    bytes, [encryptData] returns [16 * (floor(|P| / 16) + 2)] bytes for a
    plaintext [P], 17 to 32 bytes more than it was given; and whatever
    [decryptData] accepts, however it was made, is a whole number of
    16-byte blocks, at least two, and is 17 to 32 bytes longer than the
    plaintext returned. *)
Theorem envelope_overhead (this : IPFSClient) (K : Buffer) :
  encryptionAvailable this = true -> encryptionKey this = Some K -> length K = 32 ->
  (forall P e envelope,
     fst (encryptData this P e) = inr envelope ->
     length envelope = 16 * (length P / 16 + 2) /\
     length P + 17 <= length envelope <= length P + 32) /\
  (forall data plain,
     decryptData this data = inr plain ->
     length data mod 16 = 0 /\ 32 <= length data /\
     length plain + 17 <= length data <= length plain + 32).
Proof.
  intros Hav HK Hlen. split.
  - intros P e envelope. rewrite (encryptData_ok this K P e Hav HK Hlen). cbn [fst].
    intros Henv.
    apply (f_equal (fun r : JsError + Buffer =>
                      match r with inr l => length l | inl _ => 0 end)) in Henv.
    cbv beta iota in Henv. rewrite <- Henv. clear Henv.
    rewrite length_app, randomBytes_length.
    unfold cipher_update_final. rewrite cbc_encrypt_length, pkcs7_pad_blocks.
    pose proof (Nat.div_mod_eq (length P) 16).
    pose proof (Nat.mod_upper_bound (length P) 16). lia.
  - intros data plain. unfold decryptData. rewrite Hav, HK. cbn [negb].
    unfold createDecipheriv, createCipheriv. rewrite Hlen. cbn [Nat.eqb negb].
    destruct (length (firstn 16 data) =? 16) eqn:Hiv; cbn [negb]; [|discriminate].
    apply Nat.eqb_eq in Hiv. rewrite length_take in Hiv.
    unfold decipher_update_final. cbn [cipher_key cipher_iv].
    destruct ((length (skipn 16 data) =? 0)
              || negb (length (skipn 16 data) mod 16 =? 0)) eqn:Hblocks; [discriminate|].
    apply orb_false_iff in Hblocks.
    destruct Hblocks as [Hne%Nat.eqb_neq Hmod%negb_false_iff%Nat.eqb_eq].
    rewrite length_drop in Hne, Hmod.
    destruct (pkcs7_unpad _) as [p|] eqn:Hunpad; [|discriminate].
    intros [= <-].
    pose proof (Nat.div_mod_eq (length data - 16) 16) as Hdm.
    apply pkcs7_unpad_length in Hunpad;
      rewrite cbc_decrypt_length in *;
      rewrite ?length_take, ?length_drop in *; try lia.
    repeat split; try lia.
    rewrite (Nat.Div0.mod_eq (length data) 16).
    replace (length data) with (16 * ((length data - 16) / 16 + 1)) at 1 2 by lia.
    rewrite (Nat.mul_comm 16), Nat.div_mul by discriminate. lia.
Qed.

End EnvelopeFacts.

Lemma envelope_overhead_witness :
  Ipfs.encryptionAvailable Samples.client = true /\
  Ipfs.encryptionKey Samples.client = Some Samples.key /\
  length Samples.key = 32 /\
  (forall P e envelope,
     fst (Ipfs.encryptData Samples.client P e) = inr envelope ->
     length envelope = 16 * (length P / 16 + 2) /\
     length P + 17 <= length envelope <= length P + 32) /\
  (forall data plain,
     Ipfs.decryptData Samples.client data = inr plain ->
     length data mod 16 = 0 /\ 32 <= length data /\
     length plain + 17 <= length data <= length plain + 32).
Proof.
  split; [reflexivity|]. split; [reflexivity|]. split; [reflexivity|].
  exact (envelope_overhead Samples.client Samples.key eq_refl eq_refl eq_refl).
Defined.
(** ** What [cat] throws, and the addresses of a client *)

Section ClientMore.
Import Crypto Http Node Wire.

(** X27. [cat] throws in five ways and no other.  Before any request: the
    refusal, when decryption is asked for and not available.  After its one
    GET request: the error of [fetch] itself when the gateway could not be
    reached; an error with the status text when the status is not ok; the
    error of reading the body; and, when the body does not decrypt, an
    error whose message wraps the whole text of the error of
    [decryptData]. *)
Theorem cat_errors (this : Client.IPFSClient) (cid : string) (maxDisplayBytes : Z)
    (formatOutput : bool) (decrypt : option bool) (w : World) (t : Thrown) :
  fst (Client.cat this cid maxDisplayBytes formatOutput decrypt w) = inl t ->
  let request := get_request (Client.client this) cid in
  let w1 := snd (Client.cat this cid maxDisplayBytes formatOutput decrypt w) in
  (t = ThrownError (Client.not_available_for "Decryption") /\ w1 = w) \/
  (w1 = sending w request /\
   ((exists e, answer w request = Failed e /\ t = ThrownError e) \/
    (exists response,
       answer w request = Responded response /\ ok response = false /\
       t = ThrownError (mkError "Error"
                          ("Failed to retrieve content: " ++ statusText response))) \/
    (exists response e,
       answer w request = Responded response /\ ok response = true /\
       arrayBuffer response = inl e /\ t = ThrownError e) \/
    (exists response served error,
       answer w request = Responded response /\ ok response = true /\
       arrayBuffer response = inr served /\
       Client.should this decrypt = true /\
       Ipfs.decryptData (Client.cipher this) served = inl error /\
       t = ThrownError (mkError "Error" ("Failed to decrypt file: " ++ toString error))))).
Proof.
  cbv zeta.
  remember (Client.cat this cid maxDisplayBytes formatOutput decrypt w) as r eqn:Hr.
  revert Hr. unfold Client.cat.
  destruct (Client.should this decrypt && negb (Ipfs.encryptionAvailable (Client.cipher this)))
    eqn:Hrefuse.
  { intros ->. cbn. intros [= <-]. now left. }
  unfold bind at 1. rewrite core_cat_answer.
  destruct (answer w (get_request (Client.client this) cid)) as [e|response] eqn:Hans.
  { intros ->. cbn. intros [= <-]. right. split; [reflexivity|]. left. eauto. }
  destruct (ok response) eqn:Hok.
  2:{ intros ->. cbn. intros [= <-]. right. split; [reflexivity|]. right. left. eauto. }
  destruct (arrayBuffer response) as [e|served] eqn:Hbody.
  { intros ->. cbn. intros [= <-]. right. split; [reflexivity|]. right. right. left. eauto 10. }
  unfold bind at 1.
  destruct (Client.should this decrypt) eqn:Hshould; [|intros ->; cbn; discriminate].
  destruct (Ipfs.decryptData (Client.cipher this) served) as [error|plain] eqn:Hdec;
    [|intros ->; cbn; discriminate].
  intros ->. cbn. intros [= <-]. right. split; [reflexivity|]. right. right. right.
  exists response, served, error. repeat split; assumption.
Qed.

(** X28. The addresses of a constructed client.  A gateway given as a
    non-empty argument is the gateway used, with one slash at its end
    removed; and when the setting [local_ipfs] reads as true, for which any
    non-empty text of the variable [HIPPIUS_IPFS_LOCAL_IPFS] is enough,
    the API address is that of the local node, whatever address was given
    as argument. *)
Theorem client_addresses (s : Settings.Settings) (crypto_support : bool)
    (gateway apiUrl : option string) (encryptByDefault : option bool)
    (encryptionKey : option Buffer) (this : Client.IPFSClient) :
  Client.constructor s crypto_support gateway apiUrl encryptByDefault encryptionKey
  = inr this ->
  (forall g, gateway = Some g -> g <> ""%string ->
     Client.gateway this = Core.strip_slash g /\
     Core.gateway (Client.client this) = Core.strip_slash (Core.strip_slash g)) /\
  (forall v, Settings.env s !! "HIPPIUS_IPFS_LOCAL_IPFS" = Some v -> v <> ""%string ->
     Client.apiUrl this = "http://localhost:5001"%string /\
     Core.apiUrl (Client.client this) = "http://localhost:5001"%string).
Proof.
  unfold Client.constructor. intros Hnew. split.
  - intros g -> Hg. apply String.eqb_neq in Hg.
    unfold Client.address at 1 in Hnew. unfold Core.nonempty in Hnew. rewrite Hg in Hnew.
    cbn [negb Client.replace_slash] in Hnew.
    destruct (Client.replace_slash _ "this.apiUrl") as [e|a]; [discriminate|].
    injection Hnew as <-. split; reflexivity.
  - intros v Henv Hv. apply String.eqb_neq in Hv.
    assert (Hlocal : Settings.truthy
                       (Settings.getConfigValue s "ipfs" "local_ipfs" (Settings.VBool false))
                     = true).
    { unfold Settings.getConfigValue.
      change ("HIPPIUS_" ++ Settings.toUpperCase "ipfs" ++ "_"
                ++ Settings.toUpperCase "local_ipfs")%string
        with "HIPPIUS_IPFS_LOCAL_IPFS"%string.
      rewrite Henv. cbn [Settings.truthy]. now rewrite Hv. }
    rewrite Hlocal in Hnew.
    destruct (Client.replace_slash _ "this.gateway") as [e|g]; [discriminate|].
    cbn [Client.replace_slash] in Hnew. injection Hnew as <-. split; reflexivity.
Qed.

End ClientMore.

Section ClientInstances.
Import Crypto Http Node Wire.

Lemma cat_errors_witness :
  let w := Fixtures.world Fixtures.offline in
  let this := Fixtures.client in
  let t := ThrownError (mkError "TypeError" "fetch failed") in
  let request := get_request (Client.client this) "QmExample" in
  let w1 := snd (Client.cat this "QmExample" 1024 true None w) in
  fst (Client.cat this "QmExample" 1024 true None w) = inl t /\
  ((t = ThrownError (Client.not_available_for "Decryption") /\ w1 = w) \/
   (w1 = sending w request /\
    ((exists e, answer w request = Failed e /\ t = ThrownError e) \/
     (exists response,
        answer w request = Responded response /\ ok response = false /\
        t = ThrownError (mkError "Error"
                           ("Failed to retrieve content: " ++ statusText response))) \/
     (exists response e,
        answer w request = Responded response /\ ok response = true /\
        arrayBuffer response = inl e /\ t = ThrownError e) \/
     (exists response served error,
        answer w request = Responded response /\ ok response = true /\
        arrayBuffer response = inr served /\
        Client.should this None = true /\
        Ipfs.decryptData (Client.cipher this) served = inl error /\
        t = ThrownError (mkError "Error" ("Failed to decrypt file: " ++ toString error)))))).
Proof.
  cbv zeta. split; [reflexivity|].
  exact (cat_errors Fixtures.client "QmExample" 1024 true None
           (Fixtures.world Fixtures.offline) _ eq_refl).
Defined.

Lemma client_addresses_witness :
  let s := Settings.mkSettings {[ "HIPPIUS_IPFS_LOCAL_IPFS" := "false" ]} ∅ in
  let this :=
    Client.mkIPFSClient
      (Ipfs.constructor (Settings.environment s true) None (Some Samples.key))
      "https://gateway.example" "http://localhost:5001"
      (Core.constructor "http://localhost:5001" "https://gateway.example") in
  Client.constructor s true (Some "https://gateway.example/") (Some "https://api.example")
    None (Some Samples.key) = inr this /\
  (forall g, Some "https://gateway.example/"%string = Some g -> g <> ""%string ->
     Client.gateway this = Core.strip_slash g /\
     Core.gateway (Client.client this) = Core.strip_slash (Core.strip_slash g)) /\
  (forall v, Settings.env s !! "HIPPIUS_IPFS_LOCAL_IPFS" = Some v -> v <> ""%string ->
     Client.apiUrl this = "http://localhost:5001"%string /\
     Core.apiUrl (Client.client this) = "http://localhost:5001"%string).
Proof.
  cbv zeta. split; [reflexivity|].
  exact (client_addresses
           (Settings.mkSettings {[ "HIPPIUS_IPFS_LOCAL_IPFS" := "false" ]} ∅) true
           (Some "https://gateway.example/"%string) (Some "https://api.example"%string)
           None (Some Samples.key) _ eq_refl).
Defined.

End ClientInstances.
